(** * Sustainability health check: mapping, validation, KPI engine, header
      detection, store and wizard

    A shallow embedding of the TypeScript sources of the pipeline and of the
    state machine that sequences it:

      - [src/kpi/engine.ts]                      module [Engine]
      - [src/mapping/synonyms.ts],
        [src/mapping/mapper.ts]                  module [Mapper]
      - [src/validation/validator.ts]            module [Validator]
      - the ingestion worker, [autoDetectHeaderRow]
                                                 module [Worker]
      - the store ([store.ts] of [src/state])    modules [Heap], [Store]
      - [src/ui/Wizard.ts] and the handlers of
        [Step1Intake.ts], [Step2Validation.ts],
        [Step3KPI.ts] and [Step4Lock.ts]         module [Wizard]
      - the ingestion worker, [handleParse] and
        [handleParseDummy], and the promise of
        [parseFile] and [parseDummy]             module [Ingestion]
      - [src/export/csv.ts], [Step5Export.ts]    module [Csv]
      - [subscribe] and [addFile] of the store   module [StoreMore]

    Conventions of the embedding.

    - A JavaScript [number] is one of NaN, plus or minus Infinity, or a finite
      value.  Finite values are exact rationals ([Q]): the arithmetic of
      finite numbers is carried out without binary rounding and without
      overflow, and the sign of zero is not tracked (no division of the
      program has a divisor that can be zero).
    - A JavaScript string is a [string]: a sequence of code units below 256,
      with the case mapping and the white space of that range.
    - [null] and [undefined] in a typed field are [None].
    - The text of a number, [String(n)], is a parameter ([Number_toString]) of
      the functions that turn a cell into text.
    - The KPI list, its entries and the thresholds live in a heap, so that two
      fields holding the same reference see the same object; the other fields
      of the state are values. *)

From Stdlib Require Import QArith Qround Qabs ZArith Lia Lqa Bool.
From Stdlib Require Import String Ascii.
From stdpp Require Import base option list strings gmap.

Set Default Proof Using "Type".
Local Open Scope Q_scope.

(* ===================================================================== *)
(** * JavaScript numbers                                                   *)
(* ===================================================================== *)

Module Num.

Inductive number : Type :=
| NaN
| Inf (negative : bool)
| Fin (q : Q).

Definition Qneg (q : Q) : bool := (Qnum q <? 0)%Z.
Definition Qzero (q : Q) : bool := (Qnum q =? 0)%Z.

(** [a + b] *)
Definition nadd (a b : number) : number :=
  match a, b with
  | NaN, _ | _, NaN => NaN
  | Inf s, Inf t => if Bool.eqb s t then Inf s else NaN
  | Inf s, Fin _ | Fin _, Inf s => Inf s
  | Fin x, Fin y => Fin (x + y)
  end.

(** [a * b] *)
Definition nmul (a b : number) : number :=
  match a, b with
  | NaN, _ | _, NaN => NaN
  | Inf s, Inf t => Inf (xorb s t)
  | Inf s, Fin y | Fin y, Inf s => if Qzero y then NaN else Inf (xorb s (Qneg y))
  | Fin x, Fin y => Fin (x * y)
  end.

(** [a / b]; a zero divisor is taken to be [+0]. *)
Definition ndiv (a b : number) : number :=
  match a, b with
  | NaN, _ | _, NaN => NaN
  | Inf _, Inf _ => NaN
  | Inf s, Fin y => Inf (xorb s (Qneg y))
  | Fin _, Inf _ => Fin 0
  | Fin x, Fin y =>
      if Qzero y then (if Qzero x then NaN else Inf (Qneg x)) else Fin (x / y)
  end.

(** The relational operators: every comparison with NaN is false. *)
Definition ncompare (a b : number) : option comparison :=
  match a, b with
  | NaN, _ | _, NaN => None
  | Inf s, Inf t => Some (if s then (if t then Eq else Lt) else (if t then Gt else Eq))
  | Inf s, Fin _ => Some (if s then Lt else Gt)
  | Fin _, Inf t => Some (if t then Gt else Lt)
  | Fin x, Fin y => Some (x ?= y)
  end.

Definition ngt (a b : number) : bool :=
  match ncompare a b with Some Gt => true | _ => false end.
Definition nge (a b : number) : bool :=
  match ncompare a b with Some Gt | Some Eq => true | _ => false end.
Definition nlt (a b : number) : bool :=
  match ncompare a b with Some Lt => true | _ => false end.
Definition nle (a b : number) : bool :=
  match ncompare a b with Some Lt | Some Eq => true | _ => false end.

(** [Number.isNaN], [isFinite] *)
Definition isNaN (a : number) : bool :=
  match a with NaN => true | _ => false end.
Definition isFinite (a : number) : bool :=
  match a with Fin _ => true | _ => false end.

(** [Math.round]: the integer nearest to the argument, a tie going to the
    larger one, that is [floor (x + 1/2)]. *)
Definition Math_round (a : number) : number :=
  match a with
  | Fin q => Fin (inject_Z (Qfloor (q + (1 # 2))))
  | _ => a
  end.

(** [Math.min] *)
Definition Math_min (a b : number) : number :=
  match a, b with
  | NaN, _ | _, NaN => NaN
  | _, _ => if nlt b a then b else a
  end.

(** Two numbers denote the same value. *)
Definition num_eq (a b : number) : Prop :=
  match a, b with
  | NaN, NaN => True
  | Inf s, Inf t => s = t
  | Fin x, Fin y => x == y
  | _, _ => False
  end.

End Num.
Export Num.

Infix "≈" := num_eq (at level 70, no associativity).

(** [o ?? d] *)
Notation "o ?? d" := (default d o) (at level 45, left associativity).

(* ===================================================================== *)
(** * State types ([src/state/types.ts])                                   *)
(* ===================================================================== *)

Inductive ProductCategory := Cooking | Cooling | Washing | Unknown.

#[global] Instance ProductCategory_eq_dec : EqDecision ProductCategory.
Proof. solve_decision. Defined.

Inductive Light := red | amber | green.

Inductive Region := Mexico | EU27 | USA | Renewables | Custom.

Record MappedRecord := {
  Product : string;
  Category : ProductCategory;
  Transport_kgCO2e : option number;
  Materials_kgCO2e : option number;
  Production_kgCO2e : option number;
  Use_kWh_per_year : option number;
  Water_L : option number;
  Recycling_Quota_pct : option number;
  Local_Quota_pct : option number;
  EU_Label : option string
}.

Record GridFactors := {
  region : Region;
  factor : option number
}.

Record Thresholds := {
  usePhasePercentRed : number;
  materialsKgRed : number;
  productionKgGreen : number
}.

Record StageBreakdown := {
  sb_Transport : number;
  sb_Materials : number;
  sb_Production : number;
  sb_Use : number
}.

Record KPIStatus := {
  st_UsePhase : Light;
  st_Materials : Light;
  st_Production : Light
}.

Record KPIResult := {
  k_Product : string;
  k_Category : ProductCategory;
  UsePhase_CO2e : number;
  Total_CO2e : number;
  UsePhase_Share_Pct : number;
  stageBreakdown : StageBreakdown;
  status : KPIStatus
}.

(** [Record<string, number>] indexed by a category: a category without a
    configured lifetime reads as [undefined]. *)
Definition Lifetimes := ProductCategory -> option number.

(* ===================================================================== *)
(** * The KPI engine ([src/kpi/engine.ts])                                 *)
(* ===================================================================== *)

Module Engine.

(** [function round(n) { return Math.round(n * 100) / 100; }] *)
Definition round (n : number) : number :=
  ndiv (Math_round (nmul n (Fin 100))) (Fin 100).

Section PerRecord.
Variables (grid : GridFactors) (lifetimeYears : Lifetimes) (thresholds : Thresholds).
Variable r : MappedRecord.

(** The local constants of the callback of [records.map], lines 5-11. *)
Definition life : number := lifetimeYears (Category r) ?? Fin 10.
Definition use : number :=
  ndiv (nmul (nmul (Use_kWh_per_year r ?? Fin 0) (factor grid ?? Fin 0.25)) life)
       (Fin 1000).
Definition transport : number := Transport_kgCO2e r ?? Fin 0.
Definition materials : number := Materials_kgCO2e r ?? Fin 0.
Definition production : number := Production_kgCO2e r ?? Fin 0.
Definition total : number := nadd (nadd (nadd transport materials) production) use.
Definition share : number :=
  if ngt total (Fin 0) then nmul (ndiv use total) (Fin 100) else Fin 0.

(** Lines 12-16. *)
Definition status_of : KPIStatus :=
  {| st_UsePhase :=
       if nge share (usePhasePercentRed thresholds) then red
       else if nge share (nmul (usePhasePercentRed thresholds) (Fin 0.7)) then amber
       else green;
     st_Materials :=
       if nge materials (materialsKgRed thresholds) then red
       else if nge materials (nmul (materialsKgRed thresholds) (Fin 0.7)) then amber
       else green;
     st_Production :=
       if nle production (productionKgGreen thresholds) then green
       else if nle production (nmul (productionKgGreen thresholds) (Fin 1.5)) then amber
       else red |}.

(** Lines 17-25. *)
Definition kpi : KPIResult :=
  {| k_Product := Product r;
     k_Category := Category r;
     UsePhase_CO2e := round use;
     Total_CO2e := round total;
     UsePhase_Share_Pct := round share;
     stageBreakdown :=
       {| sb_Transport := round transport;
          sb_Materials := round materials;
          sb_Production := round production;
          sb_Use := round use |};
     status := status_of |}.

End PerRecord.

Definition computeKPIs (records : list MappedRecord) (grid : GridFactors)
    (lifetimeYears : Lifetimes) (thresholds : Thresholds) : list KPIResult :=
  map (kpi grid lifetimeYears thresholds) records.

End Engine.

(* ===================================================================== *)
(** * JavaScript strings and values                                        *)
(* ===================================================================== *)

Module Js.

Definition code (c : ascii) : N := N_of_ascii c.

Definition in_range (lo hi : N) (c : ascii) : bool :=
  ((lo <=? code c) && (code c <=? hi))%N.

(** [\s] on code units below 256: TAB, LF, VT, FF, CR, SPACE and NBSP. *)
Definition is_space (c : ascii) : bool :=
  in_range 9 13 c || (code c =? 32)%N || (code c =? 160)%N.

Definition is_digit (c : ascii) : bool := in_range 48 57 c.

(** Upper-case letters with a lower-case partner 32 code units above:
    [A-Z], and in the Latin-1 block U+00C0..U+00DE without U+00D7. *)
Definition is_upper (c : ascii) : bool :=
  in_range 65 90 c || (in_range 192 222 c && negb (code c =? 215)%N).

Definition lower_char (c : ascii) : ascii :=
  if is_upper c then ascii_of_N (code c + 32) else c.

(** [s.toLowerCase()] *)
Fixpoint toLowerCase (s : string) : string :=
  match s with
  | EmptyString => EmptyString
  | String c s' => String (lower_char c) (toLowerCase s')
  end.

(** [s.startsWith(k)] *)
Fixpoint startsWith (s k : string) : bool :=
  match k, s with
  | EmptyString, _ => true
  | String _ _, EmptyString => false
  | String c k', String d s' => Ascii.eqb c d && startsWith s' k'
  end.

(** [s.includes(k)] *)
Fixpoint includes (s k : string) : bool :=
  startsWith s k ||
  match s with
  | EmptyString => false
  | String _ s' => includes s' k
  end.

(** [s.replace(/,/g, '.')] *)
Fixpoint commas_to_dots (s : string) : string :=
  match s with
  | EmptyString => EmptyString
  | String c s' =>
      String (if Ascii.eqb c "," then "."%char else c) (commas_to_dots s')
  end.

(** The character class [[0-9.-]]. *)
Definition is_numeric_char (c : ascii) : bool :=
  is_digit c || Ascii.eqb c "." || Ascii.eqb c "-".

(** [s.replace(/[^0-9.-]/g, '')] *)
Fixpoint strip_non_numeric (s : string) : string :=
  match s with
  | EmptyString => EmptyString
  | String c s' =>
      if is_numeric_char c then String c (strip_non_numeric s')
      else strip_non_numeric s'
  end.

(** [s.replace(/\s+|[_-]+/g, ' ')]: a maximal run of white space becomes one
    space, and so does a maximal run of underscores and hyphens; two
    adjacent runs of different kinds give two spaces. *)
Inductive RunKind := WhiteRun | SepRun.

Definition run_kind (c : ascii) : option RunKind :=
  if is_space c then Some WhiteRun
  else if Ascii.eqb c "_" || Ascii.eqb c "-" then Some SepRun
  else None.

Definition same_run (a b : option RunKind) : bool :=
  match a, b with
  | Some WhiteRun, Some WhiteRun | Some SepRun, Some SepRun => true
  | _, _ => false
  end.

Fixpoint collapse_runs (inside : option RunKind) (s : string) : string :=
  match s with
  | EmptyString => EmptyString
  | String c s' =>
      match run_kind c with
      | None => String c (collapse_runs None s')
      | Some k =>
          if same_run inside (Some k) then collapse_runs (Some k) s'
          else String " " (collapse_runs (Some k) s')
      end
  end.

Fixpoint trimStart (s : string) : string :=
  match s with
  | EmptyString => EmptyString
  | String c s' => if is_space c then trimStart s' else s
  end.

Fixpoint all_space (s : string) : bool :=
  match s with
  | EmptyString => true
  | String c s' => is_space c && all_space s'
  end.

Fixpoint trimEnd (s : string) : string :=
  match s with
  | EmptyString => EmptyString
  | String c s' => if all_space s then EmptyString else String c (trimEnd s')
  end.

(** [s.trim()] *)
Definition trim (s : string) : string := trimEnd (trimStart s).

(** Values found in the cells of a sheet. *)
Inductive JsValue :=
| VUndefined
| VNull
| VBool (b : bool)
| VNum (n : number)
| VStr (s : string).

(** [v ?? d] on values *)
Definition nullish (v d : JsValue) : JsValue :=
  match v with
  | VUndefined | VNull => d
  | _ => v
  end.

(** Truthiness of a value. *)
Definition truthy (v : JsValue) : bool :=
  match v with
  | VUndefined | VNull => false
  | VBool b => b
  | VNum NaN => false
  | VNum (Fin q) => negb (Qzero q)
  | VNum (Inf _) => true
  | VStr s => negb (String.eqb s "")
  end.

(** [v || d] on values *)
Definition or_else (v d : JsValue) : JsValue := if truthy v then v else d.

(** [String(v)].  The text of a number is the one [Number.prototype.toString]
    gives; it is a parameter of the embedding. *)
Definition String_ (Number_toString : number -> string) (v : JsValue) : string :=
  match v with
  | VUndefined => "undefined"
  | VNull => "null"
  | VBool true => "true"
  | VBool false => "false"
  | VNum n => Number_toString n
  | VStr s => s
  end.

(** ** [Number(str)] on a string over [[0-9.-]]

    Line 28 of the mapper leaves only digits, dots and hyphens in the string
    handed to [Number], so of the grammar of numeric strings only the empty
    string and the forms [-? digits], [-? digits . digits?] and
    [-? . digits] remain; every other string over these characters is not a
    number. *)

Fixpoint digits_value (acc : Z) (s : string) : option Z :=
  match s with
  | EmptyString => Some acc
  | String c s' =>
      if is_digit c
      then digits_value (10 * acc + (Z.of_N (code c) - 48))%Z s'
      else None
  end.

(** The text before the first dot, and the text after it if there is one. *)
Fixpoint split_dot (s : string) : string * option string :=
  match s with
  | EmptyString => (EmptyString, None)
  | String c s' =>
      if Ascii.eqb c "." then (EmptyString, Some s')
      else let '(a, b) := split_dot s' in (String c a, b)
  end.

Definition pow10 (n : nat) : Z := (10 ^ Z.of_nat n)%Z.

Definition unsigned_decimal (s : string) : option Q :=
  match split_dot s with
  | (EmptyString, None) => None
  | (ip, None) => i ← digits_value 0 ip; Some (inject_Z i)
  | (EmptyString, Some EmptyString) => None
  | (ip, Some fp) =>
      i ← digits_value 0 ip;
      f ← digits_value 0 fp;
      Some (inject_Z (i * pow10 (String.length fp) + f)
            / inject_Z (pow10 (String.length fp)))
  end.

(** A decimal whose magnitude reaches [2^1024 - 2^970] reads as an infinity. *)
Definition overflow_bound : Q := inject_Z (2 ^ 1024 - 2 ^ 970).

Definition to_double (q : Q) : number :=
  if Qle_bool overflow_bound (Qabs q) then Inf (Qneg q) else Fin q.

Definition Number_ (s : string) : number :=
  match s with
  | EmptyString => Fin 0
  | String c rest =>
      if Ascii.eqb c "-"
      then match unsigned_decimal rest with
           | Some q => to_double (- q)
           | None => NaN
           end
      else match unsigned_decimal s with
           | Some q => to_double q
           | None => NaN
           end
  end.

End Js.
Export Js.

(* ===================================================================== *)
(** * Schema mapping ([src/mapping/synonyms.ts], [src/mapping/mapper.ts])  *)
(* ===================================================================== *)

Record MapSuggestion := {
  target : string;
  fromHeader : option string;
  confidence : number
}.

Record MappingForSheet := {
  sheetName : string;
  headerRowIndex : nat;
  suggestions : list MapSuggestion
}.

(** A row of a sheet: an object from header text to cell value; a header the
    row does not have reads as [undefined]. *)
Abbreviation Row := (gmap string JsValue).

Definition prop (r : Row) (key : string) : JsValue := r !! key ?? VUndefined.

Module Mapper.

Local Open Scope string_scope.

(** [synonymTable], in the order of its keys. *)
Definition synonymTable : list (string * list string) :=
  [ ("Product", ["product"; "sku"; "item"; "model"]);
    ("Category", ["category"; "segment"; "family"; "type"]);
    ("Transport_kgCO2e",
      ["transport co2"; "transport kgco2e"; "co2e transport"; "logistics co2";
       "shipping co2"]);
    ("Materials_kgCO2e",
      ["materials co2"; "materials kgco2e"; "co2e materials";
       "material footprint"; "bom co2"]);
    ("Production_kgCO2e",
      ["production co2"; "production kgco2e"; "co2e production";
       "manufacturing co2"; "factory co2"]);
    ("Use_kWh_per_year",
      ["use kwh"; "kwh per year"; "annual kwh"; "energy use"; "electricity use"]);
    ("Water_L", ["water"; "water_l"; "water (l)"; "liters"; "consumption water"]);
    ("Recycling_Quota_%", ["recycling quota"; "recycling %"; "recycling rate"]);
    ("Local_Quota_%", ["local quota"; "local %"; "local share"]);
    ("EU_Label", ["eu label"; "energy label"]) ].

(** [h.toLowerCase().replace(/\s+|[_-]+/g, ' ').trim()] *)
Definition normalizeHeader (h : string) : string :=
  trim (collapse_runs None (toLowerCase h)).

Definition requiredTargets : list string :=
  ["Product"; "Category"; "Transport_kgCO2e"; "Materials_kgCO2e";
   "Production_kgCO2e"; "Use_kWh_per_year"].

(** The running best of the inner loop of [suggestMapping]. *)
Record Best := { from : option string; score : number }.

(** Lines 13-14: the two addends of a header's score. *)
Definition header_score (syns : list string) (n : string) : number :=
  nadd (if existsb (fun s => includes n s) syns then Fin 1 else Fin 0)
       (if existsb (fun s => String.eqb s n) syns then Fin 0.5 else Fin 0).

(** Line 15, one iteration of [for (const h of norm)]. *)
Definition consider (syns : list string) (best : Best) (h : string * string) : Best :=
  if ngt (header_score syns (snd h)) (score best)
  then {| from := Some (fst h); score := header_score syns (snd h) |}
  else best.

Definition synonyms_of (entry : string * list string) : list string :=
  normalizeHeader (fst entry) :: map normalizeHeader (snd entry).

(** Lines 10-17, one iteration of the loop over the keys of the table. *)
Definition suggest_for (norm : list (string * string))
    (suggestions : list MapSuggestion) (entry : string * list string)
    : list MapSuggestion :=
  let best :=
    fold_left (consider (synonyms_of entry)) norm {| from := None; score := Fin 0 |} in
  suggestions ++
  [ {| target := fst entry;
       fromHeader := from best;
       confidence := Math_min (Fin 1) (score best) |} ].

Definition suggestMapping (headers : list string) : list MapSuggestion :=
  let norm := map (fun h => (h, normalizeHeader h)) headers in
  fold_left (suggest_for norm) synonymTable [].

Section WithNumberText.
Variable Number_toString : number -> string.

(** [toNum], lines 25-31. *)
Definition toNum (v : JsValue) : option number :=
  match v with
  | VNull | VUndefined | VStr EmptyString => None
  | VNum n => Some n
  | _ =>
      let str := strip_non_numeric (commas_to_dots (String_ Number_toString v)) in
      let n := Number_ str in
      if isFinite n then Some n else None
  end.

(** [toCat], lines 32-38. *)
Definition toCat (v : JsValue) : ProductCategory :=
  let s := toLowerCase (String_ Number_toString (or_else v (VStr ""))) in
  if startsWith s "cook" then Cooking
  else if startsWith s "cool" || includes s "fridge" then Cooling
  else if startsWith s "wash" then Washing
  else Unknown.

(** Line 23: [Object.fromEntries]; a later entry for the same target replaces
    an earlier one, and an entry whose header is [null] or empty reads as
    [undefined]. *)
Definition fieldFrom_of (m : MappingForSheet) : gmap string string :=
  fold_left
    (fun acc s =>
       match fromHeader s with
       | Some h => if String.eqb h "" then delete (target s) acc
                   else <[target s := h]> acc
       | None => delete (target s) acc
       end)
    (suggestions m) ∅.

(** [r[fieldFrom[t]!]]: an unmapped target reads the property named
    ["undefined"]. *)
Definition mapped_cell (fieldFrom : gmap string string) (r : Row) (t : string) : JsValue :=
  prop r (fieldFrom !! t ?? "undefined").

Definition record_of (fieldFrom : gmap string string) (r : Row) : MappedRecord :=
  {| Product :=
       String_ Number_toString
         match fieldFrom !! "Product" with
         | Some h => prop r h
         | None => nullish (prop r "Product") (VStr "")
         end;
     Category :=
       toCat match fieldFrom !! "Category" with
             | Some h => prop r h
             | None => prop r "Category"
             end;
     Transport_kgCO2e := toNum (mapped_cell fieldFrom r "Transport_kgCO2e");
     Materials_kgCO2e := toNum (mapped_cell fieldFrom r "Materials_kgCO2e");
     Production_kgCO2e := toNum (mapped_cell fieldFrom r "Production_kgCO2e");
     Use_kWh_per_year := toNum (mapped_cell fieldFrom r "Use_kWh_per_year");
     Water_L := toNum (mapped_cell fieldFrom r "Water_L");
     Recycling_Quota_pct := toNum (mapped_cell fieldFrom r "Recycling_Quota_%");
     Local_Quota_pct := toNum (mapped_cell fieldFrom r "Local_Quota_%");
     EU_Label :=
       let s := String_ Number_toString
                  (nullish (mapped_cell fieldFrom r "EU_Label") (VStr "")) in
       if String.eqb s "" then None else Some s |}.

Definition applyMapping (rows : list Row) (mapping : MappingForSheet)
    : list MappedRecord * list string :=
  let fieldFrom := fieldFrom_of mapping in
  let missing :=
    filter (fun t => fieldFrom !! t = None) requiredTargets in
  (map (record_of fieldFrom) rows, missing).

End WithNumberText.

End Mapper.

(* ===================================================================== *)
(** * Validation ([src/validation/validator.ts], lines 1-17)               *)
(* ===================================================================== *)

Inductive Severity := error | warning.

Record ValidationIssue := {
  rowIndex : nat;
  field : string;
  severity : Severity;
  message : string
}.

Record DataQualitySummary := {
  dq_status : Light;
  issues : list ValidationIssue
}.

Module Validator.

Local Open Scope string_scope.

(** The keys listed in [req], line 7. *)
Inductive ReqField := FTransport | FMaterials | FProduction | FUse.

Definition req : list ReqField := [FTransport; FMaterials; FProduction; FUse].

(** [String(f)] *)
Definition field_name (f : ReqField) : string :=
  match f with
  | FTransport => "Transport_kgCO2e"
  | FMaterials => "Materials_kgCO2e"
  | FProduction => "Production_kgCO2e"
  | FUse => "Use_kWh_per_year"
  end.

(** [r[f]] *)
Definition get (r : MappedRecord) (f : ReqField) : option number :=
  match f with
  | FTransport => Transport_kgCO2e r
  | FMaterials => Materials_kgCO2e r
  | FProduction => Production_kgCO2e r
  | FUse => Use_kWh_per_year r
  end.

Definition is_error (i : ValidationIssue) : bool :=
  match severity i with error => true | warning => false end.

(** Lines 9-12: the body of [for (const f of req)], pushing onto [issues]. *)
Definition check_field (row : nat) (r : MappedRecord)
    (issues : list ValidationIssue) (f : ReqField) : list ValidationIssue :=
  match get r f with
  | None =>
      issues ++ [ {| rowIndex := row; field := field_name f; severity := error;
                     message := "Missing required value" |} ]
  | Some v =>
      if isNaN v then
        issues ++ [ {| rowIndex := row; field := field_name f; severity := error;
                       message := "Missing required value" |} ]
      else if nlt v (Fin 0) then
        issues ++ [ {| rowIndex := row; field := field_name f; severity := error;
                       message := "Negative value" |} ]
      else if ngt v (Fin 10000000) then
        issues ++ [ {| rowIndex := row; field := field_name f; severity := warning;
                       message := "Suspiciously large" |} ]
      else issues
  end.

(** Lines 5-14: [records.forEach((r, idx) => ...)], from index [idx] on. *)
Fixpoint forEach_record (idx : nat) (records : list MappedRecord)
    (issues : list ValidationIssue) : list ValidationIssue :=
  match records with
  | [] => issues
  | r :: rest =>
      let row := (idx + 1)%nat in
      forEach_record (S idx) rest (fold_left (check_field row r) req issues)
  end.

Definition validate (records : list MappedRecord) : DataQualitySummary :=
  let issues := forEach_record 0 records [] in
  {| dq_status :=
       if existsb is_error issues then red
       else match issues with [] => green | _ => amber end;
     issues := issues |}.

End Validator.

(* ===================================================================== *)
(** * Header detection (the ingestion worker, [autoDetectHeaderRow])       *)
(* ===================================================================== *)

Module Worker.

Local Open Scope string_scope.

Definition keywordHints : list string :=
  ["transport"; "materials"; "production"; "use"; "kwh"; "product"].

Section WithNumberText.
Variable Number_toString : number -> string.

(** The callback of [r.reduce], lines 36-41. *)
Definition add_cell (acc : number) (cell : JsValue) : number :=
  let v := toLowerCase (String_ Number_toString (nullish cell (VStr ""))) in
  let hits := if existsb (fun k => includes v k) keywordHints then Fin 1 else Fin 0 in
  let len := if (0 <? String.length v)%nat then Fin 0.2 else Fin 0 in
  nadd (nadd acc hits) len.

Definition row_score (r : list JsValue) : number := fold_left add_cell r (Fin 0).

(** The state of the scan: [bestIdx] and [bestScore]. *)
Record Scan := { bestIdx : nat; bestScore : number }.

(** Lines 35-43, the callback of [forEach] at index [i]. *)
Definition visit (s : Scan) (i : nat) (r : list JsValue) : Scan :=
  let score := row_score r in
  if ngt score (bestScore s) then {| bestIdx := i; bestScore := score |} else s.

Fixpoint forEach_row (i : nat) (rows : list (list JsValue)) (s : Scan) : Scan :=
  match rows with
  | [] => s
  | r :: rest => forEach_row (S i) rest (visit s i r)
  end.

Definition autoDetectHeaderRow (rows : list (list JsValue)) : nat :=
  bestIdx
    (forEach_row 0 (take (Nat.min 20 (length rows)) rows)
                 {| bestIdx := 0; bestScore := Inf true |}).

End WithNumberText.

End Worker.

(* ===================================================================== *)
(** * The store ([src/state/store.ts])                                     *)
(* ===================================================================== *)

(** ** Objects and references

    The KPI list of the working state, its entries and the thresholds are
    JavaScript objects: a field of the state or of a snapshot holds a
    reference to them, and two fields may hold the same reference.  The heap
    maps a reference to the object it denotes. *)

Module Heap.

Abbreviation loc := nat.

Inductive Obj :=
| ArrObj (elems : list loc)      (* a [KPIResult[]] *)
| KpiObj (k : KPIResult)
| ThrObj (t : Thresholds).

Abbreviation Heap := (list Obj).

(** A new object gets the next reference. *)
Definition alloc (h : Heap) (o : Obj) : Heap * loc := (h ++ [o], length h).

Definition elems_at (h : Heap) (a : loc) : list loc :=
  match h !! a with Some (ArrObj l) => l | _ => [] end.

Definition kpi_at (h : Heap) (l : loc) : option KPIResult :=
  match h !! l with Some (KpiObj k) => Some k | _ => None end.

Definition thresholds_at (h : Heap) (l : loc) : option Thresholds :=
  match h !! l with Some (ThrObj t) => Some t | _ => None end.

(** The entries of the array at [a], read through the heap. *)
Definition read_kpis (h : Heap) (a : loc) : list KPIResult :=
  omap (kpi_at h) (elems_at h a).

(** A literal array of fresh entries, as [records.map] builds it. *)
Fixpoint alloc_entries (h : Heap) (ks : list KPIResult) : Heap * list loc :=
  match ks with
  | [] => (h, [])
  | k :: rest =>
      let '(h1, l) := alloc h (KpiObj k) in
      let '(h2, ls) := alloc_entries h1 rest in
      (h2, l :: ls)
  end.

Definition alloc_kpis (h : Heap) (ks : list KPIResult) : Heap * loc :=
  let '(h1, ls) := alloc_entries h ks in alloc h1 (ArrObj ls).

(** [structuredClone]: every object gets a copy, and the copies refer to one
    another as the originals do; the copy of the object at [l] is at
    [l + length h]. *)
Definition shift_obj (d : nat) (o : Obj) : Obj :=
  match o with
  | ArrObj l => ArrObj (map (Nat.add d) l)
  | _ => o
  end.

Definition clone_all (h : Heap) : Heap := h ++ map (shift_obj (length h)) h.

End Heap.
Export Heap.

Record RawFileMeta := {
  file_name : string;
  from_upload : bool;
  sheetNames : list string
}.

Inductive DetectedStatus := Parsed | Mapped | Validated | DetectedError.

Record DetectedProduct := {
  product : string;
  category : ProductCategory;
  sourceFile : string;
  detected_status : DetectedStatus;
  detected_message : option string;
  sheet : option string
}.

Record SheetData := {
  headers : list string;
  rows : list Row
}.

Record Totals := { count : nat; totalCO2e : number }.

Record Snapshot := {
  taken_at : string;
  snap_kpis : loc;
  totals : Totals;
  snap_thresholds : loc
}.

Record WizardState := {
  stepIndex : Z;
  files : list RawFileMeta;
  detected : list DetectedProduct;
  mappings : list (string * MappingForSheet);
  sheets : list (string * SheetData);
  records : list MappedRecord;
  dataQuality : option DataQualitySummary;
  gridFactor : GridFactors;
  lifetimeYears : Lifetimes;
  thresholds : loc;
  kpis : loc;
  lockedSnapshot : option Snapshot;
  busy : bool;
  current_error : option string
}.

(** An object with string keys, in the order in which the keys were added. *)
Fixpoint obj_get {A} (o : list (string * A)) (key : string) : option A :=
  match o with
  | [] => None
  | (k, v) :: o' => if String.eqb k key then Some v else obj_get o' key
  end.

Fixpoint obj_set {A} (o : list (string * A)) (key : string) (v : A) : list (string * A) :=
  match o with
  | [] => [(key, v)]
  | (k, w) :: o' =>
      if String.eqb k key then (key, v) :: o' else (k, w) :: obj_set o' key v
  end.

Module Store.

Local Open Scope Z_scope.

Definition defaultThresholds : Thresholds :=
  {| usePhasePercentRed := Fin 60;
     materialsKgRed := Fin 200;
     productionKgGreen := Fin 100 |}.

(** The module-level variable [state], with the heap its references point
    into. *)
Record Store := { heap : Heap; state : WizardState }.

(** [init]: its thresholds object is at reference 0 and its empty KPI list at
    reference 1. *)
Definition init_heap : Heap := [ThrObj defaultThresholds; ArrObj []].

Definition init : WizardState :=
  {| stepIndex := 0;
     files := [];
     detected := [];
     mappings := [];
     sheets := [];
     records := [];
     dataQuality := None;
     gridFactor := {| region := EU27; factor := Some (Fin 0.25) |};
     lifetimeYears := fun c =>
       Some match c with
            | Cooking => Fin 12
            | Cooling => Fin 10
            | Washing => Fin 8
            | Unknown => Fin 10
            end;
     thresholds := 0%nat;
     kpis := 1%nat;
     lockedSnapshot := None;
     busy := false;
     current_error := None |}.

(** The part of the state kept in the session storage, lines 79-87. *)
Record Persisted := {
  p_stepIndex : Z;
  p_gridFactor : GridFactors;
  p_lifetimeYears : Lifetimes;
  p_thresholds : Thresholds
}.

(** Line 26: the state at start, with or without a persisted part. *)
Definition start (persistedRaw : option Persisted) : Store :=
  match persistedRaw with
  | None => {| heap := init_heap; state := init |}
  | Some p =>
      let '(h, t) := alloc init_heap (ThrObj (p_thresholds p)) in
      {| heap := h;
         state :=
           {| stepIndex := p_stepIndex p;
              files := files init;
              detected := detected init;
              mappings := mappings init;
              sheets := sheets init;
              records := records init;
              dataQuality := dataQuality init;
              gridFactor := p_gridFactor p;
              lifetimeYears := p_lifetimeYears p;
              thresholds := t;
              kpis := kpis init;
              lockedSnapshot := lockedSnapshot init;
              busy := busy init;
              current_error := current_error init |} |}
  end.

(** ** Field assignments of a patch or of a mutator *)

Definition with_stepIndex (v : Z) (s : WizardState) : WizardState :=
  {| stepIndex := v; files := files s; detected := detected s;
     mappings := mappings s; sheets := sheets s; records := records s;
     dataQuality := dataQuality s; gridFactor := gridFactor s;
     lifetimeYears := lifetimeYears s; thresholds := thresholds s;
     kpis := kpis s; lockedSnapshot := lockedSnapshot s; busy := busy s;
     current_error := current_error s |}.

Definition with_detected (v : list DetectedProduct) (s : WizardState) : WizardState :=
  {| stepIndex := stepIndex s; files := files s; detected := v;
     mappings := mappings s; sheets := sheets s; records := records s;
     dataQuality := dataQuality s; gridFactor := gridFactor s;
     lifetimeYears := lifetimeYears s; thresholds := thresholds s;
     kpis := kpis s; lockedSnapshot := lockedSnapshot s; busy := busy s;
     current_error := current_error s |}.

Definition with_mappings (v : list (string * MappingForSheet)) (s : WizardState)
    : WizardState :=
  {| stepIndex := stepIndex s; files := files s; detected := detected s;
     mappings := v; sheets := sheets s; records := records s;
     dataQuality := dataQuality s; gridFactor := gridFactor s;
     lifetimeYears := lifetimeYears s; thresholds := thresholds s;
     kpis := kpis s; lockedSnapshot := lockedSnapshot s; busy := busy s;
     current_error := current_error s |}.

Definition with_sheets (v : list (string * SheetData)) (s : WizardState) : WizardState :=
  {| stepIndex := stepIndex s; files := files s; detected := detected s;
     mappings := mappings s; sheets := v; records := records s;
     dataQuality := dataQuality s; gridFactor := gridFactor s;
     lifetimeYears := lifetimeYears s; thresholds := thresholds s;
     kpis := kpis s; lockedSnapshot := lockedSnapshot s; busy := busy s;
     current_error := current_error s |}.

Definition with_records (v : list MappedRecord) (s : WizardState) : WizardState :=
  {| stepIndex := stepIndex s; files := files s; detected := detected s;
     mappings := mappings s; sheets := sheets s; records := v;
     dataQuality := dataQuality s; gridFactor := gridFactor s;
     lifetimeYears := lifetimeYears s; thresholds := thresholds s;
     kpis := kpis s; lockedSnapshot := lockedSnapshot s; busy := busy s;
     current_error := current_error s |}.

Definition with_dataQuality (v : option DataQualitySummary) (s : WizardState)
    : WizardState :=
  {| stepIndex := stepIndex s; files := files s; detected := detected s;
     mappings := mappings s; sheets := sheets s; records := records s;
     dataQuality := v; gridFactor := gridFactor s;
     lifetimeYears := lifetimeYears s; thresholds := thresholds s;
     kpis := kpis s; lockedSnapshot := lockedSnapshot s; busy := busy s;
     current_error := current_error s |}.

Definition with_gridFactor (v : GridFactors) (s : WizardState) : WizardState :=
  {| stepIndex := stepIndex s; files := files s; detected := detected s;
     mappings := mappings s; sheets := sheets s; records := records s;
     dataQuality := dataQuality s; gridFactor := v;
     lifetimeYears := lifetimeYears s; thresholds := thresholds s;
     kpis := kpis s; lockedSnapshot := lockedSnapshot s; busy := busy s;
     current_error := current_error s |}.

Definition with_lifetimeYears (v : Lifetimes) (s : WizardState) : WizardState :=
  {| stepIndex := stepIndex s; files := files s; detected := detected s;
     mappings := mappings s; sheets := sheets s; records := records s;
     dataQuality := dataQuality s; gridFactor := gridFactor s;
     lifetimeYears := v; thresholds := thresholds s;
     kpis := kpis s; lockedSnapshot := lockedSnapshot s; busy := busy s;
     current_error := current_error s |}.

Definition with_thresholds (v : loc) (s : WizardState) : WizardState :=
  {| stepIndex := stepIndex s; files := files s; detected := detected s;
     mappings := mappings s; sheets := sheets s; records := records s;
     dataQuality := dataQuality s; gridFactor := gridFactor s;
     lifetimeYears := lifetimeYears s; thresholds := v;
     kpis := kpis s; lockedSnapshot := lockedSnapshot s; busy := busy s;
     current_error := current_error s |}.

Definition with_kpis (v : loc) (s : WizardState) : WizardState :=
  {| stepIndex := stepIndex s; files := files s; detected := detected s;
     mappings := mappings s; sheets := sheets s; records := records s;
     dataQuality := dataQuality s; gridFactor := gridFactor s;
     lifetimeYears := lifetimeYears s; thresholds := thresholds s;
     kpis := v; lockedSnapshot := lockedSnapshot s; busy := busy s;
     current_error := current_error s |}.

Definition with_lockedSnapshot (v : option Snapshot) (s : WizardState) : WizardState :=
  {| stepIndex := stepIndex s; files := files s; detected := detected s;
     mappings := mappings s; sheets := sheets s; records := records s;
     dataQuality := dataQuality s; gridFactor := gridFactor s;
     lifetimeYears := lifetimeYears s; thresholds := thresholds s;
     kpis := kpis s; lockedSnapshot := v; busy := busy s;
     current_error := current_error s |}.

Definition with_busy (v : bool) (s : WizardState) : WizardState :=
  {| stepIndex := stepIndex s; files := files s; detected := detected s;
     mappings := mappings s; sheets := sheets s; records := records s;
     dataQuality := dataQuality s; gridFactor := gridFactor s;
     lifetimeYears := lifetimeYears s; thresholds := thresholds s;
     kpis := kpis s; lockedSnapshot := lockedSnapshot s; busy := v;
     current_error := current_error s |}.

Definition with_error (v : option string) (s : WizardState) : WizardState :=
  {| stepIndex := stepIndex s; files := files s; detected := detected s;
     mappings := mappings s; sheets := sheets s; records := records s;
     dataQuality := dataQuality s; gridFactor := gridFactor s;
     lifetimeYears := lifetimeYears s; thresholds := thresholds s;
     kpis := kpis s; lockedSnapshot := lockedSnapshot s; busy := busy s;
     current_error := v |}.

(** ** The operations of [store]

    [notify] calls the listeners; none of them writes to the store, so the
    listeners are left out of the state. *)

(** [set(patch)]: the new state takes the fields of the patch and shares
    every other field, references included, with the old one. *)
Definition set (patch : WizardState -> WizardState) (st : Store) : Store :=
  {| heap := heap st; state := patch (state st) |}.

(** [structuredClone(state)]: the references of the copy point to the copies
    of the objects. *)
Definition shift_snapshot (d : nat) (s : Snapshot) : Snapshot :=
  {| taken_at := taken_at s;
     snap_kpis := (d + snap_kpis s)%nat;
     totals := totals s;
     snap_thresholds := (d + snap_thresholds s)%nat |}.

Definition structuredClone (st : Store) : Store :=
  let d := length (heap st) in
  {| heap := clone_all (heap st);
     state :=
       with_lockedSnapshot (shift_snapshot d <$> lockedSnapshot (state st))
         (with_kpis (d + kpis (state st))%nat
            (with_thresholds (d + thresholds (state st))%nat (state st))) |}.

(** [update(mutator)]: the mutator works on the copy, which then becomes the
    state. *)
Definition update (mutator : Store -> Store) (st : Store) : Store :=
  mutator (structuredClone st).

(** A mutator that assigns fields of [next] and touches no object. *)
Definition assign (f : WizardState -> WizardState) : Store -> Store := set f.

Definition nextStep (st : Store) : Store :=
  update (assign (fun s => with_stepIndex (Z.min 4 (stepIndex s + 1)) s)) st.

Definition prevStep (st : Store) : Store :=
  update (assign (fun s => with_stepIndex (Z.max 0 (stepIndex s - 1)) s)) st.

Definition resetError : Store -> Store := set (with_error None).
Definition setBusy (b : bool) : Store -> Store := set (with_busy b).

Definition addDetected (dp : list DetectedProduct) : Store -> Store :=
  update (assign (fun s => with_detected (detected s ++ dp) s)).

Definition setMapping (key : string) (m : MappingForSheet) : Store -> Store :=
  update (assign (fun s => with_mappings (obj_set (mappings s) key m) s)).

Definition setSheet (key : string) (data : SheetData) : Store -> Store :=
  update (assign (fun s => with_sheets (obj_set (sheets s) key data) s)).

Definition setRecords (rs : list MappedRecord) : Store -> Store :=
  set (with_records rs).

(** [setKPIs(kpis)]: the argument is a reference to the caller's array. *)
Definition setKPIs (a : loc) : Store -> Store := set (with_kpis a).

(** [lock()], lines 64-72; [now] is [new Date().toISOString()]. *)
Definition sum_total (ks : list KPIResult) : number :=
  fold_left (fun a b => nadd a (Total_CO2e b)) ks (Fin 0).

Definition lock (now : string) (st : Store) : Store :=
  let s := state st in
  let snapshot :=
    {| taken_at := now;
       snap_kpis := kpis s;
       totals := {| count := length (elems_at (heap st) (kpis s));
                    totalCO2e := sum_total (read_kpis (heap st) (kpis s)) |};
       snap_thresholds := thresholds s |} in
  set (with_lockedSnapshot (Some snapshot)) st.

Definition setGridFactor (gf : GridFactors) : Store -> Store :=
  set (with_gridFactor gf).

(** [setThresholds(t)]: the argument is a reference to the caller's object. *)
Definition setThresholds (t : loc) : Store -> Store := set (with_thresholds t).

Definition setLifetime (cat : ProductCategory) (years : number) : Store -> Store :=
  update (assign (fun s =>
    with_lifetimeYears
      (fun c => if decide (c = cat) then Some years else lifetimeYears s c) s)).

(** What the session storage receives after a notification. *)
Definition persist (st : Store) : option Persisted :=
  t ← thresholds_at (heap st) (thresholds (state st));
  Some {| p_stepIndex := stepIndex (state st);
          p_gridFactor := gridFactor (state st);
          p_lifetimeYears := lifetimeYears (state st);
          p_thresholds := t |}.

(** ** Reading a snapshot

    What a reader of [store.get().lockedSnapshot] finds in it. *)
Definition snapshot_kpis (st : Store) : option (list KPIResult) :=
  snap ← lockedSnapshot (state st);
  Some (read_kpis (heap st) (snap_kpis snap)).

Definition snapshot_thresholds (st : Store) : option Thresholds :=
  snap ← lockedSnapshot (state st);
  thresholds_at (heap st) (snap_thresholds snap).

(** The live KPI list, [store.get().kpis]. *)
Definition live_kpis (st : Store) : list KPIResult :=
  read_kpis (heap st) (kpis (state st)).

(** ** A write to the live KPI list

    [store.get().kpis[i].f = v]: a field of the [i]-th entry of the array the
    state refers to is assigned in place.  Without such an entry the
    assignment throws and nothing is written. *)
Definition edit_entry (i : nat) (f : KPIResult -> KPIResult) (st : Store) : Store :=
  match elems_at (heap st) (kpis (state st)) !! i with
  | Some l =>
      match kpi_at (heap st) l with
      | Some k => {| heap := <[l := KpiObj (f k)]> (heap st); state := state st |}
      | None => st
      end
  | None => st
  end.

(** [k.Total_CO2e = v] *)
Definition set_Total_CO2e (v : number) (k : KPIResult) : KPIResult :=
  {| k_Product := k_Product k;
     k_Category := k_Category k;
     UsePhase_CO2e := UsePhase_CO2e k;
     Total_CO2e := v;
     UsePhase_Share_Pct := UsePhase_Share_Pct k;
     stageBreakdown := stageBreakdown k;
     status := status k |}.

End Store.

(* ===================================================================== *)
(** * The wizard ([src/ui/Wizard.ts] and the handlers of the steps)        *)
(* ===================================================================== *)

Module Wizard.

Import Store.
Local Open Scope string_scope.

(** The titles of [steps]; the view of step [k] is the one on screen when
    [stepIndex] is [k]. *)
Definition steps : list string :=
  ["Intake & Model Setup"; "Completeness & Consistency";
   "KPI Computation & Benchmark"; "Expert Review & Lock";
   "One-Click PPT Export"].

(** What the worker reports to [handleProgress]. *)
Inductive ProgressEvent :=
| EvMeta
| EvSheet (fileName : option string) (sheet : string) (headerRowIndex : nat)
          (headers : list string) (rows : list Row)
| EvError (msg : string)
| EvDone.

(** What can happen to the wizard: a click in the navigation bar, a message
    of the worker, an input to the grid factor, a choice in a select of the
    mapping table, a click on one of the three primary buttons, the busy flag
    set around an upload, and a parse that is rejected. *)
Inductive Event :=
| NavClick (idx : nat)
| Progress (ev : ProgressEvent)
| GridFactorInput (gf : GridFactors)
| SelectChange (key : string) (idx : nat) (value : string)
| ApplyMappingClick
| ComputeClick
| LockClick (now : string)
| Busy (b : bool)
| ParseFailed (msg : string).

Section WithNumberText.
Variable Number_toString : number -> string.

(** [Wizard.ts], lines 37-40: the click listener of the [idx]-th button. *)
Definition canGo (s : WizardState) (idx : nat) : bool :=
  (Z.of_nat idx <=? stepIndex s)%Z.

Definition navClick (idx : nat) (st : Store) : Store :=
  if canGo (state st) idx then set (with_stepIndex (Z.of_nat idx)) st else st.

(** [Step1Intake.ts], [handleProgress], lines 76-98. *)
Definition detected_of (fileName sheet : string) (r : Row) : DetectedProduct :=
  {| product :=
       String_ Number_toString
         (nullish (nullish (prop r "Product") (prop r "product")) (VStr "Unknown"));
     category := Unknown;
     sourceFile := fileName;
     detected_status := Parsed;
     detected_message := None;
     sheet := Some sheet |}.

Definition handleProgress (ev : ProgressEvent) (st : Store) : Store :=
  match ev with
  | EvSheet fn sh hri hs rs =>
      let suggestions := Mapper.suggestMapping hs in
      let fileName := fn ?? "Upload" in
      let key := fileName ++ "::" ++ sh in
      let st1 :=
        setMapping key
          {| sheetName := sh; headerRowIndex := hri; suggestions := suggestions |} st in
      let combined :=
        match obj_get (sheets (state st1)) key with
        | Some existing => (rows existing ++ rs)%list
        | None => rs
        end in
      let st2 := setSheet key {| headers := hs; rows := combined |} st1 in
      let st3 :=
        fold_left (fun acc r => addDetected [detected_of fileName sh r] acc) rs st2 in
      if (stepIndex (state st3) =? 0)%Z then nextStep st3 else st3
  | EvError msg => set (with_error (Some msg)) st
  | EvMeta | EvDone => st
  end.

(** [Step2Validation.ts], lines 61-66: the [change] listener of the select of
    suggestion [idx] of the mapping [key]. *)
Definition with_fromHeader (v : option string) (s : MapSuggestion) : MapSuggestion :=
  {| target := target s; fromHeader := v; confidence := confidence s |}.

Definition selectChange (key : string) (idx : nat) (value : string) (st : Store)
    : Store :=
  match obj_get (mappings (state st)) key with
  | Some m =>
      match suggestions m !! idx with
      | Some sug =>
          let chosen := if String.eqb value "(none)" then None else Some value in
          setMapping key
            {| sheetName := sheetName m;
               headerRowIndex := headerRowIndex m;
               suggestions := <[idx := with_fromHeader chosen sug]> (suggestions m) |}
            st
      | None => st
      end
  | None => st
  end.

(** [Step2Validation.ts], lines 69-90: the click listener of
    "Apply Mapping & Validate". *)
Definition applyMappingClick (st : Store) : Store :=
  let s := state st in
  match map fst (mappings s) with
  | [] => st
  | bufferKey :: _ =>
      if String.eqb bufferKey "" then st
      else
        let rows :=
          match obj_get (sheets s) bufferKey with
          | Some sheet => rows sheet
          | None => []
          end in
        match obj_get (mappings s) bufferKey with
        | Some mapping =>
            let '(records, missing) :=
              Mapper.applyMapping Number_toString rows mapping in
            let dq := Validator.validate records in
            let st1 :=
              set (fun s => with_dataQuality (Some dq) (with_records records s)) st in
            match dq_status dq with
            | red => st1
            | _ => nextStep st1
            end
        | None => st
        end
  end.

(** [Step3KPI.ts], lines 26-32: the click listener of "Compute KPIs".  The
    result of [computeKPIs] is a new array of new entries. *)
Definition computeClick (st : Store) : Store :=
  let s := state st in
  match thresholds_at (heap st) (thresholds s) with
  | Some thr =>
      let ks :=
        Engine.computeKPIs (records s) (gridFactor s) (lifetimeYears s) thr in
      let '(h, a) := alloc_kpis (heap st) ks in
      nextStep (setKPIs a {| heap := h; state := s |})
  | None => st
  end.

(** [Step4Lock], the click listener of "Lock Baseline". *)
Definition lockClick (now : string) (st : Store) : Store :=
  nextStep (lock now st).

(** The [disabled] attribute of the three buttons, as of the last rendering. *)
Definition mapBtn_disabled (st : Store) : bool :=
  match mappings (state st) with [] => true | _ => false end.

Definition computeBtn_disabled (st : Store) : bool :=
  match records (state st) with [] => true | _ => false end.

Definition lockBtn_disabled (st : Store) : bool :=
  match elems_at (heap st) (kpis (state st)) with [] => true | _ => false end.

(** The view of step [k] is mounted. *)
Definition on_step (k : Z) (st : Store) : bool := (stepIndex (state st) =? k)%Z.

(** One event.  A button that is not on screen or is disabled does not
    deliver its click; the navigation bar has one button per step. *)
Definition dispatch (e : Event) (st : Store) : Store :=
  match e with
  | NavClick idx =>
      if (idx <? length steps)%nat then navClick idx st else st
  | Progress ev => handleProgress ev st
  | GridFactorInput gf =>
      if on_step 0 st then setGridFactor gf st else st
  | SelectChange key idx value =>
      if on_step 1 st then selectChange key idx value st else st
  | ApplyMappingClick =>
      if on_step 1 st && negb (mapBtn_disabled st) then applyMappingClick st else st
  | ComputeClick =>
      if on_step 2 st && negb (computeBtn_disabled st) then computeClick st else st
  | LockClick now =>
      if on_step 3 st && negb (lockBtn_disabled st) then lockClick now st else st
  | Busy b => setBusy b st
  | ParseFailed msg => set (with_error (Some msg)) st
  end.

(** The events that fill the error slot: the error message of the worker and
    the rejection of a parse ([Step1Intake.ts], lines 95-97, 104 and 111). *)
Definition reports_error (e : Event) : bool :=
  match e with
  | Progress (EvError _) | ParseFailed _ => true
  | _ => false
  end.

Definition run (es : list Event) (st : Store) : Store :=
  fold_left (fun acc e => dispatch e acc) es st.

(** ** The gates of the stages

    What has to hold for the wizard to leave stage [k] forwards. *)
Definition gate_met (k : Z) (st : Store) : bool :=
  match k with
  | 0%Z => match mappings (state st) with [] => false | _ => true end
  | 1%Z => match dataQuality (state st) with
           | Some dq => match dq_status dq with red => false | _ => true end
           | None => false
           end
  | 2%Z => match live_kpis st with [] => false | _ => true end
  | 3%Z => match lockedSnapshot (state st) with Some _ => true | None => false end
  | _ => false
  end.

End WithNumberText.

End Wizard.

(* ===================================================================== *)
(** * The properties as the specification words them                       *)
(* ===================================================================== *)

Module SpecWords.

Local Open Scope string_scope.

(** KPI engine: "use_kg = use_kWh * factor * life / 1000", "total =
    transport + materials + production + use_kg", "share = total > 0 ?
    use_kg / total * 100 : 0", over the reals. *)
Definition use_kg (use_kWh grid_factor life_years : Q) : Q :=
  use_kWh * grid_factor * life_years / 1000.

Definition total_kg (transport materials production use : Q) : Q :=
  transport + materials + production + use.

Definition share_pct (use total : Q) : Q :=
  match total ?= 0 with
  | Gt => use / total * 100
  | _ => 0
  end.

(** "round to 2 decimal places (half-away-from-zero at the 0.01 boundary)":
    the magnitude is rounded to the nearest hundredth, a tie going up, and
    the sign is put back. *)
Definition round_half_away (q : Q) : Q :=
  match q ?= 0 with
  | Lt => - (inject_Z (Qfloor (- q * 100 + (1 # 2))) / 100)
  | _ => inject_Z (Qfloor (q * 100 + (1 # 2))) / 100
  end.

(** [q] lies exactly half-way between two neighbouring hundredths. *)
Definition is_tie (q : Q) : bool :=
  Qeq_bool (inject_Z (Qfloor (q * 100 + (1 # 2)))) (q * 100 + (1 # 2)).

(** Header detection: "+1 if the cell's lowercased text contains any of the
    fixed keywords as a substring; +0.2 if the cell is non-empty". *)
Definition cell_points (lowercased : string) : Q :=
  (if existsb (fun k => includes lowercased k) Worker.keywordHints then 1 else 0)
  + (if String.eqb lowercased "" then 0 else 0.2).

Fixpoint sum_points (texts : list string) : Q :=
  match texts with
  | [] => 0
  | t :: rest => cell_points t + sum_points rest
  end.

(** Validation: which verdict a required value gets. *)
Definition is_missing (v : option number) : Prop := v = None \/ v = Some NaN.
Definition is_negative (v : option number) : Prop :=
  exists n, v = Some n /\ nlt n (Fin 0) = true.
Definition is_too_large (v : option number) : Prop :=
  exists n, v = Some n /\ ngt n (Fin 10000000) = true.

End SpecWords.

(* ===================================================================== *)
(** * Inputs of the tests of the repository                                *)
(* ===================================================================== *)

Module Fixtures.

Local Open Scope string_scope.

(** [tests/kpi.spec.ts]: the record, the grid factor and the lifetimes. *)
Definition test_record : MappedRecord :=
  {| Product := "X"; Category := Cooking;
     Transport_kgCO2e := Some (Fin 10); Materials_kgCO2e := Some (Fin 20);
     Production_kgCO2e := Some (Fin 30); Use_kWh_per_year := Some (Fin 100);
     Water_L := None; Recycling_Quota_pct := None; Local_Quota_pct := None;
     EU_Label := None |}.

Definition test_grid : GridFactors := {| region := EU27; factor := Some (Fin 0.25) |}.

Definition test_lifetimes : Lifetimes :=
  fun c => match c with Cooking => Some (Fin 10) | _ => None end.

(** The same record with a material footprint of minus one eighth. *)
Definition negative_tie_record : MappedRecord :=
  {| Product := "X"; Category := Cooking;
     Transport_kgCO2e := Some (Fin 10); Materials_kgCO2e := Some (Fin (- (1 # 8)));
     Production_kgCO2e := Some (Fin 30); Use_kWh_per_year := Some (Fin 100);
     Water_L := None; Recycling_Quota_pct := None; Local_Quota_pct := None;
     EU_Label := None |}.

(** The record of the validation test. *)
Definition validation_test_record : MappedRecord :=
  {| Product := "X"; Category := Cooking;
     Transport_kgCO2e := None; Materials_kgCO2e := Some (Fin (-5));
     Production_kgCO2e := Some (Fin 0); Use_kWh_per_year := Some (Fin 100000000);
     Water_L := None; Recycling_Quota_pct := None; Local_Quota_pct := None;
     EU_Label := None |}.

(** Two raw rows, the second one being the header. *)
Definition header_rows_example : list (list JsValue) :=
  [ [VStr "x"; VStr "y"];
    [VStr "Product"; VStr "Transport_kgCO2e"; VStr "Use_kWh_per_year"] ].

(** [tests/mapping.spec.ts]: the headers and the row. *)
Definition mapping_test_headers : list string :=
  ["Product"; "Category"; "Transport kgCO2e"; "Materials kgCO2e";
   "Production kgCO2e"; "kWh per year"].

Definition mapping_test_row : Row :=
  list_to_map
    [ ("Product", VStr "A"); ("Category", VStr "Cooking");
      ("Transport kgCO2e", VStr "1,200"); ("Materials kgCO2e", VStr "50");
      ("Production kgCO2e", VNum (Fin 5)); ("kWh per year", VStr "100") ].

(** A text for numbers, where a closed example needs one. *)
Definition no_text (n : number) : string := "".

(** A sheet whose only row has a negative transport value, and the store
    that captured it. *)
Definition negative_sheet : Wizard.ProgressEvent :=
  Wizard.EvSheet None "Data" 0 ["Product"; "Transport_kgCO2e"]
    [ list_to_map [("Product", VStr "P"); ("Transport_kgCO2e", VNum (Fin (-5)))] ].

Definition captured_store : Store.Store :=
  Wizard.dispatch no_text (Wizard.Progress negative_sheet) (Store.start None).

(** A store whose KPIs were computed from the record of the KPI test. *)
Definition computed_store : Store.Store :=
  Wizard.computeClick (Store.setRecords [test_record] (Store.start None)).

End Fixtures.

(* ===================================================================== *)
(** * Notions used in the statements                                       *)
(* ===================================================================== *)

Module Aux.

Local Open Scope string_scope.
Local Open Scope list_scope.

(** ** Validation *)

Definition issue (row : nat) (f : Validator.ReqField) (sev : Severity) (msg : string)
    : ValidationIssue :=
  {| rowIndex := row; field := Validator.field_name f; severity := sev;
     message := msg |}.

(** The issue, if any, that one required value gets. *)
Definition verdict (v : option number) : option (Severity * string) :=
  match v with
  | None => Some (error, "Missing required value")
  | Some n =>
      if isNaN n then Some (error, "Missing required value")
      else if nlt n (Fin 0) then Some (error, "Negative value")
      else if ngt n (Fin 10000000) then Some (warning, "Suspiciously large")
      else None
  end.

(** The issues of one record, in the order of [req]. *)
Definition issues_of (row : nat) (r : MappedRecord) : list ValidationIssue :=
  f ← Validator.req;
  match verdict (Validator.get r f) with
  | Some (sev, msg) => [issue row f sev msg]
  | None => []
  end.

(** ** Mapping *)

(** The ten canonical fields, in the order of the table. *)
Definition canonicalFields : list string :=
  ["Product"; "Category"; "Transport_kgCO2e"; "Materials_kgCO2e";
   "Production_kgCO2e"; "Use_kWh_per_year"; "Water_L"; "Recycling_Quota_%";
   "Local_Quota_%"; "EU_Label"].

(** The suggestion for one entry of the table. *)
Definition suggestion_of (norm : list (string * string)) (entry : string * list string)
    : MapSuggestion :=
  let best :=
    fold_left (Mapper.consider (Mapper.synonyms_of entry)) norm
              {| Mapper.from := None; Mapper.score := Fin 0 |} in
  {| target := fst entry;
     fromHeader := Mapper.from best;
     confidence := Math_min (Fin 1) (Mapper.score best) |}.

(** ** Header detection *)

Section WithNumberText.
Variable Number_toString : number -> string.

(** The lowercased text of a cell. *)
Definition cell_text (cell : JsValue) : string :=
  toLowerCase (String_ Number_toString (nullish cell (VStr ""))).

(** The points of a row as the specification counts them. *)
Definition points (r : list JsValue) : Q := SpecWords.sum_points (map cell_text r).

(** The score of a row, a finite number, as a rational. *)
Definition score_q (r : list JsValue) : Q :=
  match Worker.row_score Number_toString r with Fin q => q | _ => 0 end.

End WithNumberText.

(** [b] is a value [bestScore] can have: minus infinity or a finite score. *)
Definition is_best (b : number) : Prop := b = Inf true \/ exists q, b = Fin q.

(** ** The wizard *)

(** The references of the state to the live list denote objects of the heap. *)
Definition wf_store (st : Store.Store) : Prop :=
  (kpis (Store.state st) < length (Store.heap st))%nat /\
  Forall (fun l => (l < length (Store.heap st))%nat)
         (elems_at (Store.heap st) (kpis (Store.state st))).

(** A step of a handler that keeps the gates that are met. *)
Definition keeps_gates (t : Store.Store -> Store.Store) : Prop :=
  forall st,
    wf_store st ->
    wf_store (t st) /\
    (forall k, Wizard.gate_met k st = true -> Wizard.gate_met k (t st) = true).

(** A mutator that assigns fields other than the reference to the live list
    and the data quality, and neither drops a snapshot nor empties the
    mappings. *)
Definition harmless (f : WizardState -> WizardState) : Prop :=
  forall s,
    kpis (f s) = kpis s /\
    (is_Some (lockedSnapshot s) -> is_Some (lockedSnapshot (f s))) /\
    dataQuality (f s) = dataQuality s /\
    (mappings s <> [] -> mappings (f s) <> []).

(** The invariant of a session that starts afresh: the step index is one of
    the five steps and every stage before it has its gate met. *)
Definition gated (st : Store.Store) : Prop :=
  wf_store st /\
  (0 <= stepIndex (Store.state st) <= 4)%Z /\
  forall k : Z,
    (0 <= k < stepIndex (Store.state st))%Z -> Wizard.gate_met k st = true.

End Aux.

(* ===================================================================== *)
(** * The ingestion worker: parsing into messages                          *)
(* ===================================================================== *)

(** The rest of the worker that follows [validate] in
    [src/validation/validator.ts] (lines 47-102), and the promise of
    [parseFile] and [parseDummy].  What the spreadsheet library returns, or
    the message of what it throws, is an input of the embedding. *)

Module Ingestion.

Local Open Scope string_scope.
Local Open Scope list_scope.

(** [OutMsg] *)
Inductive OutMsg :=
| MsgMeta (name : string) (sheetNames : list string)
| MsgSheet (fileName : option string) (sheet : string) (headerRowIndex : nat)
           (headers : list string) (rows : list Row)
| MsgError (error : string)
| MsgDone.

Definition chunkSize : nat := 1000.

(** [r[idx]]: a cell the row does not have reads as [undefined]. *)
Definition cell_at (r : list JsValue) (idx : nat) : JsValue := r !! idx ?? VUndefined.

(** [Object.fromEntries(entries)]: a later entry replaces an earlier one with
    the same key. *)
Definition fromEntries (entries : list (string * JsValue)) : Row :=
  fold_left (fun o e => <[e.1 := e.2]> o) entries ∅.

(** [Object.fromEntries(headers.map((h, idx) => [h, r[idx]]))] *)
Definition row_object (headers : list string) (r : list JsValue) : Row :=
  fromEntries (imap (fun idx h => (h, cell_at r idx)) headers).

(** [for (let i = 0; i < rows.length; i += chunkSize) rows.slice(i, i + chunkSize)],
    from [i] on; the loop runs at most [fuel] times. *)
Fixpoint chunk_loop {A} (fuel i : nat) (rows : list A) : list (list A) :=
  match fuel with
  | O => []
  | S fuel' =>
      if (i <? length rows)%nat
      then take chunkSize (drop i rows) :: chunk_loop fuel' (i + chunkSize) rows
      else []
  end.

(** The loop ends within [rows.length] rounds. *)
Definition chunks {A} (rows : list A) : list (list A) :=
  chunk_loop (length rows) 0 rows.

(** A workbook as the library decodes it: the names of its sheets and, for a
    sheet, its rows of cells or the message of the exception thrown. *)
Record Workbook := {
  SheetNames : list string;
  sheet_rows : string -> string + list (list JsValue)
}.

Section WithNumberText.
Variable Number_toString : number -> string.

(** Lines 55-63, the messages for one sheet. *)
Definition sheet_messages (fileName s : string) (aoa : list (list JsValue))
    : list OutMsg :=
  let headerRowIndex := Worker.autoDetectHeaderRow Number_toString aoa in
  let headers :=
    map (fun h => String_ Number_toString (nullish h (VStr "")))
        (aoa !! headerRowIndex ?? []) in
  let rows := drop (headerRowIndex + 1) aoa in
  map (fun slice =>
         MsgSheet (Some fileName) s headerRowIndex headers
                  (map (row_object headers) slice))
      (chunks rows).

(** Lines 53-65: the loop over the sheets, left by an exception. *)
Fixpoint parse_sheets (fileName : string) (wb : Workbook) (names : list string)
    : list OutMsg :=
  match names with
  | [] => [MsgDone]
  | s :: rest =>
      match sheet_rows wb s with
      | inl e => [MsgError e]
      | inr aoa => sheet_messages fileName s aoa ++ parse_sheets fileName wb rest
      end
  end.

(** [handleParse], lines 49-69: the messages posted, in order.  [read] is the
    outcome of [XLSX.read]. *)
Definition handleParse (read : string + Workbook) (fileName : string) : list OutMsg :=
  match read with
  | inl e => [MsgError e]
  | inr wb => MsgMeta fileName (SheetNames wb) :: parse_sheets fileName wb (SheetNames wb)
  end.

End WithNumberText.

(** [makeDummy], lines 71-79. *)
Definition dummy_headers : list string :=
  ["Product"; "Category"; "Transport_kgCO2e"; "Materials_kgCO2e";
   "Production_kgCO2e"; "Use_kWh_per_year"; "Water_L"; "Recycling_Quota_%";
   "Local_Quota_%"; "EU_Label"].

Definition dummy_row (p c : string) (t m pr u w rq lq : Z) (label : string)
    : list JsValue :=
  [VStr p; VStr c; VNum (Fin (inject_Z t)); VNum (Fin (inject_Z m));
   VNum (Fin (inject_Z pr)); VNum (Fin (inject_Z u)); VNum (Fin (inject_Z w));
   VNum (Fin (inject_Z rq)); VNum (Fin (inject_Z lq)); VStr label].

Definition dummy_data : list (list JsValue) :=
  [ dummy_row "Cooker A" "Cooking" 50 180 120 150 200 30 40 "A++";
    dummy_row "Fridge B" "Cooling" 70 220 150 200 150 25 20 "A+";
    dummy_row "Washer C" "Washing" 40 160 100 180 300 35 60 "A" ].

Definition makeDummy_rows : list (list JsValue) := map VStr dummy_headers :: dummy_data.

(** [handleParseDummy], lines 81-96. *)
Definition handleParseDummy (name : string) : list OutMsg :=
  [ MsgMeta name ["Data"];
    MsgSheet None "Data" 0 dummy_headers (map (row_object dummy_headers) dummy_data);
    MsgDone ].

(** ** The parser ([parseFile], [parseDummy])

    Every message of the worker goes to [onProgress] as it is; the promise is
    settled by the first [meta] or [error] message. *)
Definition progress_of (m : OutMsg) : Wizard.ProgressEvent :=
  match m with
  | MsgMeta _ _ => Wizard.EvMeta
  | MsgSheet fn s hri hs rs => Wizard.EvSheet fn s hri hs rs
  | MsgError e => Wizard.EvError e
  | MsgDone => Wizard.EvDone
  end.

Inductive Settled :=
| Pending
| Resolved (meta : RawFileMeta)
| Rejected (reason : string).

(** [worker.onmessage] on the promise: a settled promise stays as it is. *)
Definition settle_step (from_upload : bool) (p : Settled) (m : OutMsg) : Settled :=
  match p with
  | Pending =>
      match m with
      | MsgMeta name names =>
          Resolved {| file_name := name; from_upload := from_upload;
                      sheetNames := names |}
      | MsgError e => Rejected e
      | _ => Pending
      end
  | _ => p
  end.

Definition settle (from_upload : bool) (msgs : list OutMsg) : Settled :=
  fold_left (settle_step from_upload) msgs Pending.

(** The calls of [handleProgress] that the messages of one parse make. *)
Definition deliver (Number_toString : number -> string) (msgs : list OutMsg)
    (st : Store.Store) : Store.Store :=
  fold_left (fun acc m => Wizard.handleProgress Number_toString (progress_of m) acc)
            msgs st.

End Ingestion.

(* ===================================================================== *)
(** * CSV export ([src/export/csv.ts]) and the export step                 *)
(* ===================================================================== *)

Module Csv.

Local Open Scope string_scope.
Local Open Scope list_scope.

Definition dquote : ascii := ascii_of_nat 34.
Definition LF : ascii := ascii_of_nat 10.
Definition CR : ascii := ascii_of_nat 13.

(** The character class of line 6: a double quote, a comma or a line feed. *)
Definition is_special (c : ascii) : bool :=
  Ascii.eqb c dquote || Ascii.eqb c "," || Ascii.eqb c LF.

Fixpoint has_special (s : string) : bool :=
  match s with
  | EmptyString => false
  | String c s' => is_special c || has_special s'
  end.

(** The replacement of line 7: every double quote is written twice. *)
Fixpoint double_quotes (s : string) : string :=
  match s with
  | EmptyString => EmptyString
  | String c s' =>
      if Ascii.eqb c dquote then String dquote (String dquote (double_quotes s'))
      else String c (double_quotes s')
  end.

(** [parts.join(sep)] on strings *)
Fixpoint join (sep : string) (parts : list string) : string :=
  match parts with
  | [] => ""
  | [p] => p
  | p :: rest => p ++ sep ++ join sep rest
  end.

Definition CRLF : string := String CR (String LF EmptyString).

Definition csv_header : list string :=
  ["Product"; "Category"; "Transport_kgCO2e"; "Materials_kgCO2e";
   "Production_kgCO2e"; "Use_CO2e"; "Total_CO2e"; "Use_Share_%"].

(** The text of a category. *)
Definition category_text (c : ProductCategory) : string :=
  match c with
  | Cooking => "Cooking"
  | Cooling => "Cooling"
  | Washing => "Washing"
  | Unknown => "Unknown"
  end.

(** Line 15, the cells of one KPI. *)
Definition kpi_row (k : KPIResult) : list JsValue :=
  [ VStr (k_Product k); VStr (category_text (k_Category k));
    VNum (sb_Transport (stageBreakdown k)); VNum (sb_Materials (stageBreakdown k));
    VNum (sb_Production (stageBreakdown k)); VNum (sb_Use (stageBreakdown k));
    VNum (Total_CO2e k); VNum (UsePhase_Share_Pct k) ].

Section WithNumberText.
Variable Number_toString : number -> string.

(** [esc], lines 4-9. *)
Definition esc (v : JsValue) : string :=
  let s := match v with
           | VNull | VUndefined => ""
           | _ => String_ Number_toString v
           end in
  if has_special s
  then String dquote (double_quotes s ++ String dquote EmptyString)
  else s.

(** [toCSV], line 10. *)
Definition toCSV (rows : list (list JsValue)) : string :=
  join CRLF (map (fun r => join "," (map esc r)) rows).

(** The text that [downloadCSVFromKPIs] puts into the file, lines 14-16. *)
Definition csv_of_kpis (kpis : list KPIResult) : string :=
  toCSV (map VStr csv_header :: map kpi_row kpis).

(** [Step5Export.ts]: the two buttons are disabled without a snapshot; the
    click on "Download CSV" exports the KPI list of the snapshot. *)
Definition exportBtn_disabled (st : Store.Store) : bool :=
  match lockedSnapshot (Store.state st) with Some _ => false | None => true end.

Definition csvClick (st : Store.Store) : option string :=
  csv_of_kpis <$> Store.snapshot_kpis st.

End WithNumberText.

End Csv.

(* ===================================================================== *)
(** * The store: listeners and the remaining operations                    *)
(* ===================================================================== *)

Module StoreMore.

Import Store.
Local Open Scope list_scope.

Definition with_files (v : list RawFileMeta) (s : WizardState) : WizardState :=
  {| stepIndex := stepIndex s; files := v; detected := detected s;
     mappings := mappings s; sheets := sheets s; records := records s;
     dataQuality := dataQuality s; gridFactor := gridFactor s;
     lifetimeYears := lifetimeYears s; thresholds := thresholds s;
     kpis := kpis s; lockedSnapshot := lockedSnapshot s; busy := busy s;
     current_error := current_error s |}.

(** [addFile(meta)] *)
Definition addFile (meta : RawFileMeta) : Store -> Store :=
  update (assign (fun s => with_files (files s ++ [meta]) s)).

(** A listener, known by its identity. *)
Abbreviation Listener := nat.

(** [listeners.indexOf(fn)] *)
Fixpoint indexOf (fn : Listener) (listeners : list Listener) : option nat :=
  match listeners with
  | [] => None
  | l :: rest => if Nat.eqb l fn then Some O else S <$> indexOf fn rest
  end.

(** [subscribe(fn)], lines 43-49: the new list of listeners. *)
Definition subscribe (fn : Listener) (listeners : list Listener) : list Listener :=
  listeners ++ [fn].

(** The function that [subscribe(fn)] returns, when called. *)
Definition unsubscribe (fn : Listener) (listeners : list Listener) : list Listener :=
  match indexOf fn listeners with
  | Some i => delete i listeners
  | None => listeners
  end.

End StoreMore.

(* ===================================================================== *)
(** * Notions used in the statements about the store and the wizard        *)
(* ===================================================================== *)

Module Reading.

Import Store.
Local Open Scope list_scope.

(** The references of a state denote objects of the types that
    [src/state/types.ts] gives them: [a] an array of KPI results, [t] a
    thresholds object. *)
Definition array_ok (h : Heap) (a : loc) : Prop :=
  exists ls, h !! a = Some (ArrObj ls) /\ Forall (fun l => is_Some (kpi_at h l)) ls.

Definition thresholds_ok (h : Heap) (t : loc) : Prop := is_Some (thresholds_at h t).

Definition typed (h : Heap) (s : WizardState) : Prop :=
  array_ok h (kpis s) /\ thresholds_ok h (thresholds s) /\
  match lockedSnapshot s with
  | Some snap => array_ok h (snap_kpis snap) /\ thresholds_ok h (snap_thresholds snap)
  | None => True
  end.

Definition refs_ok (st : Store) : Prop := typed (heap st) (state st).

(** What a snapshot holds, read through its references. *)
Record SnapshotReading := {
  read_at : string;
  read_kpi_list : list KPIResult;
  read_totals : Totals;
  read_thresholds : option Thresholds
}.

Definition read_snapshot (h : Heap) (snap : Snapshot) : SnapshotReading :=
  {| read_at := taken_at snap;
     read_kpi_list := read_kpis h (snap_kpis snap);
     read_totals := totals snap;
     read_thresholds := thresholds_at h (snap_thresholds snap) |}.

(** What a reader of [store.get()] finds behind the references of a state [s]
    in the heap [h]: the live KPI list, the live thresholds, the snapshot. *)
Definition read_state (h : Heap) (s : WizardState)
    : list KPIResult * option Thresholds * option SnapshotReading :=
  (read_kpis h (kpis s), thresholds_at h (thresholds s),
   read_snapshot h <$> lockedSnapshot s).

Definition reading (st : Store) := read_state (heap st) (state st).

(** The state without its references: the fields that are plain values. *)
Definition values (s : WizardState) : WizardState :=
  with_lockedSnapshot None (with_kpis O (with_thresholds O s)).

(** A patch or mutator that leaves the three references as they are. *)
Definition keeps_refs (f : WizardState -> WizardState) : Prop :=
  forall s,
    kpis (f s) = kpis s /\ thresholds (f s) = thresholds s /\
    lockedSnapshot (f s) = lockedSnapshot s.

End Reading.

(* ===================================================================== *)
(** * Notions used in the further statements                           *)
(* ===================================================================== *)

Module Plausible.

(** An input that is absent or a finite number that is not negative. *)
Definition absent_or_nonneg (o : option number) : Prop :=
  match o with
  | None => True
  | Some (Fin q) => 0 <= q
  | Some _ => False
  end.

(** The inputs of the engine for a record are absent or finite and not
    negative. *)
Definition plausible (grid : GridFactors) (lifetimeYears : Lifetimes)
    (r : MappedRecord) : Prop :=
  absent_or_nonneg (Transport_kgCO2e r) /\
  absent_or_nonneg (Materials_kgCO2e r) /\
  absent_or_nonneg (Production_kgCO2e r) /\
  absent_or_nonneg (Use_kWh_per_year r) /\
  absent_or_nonneg (factor grid) /\
  absent_or_nonneg (lifetimeYears (Category r)).

(** The numbers of a KPI result are finite and not negative, no stage exceeds
    the total, and the share lies between 0 and 100. *)
Definition within_bounds (k : KPIResult) : Prop :=
  exists t m p u tot s : Q,
    sb_Transport (stageBreakdown k) = Fin t /\
    sb_Materials (stageBreakdown k) = Fin m /\
    sb_Production (stageBreakdown k) = Fin p /\
    sb_Use (stageBreakdown k) = Fin u /\
    UsePhase_CO2e k = Fin u /\
    Total_CO2e k = Fin tot /\
    UsePhase_Share_Pct k = Fin s /\
    0 <= t <= tot /\ 0 <= m <= tot /\ 0 <= p <= tot /\ 0 <= u <= tot /\
    0 <= s <= 100.

End Plausible.

Module Quality.

(** The issue [i] of a list that starts [d] rows further down. *)
Definition shift_row (d : nat) (i : ValidationIssue) : ValidationIssue :=
  {| rowIndex := (d + rowIndex i)%nat; field := field i; severity := severity i;
     message := message i |}.

(** The worse of two statuses. *)
Definition worse (a b : Light) : Light :=
  match a, b with
  | red, _ | _, red => red
  | amber, _ | _, amber => amber
  | green, green => green
  end.

(** A required value that gets no issue: a finite number from 0 to 1e7. *)
Definition acceptable (v : option number) : Prop :=
  exists q : Q, v = Some (Fin q) /\ 0 <= q <= 10000000.

(** A required value that gets an error: null, NaN or below 0. *)
Definition unusable (v : option number) : Prop :=
  v = None \/ v = Some NaN \/ v = Some (Inf true) \/
  exists q : Q, v = Some (Fin q) /\ q < 0.

End Quality.

Module MapNotions.

Local Open Scope string_scope.

(** [s.fromHeader || undefined]: the header an entry of [fieldFrom] holds. *)
Definition header_of (s : MapSuggestion) : option string :=
  match fromHeader s with
  | Some h => if String.eqb h "" then None else Some h
  | None => None
  end.

(** The mapping [m] with the suggestions [l]. *)
Definition with_suggestions (m : MappingForSheet) (l : list MapSuggestion) :=
  {| sheetName := sheetName m; headerRowIndex := headerRowIndex m; suggestions := l |}.

End MapNotions.

Module NumNotions.

Local Open Scope string_scope.

(** How many commas and dots a text has. *)
Fixpoint separators (s : string) : nat :=
  match s with
  | EmptyString => O
  | String c s' =>
      ((if Ascii.eqb c "," || Ascii.eqb c "." then 1 else 0) + separators s')%nat
  end.

(** How many dots. *)
Fixpoint dots (s : string) : nat :=
  match s with
  | EmptyString => O
  | String c s' => ((if Ascii.eqb c "." then 1 else 0) + dots s')%nat
  end.

End NumNotions.

Module IngNotions.

Import Ingestion.

(** The rows a message carries. *)
Definition rows_of (m : OutMsg) : list Row :=
  match m with MsgSheet _ _ _ _ rs => rs | _ => [] end.

(** A sheet message of the file [fileName] for one of the sheets [names],
    with at least one row and at most [chunkSize] rows. *)
Definition is_chunk (fileName : string) (names : list string) (m : OutMsg) : Prop :=
  match m with
  | MsgSheet fn s _ _ rs =>
      fn = Some fileName /\ s ∈ names /\ rs <> [] /\ (length rs <= chunkSize)%nat
  | _ => False
  end.

(** The last message of a parse. *)
Definition is_terminal (m : OutMsg) : Prop :=
  m = MsgDone \/ exists e, m = MsgError e.

End IngNotions.

Module Effects.

Import Store Reading.
Local Open Scope string_scope.
Local Open Scope list_scope.

(** What a snapshot of the store reads, if there is one. *)
Definition snapshot_reading (st : Store) : option Reading.SnapshotReading :=
  Reading.read_snapshot (heap st) <$> lockedSnapshot (state st).

(** A click on "Lock Baseline". *)
Definition is_lock (e : Wizard.Event) : bool :=
  match e with Wizard.LockClick _ => true | _ => false end.

Section WithNumberText.
Variable Number_toString : number -> string.

(** The key under which a sheet of a file is kept. *)
Definition sheet_key (fn : option string) (sh : string) : string :=
  (fn ?? "Upload") ++ "::" ++ sh.

(** The fields of the state after a sheet message, as [handleProgress]
    assigns them. *)
Definition captured (fn : option string) (sh : string) (hri : nat)
    (hs : list string) (rs : list Row) (s : WizardState) : WizardState :=
  let key := sheet_key fn sh in
  let combined :=
    match obj_get (sheets s) key with
    | Some existing => rows existing ++ rs
    | None => rs
    end in
  with_stepIndex (if (stepIndex s =? 0)%Z then 1%Z else stepIndex s)
    (with_detected
       (detected s ++ map (Wizard.detected_of Number_toString (fn ?? "Upload") sh) rs)
       (with_sheets (obj_set (sheets s) key {| headers := hs; rows := combined |})
          (with_mappings
             (obj_set (mappings s) key
                {| sheetName := sh; headerRowIndex := hri;
                   suggestions := Mapper.suggestMapping hs |}) s))).

End WithNumberText.

(** A mutator that reads and writes plain fields only. *)
Definition plain (f : WizardState -> WizardState) : Prop :=
  keeps_refs f /\ forall s s', values s = values s' -> values (f s) = values (f s').

(** A step of a handler that keeps the references typed and what they read,
    and whose plain fields are those of [f]. *)
Definition acts_as (t : Store -> Store) (f : WizardState -> WizardState) : Prop :=
  forall st, refs_ok st ->
    refs_ok (t st) /\ reading (t st) = reading st /\
    values (state (t st)) = values (f (state st)).

(** What no event of the wizard changes, and the error slot, which no event
    empties. *)
Definition settled (st st' : Store) : Prop :=
  files (state st') = files (state st) /\
  lifetimeYears (state st') = lifetimeYears (state st) /\
  thresholds_at (heap st') (thresholds (state st'))
  = thresholds_at (heap st) (thresholds (state st)) /\
  (is_Some (current_error (state st)) -> is_Some (current_error (state st'))).

(** A persisted part whose numbers are finite comes back from its JSON text
    as it was. *)
Definition absent_or_finite (o : option number) : bool :=
  match o with Some n => isFinite n | None => true end.

Definition storable (p : Persisted) : bool :=
  absent_or_finite (factor (p_gridFactor p)) &&
  forallb (fun c => absent_or_finite (p_lifetimeYears p c))
          [Cooking; Cooling; Washing; Unknown] &&
  isFinite (usePhasePercentRed (p_thresholds p)) &&
  isFinite (materialsKgRed (p_thresholds p)) &&
  isFinite (productionKgGreen (p_thresholds p)).

End Effects.

(** A reader of comma-separated text: fields are separated by commas and rows
    by CR LF; a field that starts with a double quote runs to the closing
    double quote, a doubled double quote inside it standing for one. *)
Module CsvReader.

Import Csv.
Local Open Scope string_scope.
Local Open Scope list_scope.

Inductive Mode := Start | Plain | Quoted | AfterQuote.

(** The character [c] in front of the field being read. *)
Definition push (c : ascii) (t : list (list string)) : list (list string) :=
  match t with
  | (f :: fs) :: rs => (String c f :: fs) :: rs
  | [] :: rs => [String c ""] :: rs
  | [] => [[String c ""]]
  end.

Definition new_field (t : list (list string)) : list (list string) :=
  match t with
  | r :: rs => ("" :: r) :: rs
  | [] => [[""]]
  end.

Definition new_row (t : list (list string)) : list (list string) := [""] :: t.

Fixpoint scan (mode : Mode) (s : string) : list (list string) :=
  match s with
  | "" => [[""]]
  | String c s' =>
      match mode with
      | Quoted =>
          if Ascii.eqb c dquote then scan AfterQuote s' else push c (scan Quoted s')
      | _ =>
          if Ascii.eqb c dquote then
            match mode with
            | Start => scan Quoted s'
            | AfterQuote => push c (scan Quoted s')
            | _ => push c (scan Plain s')
            end
          else if Ascii.eqb c "," then new_field (scan Start s')
          else if Ascii.eqb c CR then
            match s' with
            | String d s'' =>
                if Ascii.eqb d LF then new_row (scan Start s'')
                else push c (scan Plain s')
            | "" => push c (scan Plain s')
            end
          else push c (scan Plain s')
      end
  end.

Definition read (s : string) : list (list string) := scan Start s.

Local Open Scope string_scope.

(** What may follow a field: the end of the text, a comma, or CR LF. *)
Definition follows (t : string) : Prop :=
  t = "" \/ (exists t', t = String "," t') \/ (exists t', t = CRLF ++ t').

(** The text a field followed by [t] is read from. *)
Definition put (f : string) (t : list (list string)) : list (list string) :=
  match t with
  | (x :: fs) :: rs => ((f ++ x) :: fs) :: rs
  | _ => t
  end.

Section WithNumberText.
Variable Number_toString : number -> string.

(** [esc] on a text. *)
Definition esc_text (s : string) : string := esc Number_toString (VStr s).

(** The text [esc] writes for a cell. *)
Definition written (v : JsValue) : string :=
  match v with
  | VNull | VUndefined => ""
  | _ => String_ Number_toString v
  end.

End WithNumberText.

End CsvReader.

(** ** Proof steps that recur *)

(** The fields of a state built by field assignments. *)
Ltac fields :=
  cbn [stepIndex files detected mappings sheets records dataQuality gridFactor
       lifetimeYears thresholds kpis lockedSnapshot busy current_error
       Store.with_stepIndex StoreMore.with_files Store.with_detected
       Store.with_mappings Store.with_sheets Store.with_records
       Store.with_dataQuality Store.with_gridFactor Store.with_lifetimeYears
       Store.with_thresholds Store.with_kpis Store.with_lockedSnapshot
       Store.with_busy Store.with_error] in *.

(** A field assignment is plain; [fields_of] and [intro] are the lemmas that
    take a state apart and put it together. *)
Ltac plain_tac fields_of intro :=
  split; [intros s; repeat split|];
  intros s s' H;
  destruct (fields_of _ _ H)
    as (H1 & H2 & H3 & H4 & H5 & H6 & H7 & H8 & H9 & H10 & H11);
  apply intro; fields; congruence.

Ltac keeps := intros s; repeat split.

(* ===================================================================== *)
(** * Facts about numbers                                                  *)
(* ===================================================================== *)

Section NumberFacts.

Lemma num_eq_refl a : a ≈ a.
Proof. destruct a; simpl; auto. reflexivity. Qed.

Lemma num_eq_sym a b : a ≈ b -> b ≈ a.
Proof. destruct a, b; simpl; auto. intros H; symmetry; exact H. Qed.

Lemma num_eq_trans a b c : a ≈ b -> b ≈ c -> a ≈ c.
Proof.
  destruct a, b, c; simpl; try tauto; try congruence.
  intros H1 H2. rewrite H1. exact H2.
Qed.

Lemma ngt_Fin x y : ngt (Fin x) (Fin y) = true <-> y < x.
Proof.
  unfold ngt; simpl. rewrite Qgt_alt. destruct (x ?= y); split; congruence.
Qed.

Lemma nlt_Fin x y : nlt (Fin x) (Fin y) = true <-> x < y.
Proof.
  unfold nlt; simpl. rewrite Qlt_alt. destruct (x ?= y); split; congruence.
Qed.

Lemma nle_Fin x y : nle (Fin x) (Fin y) = true <-> x <= y.
Proof.
  unfold nle; simpl. rewrite Qle_alt.
  destruct (x ?= y); split; congruence.
Qed.

Lemma nge_Fin x y : nge (Fin x) (Fin y) = true <-> y <= x.
Proof.
  unfold nge; simpl. rewrite Qge_alt.
  destruct (x ?= y); split; congruence.
Qed.

(** When [a >= b] fails although [a] compares with a multiple of [b], then
    [a < b]. *)
Lemma not_nge_nlt a b c :
  nge a b = false -> nge a (nmul b (Fin c)) = true -> nlt a b = true.
Proof.
  destruct a as [|[]|x], b as [|[]|y]; unfold nge, nlt; simpl; intros H1 H2;
    try discriminate; try reflexivity;
    try (destruct (Qzero c); simpl in *; discriminate);
    try (destruct (Qneg c); simpl in *; discriminate).
  destruct (x ?= y); congruence.
Qed.

Lemma not_nle_ngt a b c :
  nle a b = false -> nle a (nmul b (Fin c)) = true -> nlt b a = true.
Proof.
  destruct a as [|[]|x], b as [|[]|y]; unfold nle, nlt; simpl; intros H1 H2;
    try discriminate; try reflexivity;
    try (destruct (Qzero c); simpl in *; discriminate);
    try (destruct (Qneg c); simpl in *; discriminate).
  rewrite <- (Qcompare_antisym x y). destruct (x ?= y); simpl; congruence.
Qed.

Lemma nlt_not_nge a b : nlt a b = true -> nge a b = false.
Proof. unfold nlt, nge. destruct (ncompare a b) as [[]|]; congruence. Qed.

Lemma nlt_not_nle a b : nlt b a = true -> nle a b = false.
Proof.
  destruct a as [|[]|x], b as [|[]|y]; unfold nle, nlt; simpl; try congruence.
  rewrite <- (Qcompare_antisym x y). destruct (x ?= y); simpl; congruence.
Qed.

(** The floor is the integer [n] with [n <= x < n + 1]. *)
Lemma Qfloor_unique (x : Q) (n : Z) :
  inject_Z n <= x -> x < inject_Z (n + 1) -> Qfloor x = n.
Proof.
  intros Hlo Hhi.
  pose proof (Qfloor_le x) as Fl. pose proof (Qlt_floor x) as Fh.
  assert (inject_Z n < inject_Z (Qfloor x + 1)) as A by (eapply Qle_lt_trans; eauto).
  assert (inject_Z (Qfloor x) < inject_Z (n + 1)) as B by (eapply Qle_lt_trans; eauto).
  rewrite <- Zlt_Qlt in A, B. lia.
Qed.

End NumberFacts.

(* ===================================================================== *)
(** * The KPI engine                                                       *)
(* ===================================================================== *)

Section EngineFacts.

Import Engine Fixtures.

Lemma share_Fin (u t : Q) :
  (if ngt (Fin t) (Fin 0) then nmul (ndiv (Fin u) (Fin t)) (Fin 100) else Fin 0)
  = Fin (SpecWords.share_pct u t).
Proof.
  unfold SpecWords.share_pct, ngt; simpl.
  destruct (t ?= 0) eqn:E; try reflexivity.
  assert (Qzero t = false) as ->; [|reflexivity].
  apply Qgt_alt in E. unfold Qzero, Qlt in *. simpl in E.
  apply Z.eqb_neq. lia.
Qed.



(** A light that is worse for larger values. *)
Lemma higher_is_worse (a X : number) (c : Q) :
  let l := if nge a X then red else if nge a (nmul X (Fin c)) then amber else green in
  (l = red <-> nge a X = true) /\
  (l = amber <-> nlt a X = true /\ nge a (nmul X (Fin c)) = true) /\
  (l = green <-> nge a X = false /\ nge a (nmul X (Fin c)) = false).
Proof.
  cbv zeta.
  destruct (nge a X) eqn:E1; [|destruct (nge a (nmul X (Fin c))) eqn:E2].
  - repeat split; try congruence.
    + intros [H _]. apply nlt_not_nge in H. congruence.
    + intros [? _]; congruence.
  - repeat split; try congruence.
    + eapply not_nge_nlt; eassumption.
    + intros [_ ?]; congruence.
  - repeat split; try congruence.
    intros [_ ?]; congruence.
Qed.

(** A light that is better for smaller values. *)
Lemma lower_is_better (a Z : number) (c : Q) :
  let l := if nle a Z then green else if nle a (nmul Z (Fin c)) then amber else red in
  (l = green <-> nle a Z = true) /\
  (l = amber <-> nlt Z a = true /\ nle a (nmul Z (Fin c)) = true) /\
  (l = red <-> nle a Z = false /\ nle a (nmul Z (Fin c)) = false).
Proof.
  cbv zeta.
  destruct (nle a Z) eqn:E1; [|destruct (nle a (nmul Z (Fin c))) eqn:E2].
  - repeat split; try congruence.
    + intros [H _]. apply nlt_not_nle in H. congruence.
    + intros [? _]; congruence.
  - repeat split; try congruence.
    + eapply not_nle_ngt; eassumption.
    + intros [_ ?]; congruence.
  - repeat split; try congruence.
    intros [_ ?]; congruence.
Qed.


(** The two kinds of light on finite values, in the order of the rationals. *)
Lemma higher_is_worse_finite (a x c : Q) :
  let l := if nge (Fin a) (Fin x) then red
           else if nge (Fin a) (nmul (Fin x) (Fin c)) then amber else green in
  (l = red <-> x <= a) /\
  (l = amber <-> a < x /\ x * c <= a) /\
  (l = green <-> a < x /\ a < x * c).
Proof.
  destruct (higher_is_worse (Fin a) (Fin x) c) as (R & A & G). cbv zeta in *.
  cbn [nmul] in *. split; [|split].
  - rewrite R. apply nge_Fin.
  - rewrite A, nlt_Fin, nge_Fin. reflexivity.
  - rewrite G. split.
    + intros [H1 H2]. split.
      * destruct (Qlt_le_dec a x) as [?|C]; [assumption|].
        apply nge_Fin in C. congruence.
      * destruct (Qlt_le_dec a (x * c)) as [?|C]; [assumption|].
        apply nge_Fin in C. congruence.
    + intros [H1 H2]. split.
      * destruct (nge (Fin a) (Fin x)) eqn:E; [|reflexivity].
        apply nge_Fin in E. lra.
      * destruct (nge (Fin a) (Fin (x * c))) eqn:E; [|reflexivity].
        apply nge_Fin in E. lra.
Qed.

Lemma lower_is_better_finite (a z c : Q) :
  let l := if nle (Fin a) (Fin z) then green
           else if nle (Fin a) (nmul (Fin z) (Fin c)) then amber else red in
  (l = green <-> a <= z) /\
  (l = amber <-> z < a /\ a <= z * c) /\
  (l = red <-> z < a /\ z * c < a).
Proof.
  destruct (lower_is_better (Fin a) (Fin z) c) as (G & A & R). cbv zeta in *.
  cbn [nmul] in *. split; [|split].
  - rewrite G. apply nle_Fin.
  - rewrite A, nlt_Fin, nle_Fin. reflexivity.
  - rewrite R. split.
    + intros [H1 H2]. split.
      * destruct (Qlt_le_dec z a) as [?|C]; [assumption|].
        apply nle_Fin in C. congruence.
      * destruct (Qlt_le_dec (z * c) a) as [?|C]; [assumption|].
        apply nle_Fin in C. congruence.
    + intros [H1 H2]. split.
      * destruct (nle (Fin a) (Fin z)) eqn:E; [|reflexivity].
        apply nle_Fin in E. lra.
      * destruct (nle (Fin a) (Fin (z * c))) eqn:E; [|reflexivity].
        apply nle_Fin in E. lra.
Qed.

(** C10. [computeKPIs] returns one result per record, in the order of the
    records: the [i]-th result is the one computed from the [i]-th record and
    carries its [Product] and [Category]. *)
Theorem computeKPIs_pointwise (records : list MappedRecord) (grid : GridFactors)
    (lifetimeYears : Lifetimes) (thresholds : Thresholds) :
  length (computeKPIs records grid lifetimeYears thresholds) = length records /\
  (forall i : nat,
      computeKPIs records grid lifetimeYears thresholds !! i
      = kpi grid lifetimeYears thresholds <$> records !! i) /\
  map k_Product (computeKPIs records grid lifetimeYears thresholds)
  = map Product records /\
  map k_Category (computeKPIs records grid lifetimeYears thresholds)
  = map Category records.
Proof.
  unfold computeKPIs. repeat split.
  - apply length_map.
  - intros i. apply list_lookup_fmap.
  - rewrite map_map. reflexivity.
  - rewrite map_map. reflexivity.
Qed.

End EngineFacts.

(* ===================================================================== *)
(** * Rounding                                                             *)
(* ===================================================================== *)

Section RoundFacts.

Import Engine Fixtures.

Lemma round_Fin (q : Q) :
  round (Fin q) = Fin (inject_Z (Qfloor (q * 100 + (1 # 2))) / 100).
Proof. reflexivity. Qed.

(** The integer the code rounds to, against the one that rounding the
    magnitude gives: they differ by one exactly at a tie. *)
Lemma floor_half_opp (x : Q) :
  Qfloor (x + (1 # 2)) =
  (- Qfloor (- x + (1 # 2))
   + (if Qeq_bool (inject_Z (Qfloor (x + (1 # 2)))) (x + (1 # 2)) then 1 else 0))%Z.
Proof.
  set (n := Qfloor (x + (1 # 2))).
  pose proof (Qfloor_le (x + (1 # 2))) as Lo.
  pose proof (Qlt_floor (x + (1 # 2))) as Hi.
  fold n in Lo, Hi.
  rewrite inject_Z_plus in Hi. change (inject_Z 1) with 1 in Hi.
  destruct (Qeq_bool (inject_Z n) (x + (1 # 2))) eqn:E.
  - apply Qeq_bool_iff in E.
    assert (Qfloor (- x + (1 # 2)) = (1 - n)%Z) as ->; [|lia].
    apply Qfloor_unique.
    + unfold Z.sub. rewrite inject_Z_plus, inject_Z_opp. change (inject_Z 1) with 1. lra.
    + replace (1 - n + 1)%Z with (2 + - n)%Z by lia.
      rewrite inject_Z_plus, inject_Z_opp. change (inject_Z 2) with 2. lra.
  - apply Qeq_bool_neq in E.
    assert (inject_Z n < x + (1 # 2)) as Lo'.
    { apply Qle_lteq in Lo. destruct Lo as [?|?]; [assumption|contradiction]. }
    assert (Qfloor (- x + (1 # 2)) = (- n)%Z) as ->; [|lia].
    apply Qfloor_unique.
    + rewrite inject_Z_opp. lra.
    + rewrite inject_Z_plus, inject_Z_opp. change (inject_Z 1) with 1. lra.
Qed.

Lemma round_vs_half_away (q : Q) :
  round (Fin q)
  ≈ Fin (SpecWords.round_half_away q
         + (if Qneg q && SpecWords.is_tie q then 1 # 100 else 0)).
Proof.
  rewrite round_Fin. unfold SpecWords.round_half_away, SpecWords.is_tie.
  cbn [num_eq].
  destruct (q ?= 0) eqn:E.
  - apply Qeq_alt in E.
    assert (Qneg q = false) as ->.
    { unfold Qneg. apply Z.ltb_ge. unfold Qeq in E. simpl in E. lia. }
    cbn [andb]. lra.
  - apply Qlt_alt in E.
    assert (Qneg q = true) as ->.
    { unfold Qneg. apply Z.ltb_lt. unfold Qlt in E. simpl in E. lia. }
    cbn [andb].
    pose proof (floor_half_opp (q * 100)) as F.
    assert (Qfloor (- (q * 100) + (1 # 2)) = Qfloor (- q * 100 + (1 # 2))) as G.
    { apply Qfloor_comp. lra. }
    rewrite G in F. clear G.
    destruct (Qeq_bool _ _); rewrite F, inject_Z_plus, inject_Z_opp.
    + change (inject_Z 1) with 1. field.
    + change (inject_Z 0) with 0. field.
  - apply Qgt_alt in E.
    assert (Qneg q = false) as ->.
    { unfold Qneg. apply Z.ltb_ge. unfold Qlt in E. simpl in E. lia. }
    cbn [andb]. lra.
Qed.

Lemma round_nearest (q : Q) :
  exists n : Z,
    round (Fin q) = Fin (inject_Z n / 100) /\
    inject_Z n / 100 - (1 # 200) <= q /\ q < inject_Z n / 100 + (1 # 200).
Proof.
  exists (Qfloor (q * 100 + (1 # 2))). split; [apply round_Fin|].
  pose proof (Qfloor_le (q * 100 + (1 # 2))) as Lo.
  pose proof (Qlt_floor (q * 100 + (1 # 2))) as Hi.
  rewrite inject_Z_plus in Hi. change (inject_Z 1) with 1 in Hi.
  set (n := inject_Z (Qfloor (q * 100 + (1 # 2)))) in *.
  assert (n / 100 == n * (1 # 100)) as D by field.
  rewrite D. split; lra.
Qed.



End RoundFacts.

(* ===================================================================== *)
(** * Validation                                                           *)
(* ===================================================================== *)

Section ValidatorFacts.

Import Validator SpecWords Aux Fixtures.
Local Open Scope string_scope.
Local Open Scope list_scope.
Local Open Scope Q_scope.

Lemma check_field_verdict row r acc f :
  check_field row r acc f =
  acc ++ match verdict (get r f) with
         | Some (sev, msg) => [issue row f sev msg]
         | None => []
         end.
Proof.
  unfold check_field, verdict, issue.
  destruct (get r f) as [n|]; [|reflexivity].
  destruct (isNaN n); [reflexivity|].
  destruct (nlt n (Fin 0)); [reflexivity|].
  destruct (ngt n (Fin 10000000)); [reflexivity|].
  symmetry. apply app_nil_r.
Qed.

Lemma fold_check_field row r acc :
  fold_left (check_field row r) req acc = acc ++ issues_of row r.
Proof.
  unfold req, issues_of. simpl. rewrite !check_field_verdict, app_nil_r.
  rewrite <- !app_assoc. reflexivity.
Qed.

Lemma forEach_record_app rs : forall idx acc,
  forEach_record idx rs acc
  = acc ++ concat (imap (fun i r => issues_of (idx + i + 1) r) rs).
Proof.
  induction rs as [|r rs IH]; intros idx acc.
  - simpl. symmetry. apply app_nil_r.
  - cbn [forEach_record imap concat].
    rewrite IH, fold_check_field, <- app_assoc, Nat.add_0_r. do 3 f_equal.
    apply imap_ext. intros i x _. simpl. f_equal. lia.
Qed.

Lemma issues_validate rs :
  issues (validate rs) = concat (imap (fun i r => issues_of (i + 1) r) rs).
Proof.
  unfold validate. simpl. rewrite forEach_record_app. reflexivity.
Qed.

Lemma field_name_inj f g : field_name f = field_name g -> f = g.
Proof. destruct f, g; simpl; intros H; try reflexivity; discriminate. Qed.

Lemma elem_of_concat {A} (x : A) (ls : list (list A)) :
  x ∈ concat ls <-> exists l, x ∈ l /\ l ∈ ls.
Proof.
  induction ls as [|l ls IH]; simpl.
  - split; [intros H; inversion H|intros (l & _ & H); inversion H].
  - rewrite elem_of_app, IH. split.
    + intros [H|(l' & H1 & H2)]; [exists l|exists l']; split; auto; constructor; auto.
    + intros (l' & H1 & H2). apply elem_of_cons in H2 as [->|H2]; eauto.
Qed.

Lemma elem_of_issues rs (i : ValidationIssue) :
  i ∈ issues (validate rs) <->
  exists idx r f sev msg,
    rs !! idx = Some r /\ verdict (get r f) = Some (sev, msg) /\
    i = issue (idx + 1) f sev msg.
Proof.
  rewrite issues_validate. rewrite elem_of_concat. split.
  - intros (l & Hi & Hl). apply elem_of_lookup_imap in Hl.
    destruct Hl as (idx & r & -> & Hr).
    unfold issues_of in Hi. apply list_elem_of_bind in Hi.
    destruct Hi as (f & Hi & _).
    destruct (verdict (get r f)) as [[sev msg]|] eqn:V.
    + apply list_elem_of_singleton in Hi. eauto 10.
    + inversion Hi.
  - intros (idx & r & f & sev & msg & Hr & V & ->).
    exists (issues_of (idx + 1) r). split.
    + unfold issues_of. apply list_elem_of_bind. exists f. rewrite V. split.
      * apply list_elem_of_singleton. reflexivity.
      * destruct f; unfold req; set_solver.
    + apply elem_of_lookup_imap. eauto.
Qed.

Lemma verdict_missing v :
  verdict v = Some (error, "Missing required value") <-> is_missing v.
Proof.
  unfold verdict, is_missing. destruct v as [n|]; [|intuition].
  destruct n; simpl.
  - intuition.
  - destruct (nlt _ _); [|destruct (ngt _ _)]; split; intros H;
      try discriminate; destruct H; discriminate.
  - destruct (nlt _ _); [|destruct (ngt _ _)]; split; intros H;
      try discriminate; destruct H; discriminate.
Qed.

Lemma verdict_negative v :
  verdict v = Some (error, "Negative value") <-> is_negative v.
Proof.
  unfold verdict, is_negative. destruct v as [n|].
  - destruct (isNaN n) eqn:N.
    + destruct n; try discriminate. split; [discriminate|].
      intros (n & [= <-] & H). discriminate.
    + destruct (nlt n (Fin 0)) eqn:L.
      * split; eauto.
      * split.
        -- destruct (ngt _ _); discriminate.
        -- intros (n' & [= <-] & H). congruence.
  - split; [discriminate|]. intros (n & H & _). discriminate.
Qed.

Lemma ngt_large_not_negative n :
  ngt n (Fin 10000000) = true -> isNaN n = false /\ nlt n (Fin 0) = false.
Proof.
  destruct n as [|[]|q]; unfold ngt, nlt; simpl; try discriminate; auto.
  destruct (q ?= 10000000) eqn:E; try discriminate. intros _. split; [reflexivity|].
  apply Qgt_alt in E. destruct (q ?= 0) eqn:E0; try reflexivity.
  apply Qlt_alt in E0. lra.
Qed.

Lemma verdict_too_large v :
  verdict v = Some (warning, "Suspiciously large") <-> is_too_large v.
Proof.
  unfold verdict, is_too_large. destruct v as [n|].
  - split.
    + destruct (isNaN n); [discriminate|]. destruct (nlt n (Fin 0)); [discriminate|].
      destruct (ngt n (Fin 10000000)) eqn:G; [eauto|discriminate].
    + intros (n' & [= <-] & G). destruct (ngt_large_not_negative _ G) as [-> ->].
      rewrite G. reflexivity.
  - split; [discriminate|]. intros (n & H & _). discriminate.
Qed.

Lemma verdict_cases v sev msg :
  verdict v = Some (sev, msg) ->
  (sev, msg) = (error, "Missing required value") \/
  (sev, msg) = (error, "Negative value") \/
  (sev, msg) = (warning, "Suspiciously large").
Proof.
  unfold verdict. destruct v as [n|]; [|intros [= <- <-]; auto].
  destruct (isNaN n); [intros [= <- <-]; auto|].
  destruct (nlt n (Fin 0)); [intros [= <- <-]; auto|].
  destruct (ngt n (Fin 10000000)); [intros [= <- <-]; auto|discriminate].
Qed.

Lemma issue_inj row f sev msg row' f' sev' msg' :
  issue row f sev msg = issue row' f' sev' msg' ->
  row = row' /\ f = f' /\ sev = sev' /\ msg = msg'.
Proof.
  unfold issue. intros [= -> H -> ->]. apply field_name_inj in H. auto.
Qed.

Lemma issue_reported records row f sev msg :
  issue row f sev msg ∈ issues (validate records) <->
  exists idx r,
    row = (idx + 1)%nat /\ records !! idx = Some r /\ verdict (get r f) = Some (sev, msg).
Proof.
  rewrite elem_of_issues. split.
  - intros (idx & r & f' & sev' & msg' & Hr & V & E).
    apply issue_inj in E as (-> & -> & -> & ->). eauto.
  - intros (idx & r & -> & Hr & V). eauto 10.
Qed.

Lemma has_error_Exists l :
  existsb is_error l = true <-> Exists (fun i => severity i = error) l.
Proof.
  induction l as [|i l IH]; simpl.
  - split; [discriminate|intros H; inversion H].
  - rewrite orb_true_iff, IH, Exists_cons. unfold is_error.
    destruct (severity i); intuition congruence.
Qed.

Lemma no_error_Forall l :
  existsb is_error l = false <-> Forall (fun i => severity i <> error) l.
Proof.
  induction l as [|i l IH]; simpl.
  - split; [constructor|reflexivity].
  - rewrite orb_false_iff, IH, Forall_cons. unfold is_error.
    destruct (severity i); intuition congruence.
Qed.

(** C6. [validate] reports, for the record at 1-based row [row] and the
    required field [f], an error "Missing required value" exactly when the
    value is null or NaN, an error "Negative value" exactly when it is below
    0, a warning "Suspiciously large" exactly when it is above 1e7, and
    nothing else.  The status is red iff there is an error, amber iff there
    is none but there is a warning, and green iff there is no issue.  The
    record with transport null, materials -5, production 0 and use 1e8 gets
    an error for transport, an error for materials and a warning for use, and
    the status red. *)
Theorem validate_reports (records : list MappedRecord) :
  (forall (row : nat) (f : ReqField),
      (issue row f error "Missing required value" ∈ issues (validate records) <->
         exists idx r, row = (idx + 1)%nat /\ records !! idx = Some r /\
                       is_missing (get r f)) /\
      (issue row f error "Negative value" ∈ issues (validate records) <->
         exists idx r, row = (idx + 1)%nat /\ records !! idx = Some r /\
                       is_negative (get r f)) /\
      (issue row f warning "Suspiciously large" ∈ issues (validate records) <->
         exists idx r, row = (idx + 1)%nat /\ records !! idx = Some r /\
                       is_too_large (get r f))) /\
  Forall (fun i => exists row f,
              i = issue row f error "Missing required value" \/
              i = issue row f error "Negative value" \/
              i = issue row f warning "Suspiciously large")
         (issues (validate records)) /\
  (dq_status (validate records) = red <->
     Exists (fun i => severity i = error) (issues (validate records))) /\
  (dq_status (validate records) = amber <->
     Forall (fun i => severity i <> error) (issues (validate records)) /\
     Exists (fun i => severity i = warning) (issues (validate records))) /\
  (dq_status (validate records) = green <-> issues (validate records) = []) /\
  (issues (validate [validation_test_record])
   = [ issue 1 FTransport error "Missing required value";
       issue 1 FMaterials error "Negative value";
       issue 1 FUse warning "Suspiciously large" ] /\
   dq_status (validate [validation_test_record]) = red).
Proof.
  split; [|split; [|split; [|split; [|split]]]].
  - intros row f. rewrite !issue_reported.
    repeat split; intros (idx & r & -> & Hr & V); exists idx, r;
      (split; [reflexivity|split; [assumption|]]).
    + apply verdict_missing, V.
    + apply verdict_missing, V.
    + apply verdict_negative, V.
    + apply verdict_negative, V.
    + apply verdict_too_large, V.
    + apply verdict_too_large, V.
  - apply Forall_forall. intros i Hi. apply elem_of_issues in Hi.
    destruct Hi as (idx & r & f & sev & msg & _ & V & ->).
    exists (idx + 1)%nat, f.
    destruct (verdict_cases _ _ _ V) as [[= -> ->]|[[= -> ->]|[= -> ->]]]; auto.
  - unfold validate; cbn [dq_status issues].
    set (l := forEach_record 0 records []).
    rewrite <- has_error_Exists.
    destruct (existsb is_error l); [tauto|].
    destruct l; split; congruence.
  - unfold validate; cbn [dq_status issues].
    set (l := forEach_record 0 records []).
    rewrite <- no_error_Forall.
    destruct (existsb is_error l) eqn:E.
    + split; [discriminate|]. intros [? _]; discriminate.
    + destruct l as [|i l'].
      * split; [discriminate|]. intros [_ H]. inversion H.
      * split; [intros _|reflexivity]. split; [reflexivity|].
        apply Exists_cons. left. simpl in E. apply orb_false_iff in E as [E _].
        unfold is_error in E. destruct (severity i); [discriminate|reflexivity].
  - unfold validate; cbn [dq_status issues].
    set (l := forEach_record 0 records []).
    destruct (existsb is_error l) eqn:E.
    + split; [discriminate|]. intros H. rewrite H in E. discriminate.
    + destruct l; split; congruence.
  - split; reflexivity.
Qed.


End ValidatorFacts.

(* ===================================================================== *)
(** * Header detection                                                     *)
(* ===================================================================== *)

Section WorkerFacts.

Import Worker Aux Fixtures.
Local Open Scope string_scope.
Local Open Scope list_scope.
Local Open Scope Q_scope.

Variable Number_toString : number -> string.

Abbreviation cell_text := (Aux.cell_text Number_toString).
Abbreviation points := (Aux.points Number_toString).
Abbreviation score_q := (Aux.score_q Number_toString).
Abbreviation row_score := (Worker.row_score Number_toString).
Abbreviation autoDetectHeaderRow := (Worker.autoDetectHeaderRow Number_toString).

Lemma length_pos_nonempty (s : string) :
  (0 <? String.length s)%nat = negb (String.eqb s "").
Proof. destruct s; reflexivity. Qed.

Lemma add_cell_points (a : Q) (cell : JsValue) :
  add_cell Number_toString (Fin a) cell
  = Fin (a + (if existsb (fun k => includes (cell_text cell) k) keywordHints then 1 else 0)
           + (if String.eqb (cell_text cell) "" then 0 else 0.2)).
Proof.
  unfold add_cell. cbv zeta. rewrite length_pos_nonempty.
  destruct (existsb _ _); destruct (String.eqb _ _); reflexivity.
Qed.

Lemma fold_add_cell (r : list JsValue) : forall a : Q,
  exists q, fold_left (add_cell Number_toString) r (Fin a) = Fin q /\ q == a + points r.
Proof.
  induction r as [|c r IH]; intros a.
  - exists a. split; [reflexivity|]. unfold points; simpl. lra.
  - cbn [fold_left]. rewrite add_cell_points.
    destruct (IH (a + (if existsb (fun k => includes (cell_text c) k) keywordHints
                       then 1 else 0)
                    + (if String.eqb (cell_text c) "" then 0 else 0.2)))
      as (q & -> & Hq).
    exists q. split; [reflexivity|]. rewrite Hq.
    unfold points. cbn [map SpecWords.sum_points]. unfold SpecWords.cell_points. lra.
Qed.

Lemma row_score_points (r : list JsValue) :
  exists q, row_score r = Fin q /\ q == points r.
Proof.
  destruct (fold_add_cell r 0) as (q & H & Hq).
  exists q. split; [exact H|]. rewrite Hq. lra.
Qed.

Lemma row_score_q (r : list JsValue) : row_score r = Fin (score_q r).
Proof.
  unfold score_q. destruct (row_score_points r) as (q & -> & _). reflexivity.
Qed.

Lemma score_q_points (r : list JsValue) : score_q r == points r.
Proof.
  unfold score_q. destruct (row_score_points r) as (q & -> & H). exact H.
Qed.

Lemma ngt_below (x y : Q) (b : number) :
  is_best b -> ngt (Fin x) b = false -> ngt (Fin y) b = true -> x < y.
Proof.
  intros [->|(q & ->)] H1 H2; [discriminate|].
  apply ngt_Fin in H2.
  assert (~ q < x) by (intros C; apply ngt_Fin in C; congruence). lra.
Qed.

Lemma ngt_trans (x y : Q) (b : number) :
  is_best b -> ngt (Fin x) b = true -> x < y -> ngt (Fin y) b = true.
Proof.
  intros [->|(q & ->)] H1 H2; [reflexivity|].
  apply ngt_Fin. apply ngt_Fin in H1. lra.
Qed.

Lemma visit_cases (s : Scan) (i : nat) (r : list JsValue) :
  (ngt (row_score r) (bestScore s) = true /\
   visit Number_toString s i r = {| bestIdx := i; bestScore := row_score r |}) \/
  (ngt (row_score r) (bestScore s) = false /\ visit Number_toString s i r = s).
Proof. unfold visit. cbv zeta. destruct (ngt _ _); auto. Qed.

(** The scan from index [i] on: either no row beats the incoming best, or the
    result is the first row with the largest score. *)
Lemma forEach_row_spec (rows : list (list JsValue)) : forall (i : nat) (s : Scan),
  is_best (bestScore s) ->
  (forEach_row Number_toString i rows s = s /\
   forall j r, rows !! j = Some r -> ngt (row_score r) (bestScore s) = false) \/
  (exists j r,
      rows !! j = Some r /\
      forEach_row Number_toString i rows s
      = {| bestIdx := (i + j)%nat; bestScore := row_score r |} /\
      ngt (row_score r) (bestScore s) = true /\
      (forall j' r', rows !! j' = Some r' -> score_q r' <= score_q r) /\
      (forall j' r', (j' < j)%nat -> rows !! j' = Some r' -> score_q r' < score_q r)).
Proof.
  induction rows as [|r0 rows IH]; intros i s Hb.
  - left. split; [reflexivity|]. intros j r H. inversion H.
  - cbn [forEach_row].
    destruct (visit_cases s i r0) as [[G V]|[G V]]; rewrite V.
    + destruct (IH (S i) {| bestIdx := i; bestScore := row_score r0 |}) as
        [[E A]|(j & r & Hr & E & G' & Hle & Hlt)].
      { right. rewrite row_score_q. eauto. }
      * right. exists 0%nat, r0. rewrite E, Nat.add_0_r.
        split; [reflexivity|]. split; [reflexivity|]. split; [exact G|]. split.
        -- intros [|j'] r' H; simpl in H.
           ++ injection H as <-. lra.
           ++ specialize (A _ _ H). cbn [bestScore] in A.
              rewrite !row_score_q in A.
              assert (~ score_q r0 < score_q r')
                by (intros C; apply ngt_Fin in C; congruence). lra.
        -- intros j' r' H. lia.
      * right. exists (S j), r. cbn [bestScore] in G'.
        rewrite !row_score_q in G'. apply ngt_Fin in G'.
        split; [exact Hr|]. split; [rewrite E; f_equal; lia|]. split.
        { rewrite row_score_q in G |- *. eapply ngt_trans; eauto. }
        split.
        -- intros [|j'] r' H; simpl in H.
           ++ injection H as <-. lra.
           ++ eapply Hle; eauto.
        -- intros [|j'] r' Hj H; simpl in H.
           ++ injection H as <-. exact G'.
           ++ eapply Hlt; [|exact H]. lia.
    + destruct (IH (S i) s Hb) as [[E A]|(j & r & Hr & E & G' & Hle & Hlt)].
      * left. split; [exact E|]. intros [|j] r H; simpl in H.
        -- injection H as <-. exact G.
        -- eapply A; eauto.
      * right. exists (S j), r.
        assert (score_q r0 < score_q r) as L.
        { rewrite row_score_q in G, G'. eapply ngt_below; eauto. }
        split; [exact Hr|]. split; [rewrite E; f_equal; lia|]. split; [exact G'|].
        split.
        -- intros [|j'] r' H; simpl in H.
           ++ injection H as <-. lra.
           ++ eapply Hle; eauto.
        -- intros [|j'] r' Hj H; simpl in H.
           ++ injection H as <-. exact L.
           ++ eapply Hlt; [|exact H]. lia.
Qed.

Lemma take_min_length {A} (n : nat) (l : list A) :
  take (Nat.min n (length l)) l = take n l.
Proof.
  destruct (Nat.le_ge_cases n (length l)) as [H|H].
  - rewrite Nat.min_l by exact H. reflexivity.
  - rewrite Nat.min_r by exact H. rewrite !firstn_all2 by lia. reflexivity.
Qed.


End WorkerFacts.

(* ===================================================================== *)
(** * Mapping suggestions                                                  *)
(* ===================================================================== *)

Section MapperFacts.

Import Mapper Aux Fixtures.
Local Open Scope string_scope.
Local Open Scope list_scope.
Local Open Scope Q_scope.

Lemma fold_suggest_for norm (table : list (string * list string)) : forall acc,
  fold_left (suggest_for norm) table acc = acc ++ map (suggestion_of norm) table.
Proof.
  induction table as [|e table IH]; intros acc.
  - simpl. symmetry. apply app_nil_r.
  - cbn [fold_left map]. rewrite IH. unfold suggest_for. cbv zeta.
    rewrite <- app_assoc. reflexivity.
Qed.

Lemma suggestMapping_map headers :
  suggestMapping headers
  = map (suggestion_of (map (fun h => (h, normalizeHeader h)) headers)) synonymTable.
Proof. unfold suggestMapping. cbv zeta. apply fold_suggest_for. Qed.

Lemma header_score_values syns n :
  header_score syns n = Fin 0 \/ exists q, header_score syns n = Fin q /\ 0 < q.
Proof.
  unfold header_score.
  destruct (existsb _ syns); destruct (existsb _ syns); simpl.
  - right. eexists. split; [reflexivity|]. reflexivity.
  - right. eexists. split; [reflexivity|]. reflexivity.
  - right. eexists. split; [reflexivity|]. reflexivity.
  - left. reflexivity.
Qed.

Lemma consider_cases syns best h :
  (ngt (header_score syns (snd h)) (score best) = true /\
   consider syns best h
   = {| from := Some (fst h); score := header_score syns (snd h) |}) \/
  (ngt (header_score syns (snd h)) (score best) = false /\
   consider syns best h = best).
Proof. unfold consider. destruct (ngt _ _); auto. Qed.

(** The running best has a finite, non-negative score; it is the starting one
    as long as no header scored above it. *)
Lemma fold_consider syns (norm : list (string * string)) : forall best q,
  score best = Fin q -> 0 <= q ->
  exists q',
    score (fold_left (consider syns) norm best) = Fin q' /\ 0 <= q' /\
    ((forall h, h ∈ norm -> ngt (header_score syns (snd h)) (score best) = false) ->
     fold_left (consider syns) norm best = best).
Proof.
  induction norm as [|h norm IH]; intros best q Hs Hq.
  - exists q. simpl. auto.
  - cbn [fold_left].
    destruct (consider_cases syns best h) as [[G ->]|[G ->]].
    + destruct (header_score_values syns (snd h)) as [Z|(q1 & Z & P)].
      * rewrite Z, Hs in G. apply ngt_Fin in G. lra.
      * destruct (IH {| from := Some (fst h); score := header_score syns (snd h) |} q1)
          as (q' & E & P' & _); [exact Z|lra|].
        exists q'. split; [exact E|]. split; [exact P'|].
        intros A. specialize (A h (list_elem_of_here _ _)). congruence.
    + destruct (IH best q Hs Hq) as (q' & E & P' & K).
      exists q'. split; [exact E|]. split; [exact P'|].
      intros A. apply K. intros h' Hh'. apply A. apply list_elem_of_further, Hh'.
Qed.

Lemma Math_min_unit q :
  0 <= q -> exists c, Math_min (Fin 1) (Fin q) = Fin c /\ 0 <= c /\ c <= 1.
Proof.
  intros Hq. unfold Math_min. destruct (nlt (Fin q) (Fin 1)) eqn:L.
  - apply nlt_Fin in L. exists q. split; [reflexivity|]. lra.
  - exists 1. split; [reflexivity|]. lra.
Qed.

(** C9. [suggestMapping] returns one suggestion per canonical field, in the
    order of the ten fields, each with a confidence between 0 and 1; a field
    for which no header scores above zero gets the suggestion with no header
    and confidence 0. *)
Theorem suggestMapping_one_per_field (headers : list string) :
  map target (suggestMapping headers) = canonicalFields /\
  length (suggestMapping headers) = 10%nat /\
  Forall (fun s => exists c, confidence s = Fin c /\ 0 <= c /\ c <= 1)
         (suggestMapping headers) /\
  (forall (i : nat) (entry : string * list string),
      synonymTable !! i = Some entry ->
      (forall h, h ∈ headers ->
                 ngt (header_score (synonyms_of entry) (normalizeHeader h)) (Fin 0)
                 = false) ->
      suggestMapping headers !! i
      = Some {| target := fst entry; fromHeader := None; confidence := Fin 0 |}).
Proof.
  rewrite suggestMapping_map.
  set (norm := map (fun h => (h, normalizeHeader h)) headers).
  split; [|split; [|split]].
  - rewrite map_map. reflexivity.
  - rewrite length_map. reflexivity.
  - apply Forall_forall. intros s Hs. apply list_elem_of_In, in_map_iff in Hs.
    destruct Hs as (entry & <- & _). unfold suggestion_of. cbv zeta. cbn [confidence].
    destruct (fold_consider (synonyms_of entry) norm
                {| from := None; score := Fin 0 |} 0 eq_refl (Qle_refl 0))
      as (q' & -> & P & _).
    apply Math_min_unit, P.
  - intros i entry Hi A. rewrite list_lookup_fmap, Hi. cbn [fmap option_fmap option_map].
    f_equal. unfold suggestion_of. cbv zeta.
    destruct (fold_consider (synonyms_of entry) norm
                {| from := None; score := Fin 0 |} 0 eq_refl (Qle_refl 0))
      as (q' & _ & _ & K).
    rewrite K; [reflexivity|].
    intros h Hh. apply list_elem_of_In, in_map_iff in Hh.
    destruct Hh as (h0 & <- & Hh0). cbn [snd score].
    apply A, list_elem_of_In, Hh0.
Qed.

End MapperFacts.

(* ===================================================================== *)
(** * Numeric coercion                                                     *)
(* ===================================================================== *)

Section CoercionFacts.

Import Mapper Fixtures.
Local Open Scope string_scope.
Local Open Scope list_scope.
Local Open Scope Q_scope.

Variable Number_toString : number -> string.

(** What [toNum] does with a string that is not empty. *)
Lemma toNum_string (c : ascii) (s : string) :
  toNum Number_toString (VStr (String c s))
  = (let n := Number_ (strip_non_numeric (commas_to_dots (String c s))) in
     if isFinite n then Some n else None).
Proof. reflexivity. Qed.

(** Only digits, dots and hyphens reach [Number]. *)
Lemma strip_non_numeric_chars (s : string) :
  Forall (fun c => is_numeric_char c = true)
         (list_ascii_of_string (strip_non_numeric s)).
Proof.
  induction s as [|c s IH]; simpl; [constructor|].
  destruct (is_numeric_char c) eqn:E; [|exact IH].
  simpl. constructor; assumption.
Qed.

(** C2, on the code. The coercion of ["1,200"] is 1.2, not 1200: the comma
    becomes a dot before the text is read as a number.  ["50"] gives 50.  A
    text without any digit, dot or hyphen, such as ["abc"], gives 0 and not
    null; null comes out where what is left is not a number, as for ["-"].
    In the mapping test of the repository the transport value of the row is
    1.2. *)
Theorem toNum_examples :
  (exists q, toNum Number_toString (VStr "1,200") = Some (Fin q) /\
             q == 1.2 /\ ~ q == 1200) /\
  (exists q, toNum Number_toString (VStr "50") = Some (Fin q) /\ q == 50) /\
  (exists q, toNum Number_toString (VStr "abc") = Some (Fin q) /\ q == 0) /\
  toNum Number_toString (VStr "-") = None /\
  (exists r q,
      fst (applyMapping Number_toString [mapping_test_row]
             {| sheetName := "S"; headerRowIndex := 0;
                suggestions := suggestMapping mapping_test_headers |}) = [r] /\
      Transport_kgCO2e r = Some (Fin q) /\ q == 1.2 /\ ~ q == 1200).
Proof.
  split; [|split; [|split; [|split]]].
  - eexists. split; [reflexivity|]. split; [reflexivity|]. discriminate.
  - eexists. split; reflexivity.
  - eexists. split; reflexivity.
  - reflexivity.
  - eexists. eexists. split; [vm_compute; reflexivity|].
    split; [reflexivity|]. split; [reflexivity|]. discriminate.
Qed.

End CoercionFacts.

(* ===================================================================== *)
(** * The heap                                                             *)
(* ===================================================================== *)

Section HeapFacts.

Lemma lookup_snoc_new {A} (h : list A) (o : A) (ext : list A) :
  (h ++ o :: ext) !! length h = Some o.
Proof. rewrite lookup_app_r by lia. rewrite Nat.sub_diag. reflexivity. Qed.

Lemma kpi_at_ext (h ext : Heap) (l : loc) :
  (l < length h)%nat -> kpi_at (h ++ ext) l = kpi_at h l.
Proof. intros Hl. unfold kpi_at. rewrite lookup_app_l by exact Hl. reflexivity. Qed.

Lemma elems_at_ext (h ext : Heap) (a : loc) :
  (a < length h)%nat -> elems_at (h ++ ext) a = elems_at h a.
Proof. intros Hl. unfold elems_at. rewrite lookup_app_l by exact Hl. reflexivity. Qed.

Lemma thresholds_at_ext (h ext : Heap) (l : loc) :
  (l < length h)%nat -> thresholds_at (h ++ ext) l = thresholds_at h l.
Proof.
  intros Hl. unfold thresholds_at. rewrite lookup_app_l by exact Hl. reflexivity.
Qed.

(** Reading the entries [ls] in a heap that extends [h], when they all lie in
    [h]. *)
Lemma omap_kpi_at_ext (h ext : Heap) (ls : list loc) :
  Forall (fun l => (l < length h)%nat) ls ->
  omap (kpi_at (h ++ ext)) ls = omap (kpi_at h) ls.
Proof.
  induction 1 as [|l ls Hl _ IH]; [reflexivity|].
  cbn [omap list_omap]. rewrite kpi_at_ext by exact Hl.
  rewrite IH. reflexivity.
Qed.

(** Allocating entries leaves the heap below them as it was, and the new
    references denote the new entries. *)
Lemma alloc_entries_spec (ks : list KPIResult) : forall h : Heap,
  exists ext,
    (alloc_entries h ks).1 = h ++ ext /\
    length (alloc_entries h ks).2 = length ks /\
    Forall (fun l => (l < length (h ++ ext))%nat) (alloc_entries h ks).2 /\
    omap (kpi_at (h ++ ext)) (alloc_entries h ks).2 = ks.
Proof.
  induction ks as [|k ks IH]; intros h.
  - exists []. simpl. rewrite app_nil_r. auto.
  - cbn [alloc_entries]. unfold alloc.
    destruct (IH (h ++ [KpiObj k])) as (ext & E1 & E2 & E3 & E4).
    destruct (alloc_entries (h ++ [KpiObj k]) ks) as [h2 ls].
    cbn [fst snd] in *. subst h2.
    exists (KpiObj k :: ext).
    replace (h ++ KpiObj k :: ext) with ((h ++ [KpiObj k]) ++ ext)
      by (rewrite <- app_assoc; reflexivity).
    split; [reflexivity|]. split; [simpl; congruence|]. split.
    + constructor; [|exact E3]. rewrite !length_app. simpl. lia.
    + cbn [omap list_omap]. unfold kpi_at at 1.
      rewrite <- app_assoc. cbn [app]. rewrite lookup_snoc_new.
      replace (h ++ KpiObj k :: ext) with ((h ++ [KpiObj k]) ++ ext)
        by (rewrite <- app_assoc; reflexivity).
      rewrite E4. reflexivity.
Qed.

Lemma alloc_kpis_spec (h : Heap) (ks : list KPIResult) :
  exists ext,
    (alloc_kpis h ks).1 = h ++ ext /\
    ((alloc_kpis h ks).2 < length (h ++ ext))%nat /\
    (length h <= (alloc_kpis h ks).2)%nat /\
    length (elems_at (h ++ ext) (alloc_kpis h ks).2) = length ks /\
    Forall (fun l => (l < length (h ++ ext))%nat)
           (elems_at (h ++ ext) (alloc_kpis h ks).2) /\
    read_kpis (h ++ ext) (alloc_kpis h ks).2 = ks.
Proof.
  unfold alloc_kpis.
  destruct (alloc_entries_spec ks h) as (ext & E1 & E2 & E3 & E4).
  destruct (alloc_entries h ks) as [h1 ls]. cbn [fst snd] in *. subst h1.
  unfold alloc. cbn [fst snd].
  exists (ext ++ [ArrObj ls]). rewrite app_assoc.
  assert (elems_at ((h ++ ext) ++ [ArrObj ls]) (length (h ++ ext)) = ls) as R.
  { unfold elems_at. rewrite lookup_snoc_new. reflexivity. }
  split; [reflexivity|]. split; [rewrite !length_app; simpl; lia|].
  split; [rewrite length_app; lia|].
  unfold read_kpis. rewrite R. split; [exact E2|]. split.
  - eapply Forall_impl; [exact E3|]. intros l Hl. cbv beta in *.
    rewrite (length_app (h ++ ext)). lia.
  - rewrite omap_kpi_at_ext by exact E3. exact E4.
Qed.

(** ** [structuredClone] *)

Lemma lookup_clone_all (h : Heap) (l : loc) :
  (l < length h)%nat ->
  clone_all h !! (length h + l)%nat = shift_obj (length h) <$> h !! l.
Proof.
  intros Hl. unfold clone_all. rewrite lookup_app_r by lia.
  replace (length h + l - length h)%nat with l by lia.
  apply list_lookup_fmap.
Qed.

Lemma kpi_at_clone (h : Heap) (l : loc) :
  (l < length h)%nat -> kpi_at (clone_all h) (length h + l) = kpi_at h l.
Proof.
  intros Hl. unfold kpi_at. rewrite lookup_clone_all by exact Hl.
  destruct (h !! l) as [[]|]; reflexivity.
Qed.

Lemma elems_at_clone (h : Heap) (a : loc) :
  (a < length h)%nat ->
  elems_at (clone_all h) (length h + a) = map (Nat.add (length h)) (elems_at h a).
Proof.
  intros Ha. unfold elems_at. rewrite lookup_clone_all by exact Ha.
  destruct (h !! a) as [[]|]; reflexivity.
Qed.

Lemma thresholds_at_clone (h : Heap) (l : loc) :
  (l < length h)%nat ->
  thresholds_at (clone_all h) (length h + l) = thresholds_at h l.
Proof.
  intros Hl. unfold thresholds_at. rewrite lookup_clone_all by exact Hl.
  destruct (h !! l) as [[]|]; reflexivity.
Qed.

(** The copy of an array reads as the original does. *)
Lemma read_kpis_clone (h : Heap) (a : loc) :
  (a < length h)%nat ->
  Forall (fun l => (l < length h)%nat) (elems_at h a) ->
  read_kpis (clone_all h) (length h + a) = read_kpis h a.
Proof.
  intros Ha Hls. unfold read_kpis. rewrite elems_at_clone by exact Ha.
  induction Hls as [|l ls Hl _ IH]; [reflexivity|].
  cbn [map omap list_omap]. rewrite kpi_at_clone by exact Hl. rewrite IH. reflexivity.
Qed.

End HeapFacts.

(* ===================================================================== *)
(** * The store: snapshots                                                 *)
(* ===================================================================== *)

Section StoreFacts.

Import Store Fixtures.

(** The snapshot and the live list are one array. *)
Lemma lock_aliases (now : string) (st : Store) :
  lockedSnapshot (state (lock now st))
  = Some {| taken_at := now;
            snap_kpis := kpis (state st);
            totals := {| count := length (elems_at (heap st) (kpis (state st)));
                         totalCO2e := sum_total (live_kpis st) |};
            snap_thresholds := thresholds (state st) |} /\
  kpis (state (lock now st)) = kpis (state st) /\
  heap (lock now st) = heap st.
Proof. repeat split. Qed.

Lemma edit_entry_state (i : nat) (f : KPIResult -> KPIResult) (st : Store) :
  state (edit_entry i f st) = state st.
Proof.
  unfold edit_entry.
  destruct (elems_at _ _ !! i) as [l|]; [|reflexivity].
  destruct (kpi_at _ l); reflexivity.
Qed.

(** C1, on the code. [lock] puts into the snapshot the reference to the live
    KPI list itself: after an entry of the live list is written in place, by
    hand or in a mutator of [update], the snapshot reads what the live list
    reads.  On a store with one computed KPI of total 60.3, writing 999 into
    the total of the live entry after the lock makes the total in the snapshot
    999. *)
Theorem lock_shares_live_list :
  (forall (st : Store) (now : string) (i : nat) (f : KPIResult -> KPIResult),
      snapshot_kpis (edit_entry i f (lock now st))
      = Some (live_kpis (edit_entry i f (lock now st))) /\
      snapshot_kpis (update (edit_entry i f) (lock now st))
      = Some (live_kpis (update (edit_entry i f) (lock now st)))) /\
  (exists k : KPIResult,
      Total_CO2e k ≈ Fin 60.3 /\
      snapshot_kpis (lock "t" computed_store) = Some [k] /\
      snapshot_kpis (edit_entry 0 (set_Total_CO2e (Fin 999)) (lock "t" computed_store))
      = Some [set_Total_CO2e (Fin 999) k] /\
      snapshot_kpis (update (edit_entry 0 (set_Total_CO2e (Fin 999)))
                       (lock "t" computed_store))
      = Some [set_Total_CO2e (Fin 999) k]).
Proof.
  split.
  - intros st now i f. split.
    + unfold snapshot_kpis, live_kpis. rewrite edit_entry_state. reflexivity.
    + unfold update, snapshot_kpis, live_kpis. rewrite edit_entry_state. reflexivity.
  - eexists. split; [|split; [vm_compute; reflexivity|split; vm_compute; reflexivity]].
    vm_compute. reflexivity.
Qed.

(** Replacing the live list by a new array, which is what "Compute KPIs" does,
    leaves what the snapshot reads as it was. *)
Lemma replacing_keeps_snapshot (st : Store) (now : string) (ks : list KPIResult) :
  (kpis (state st) < length (heap st))%nat ->
  Forall (fun l => (l < length (heap st))%nat) (elems_at (heap st) (kpis (state st))) ->
  (thresholds (state st) < length (heap st))%nat ->
  let st1 := lock now st in
  let st2 :=
    setKPIs (alloc_kpis (heap st1) ks).2
      {| heap := (alloc_kpis (heap st1) ks).1; state := state st1 |} in
  snapshot_kpis st2 = snapshot_kpis st1 /\
  snapshot_thresholds st2 = snapshot_thresholds st1 /\
  live_kpis st2 = ks.
Proof.
  intros Ha Hls Ht. cbv zeta.
  destruct (alloc_kpis_spec (heap (lock now st)) ks)
    as (ext & E1 & E2 & E3 & E4 & E5 & E6).
  rewrite E1.
  unfold snapshot_kpis, snapshot_thresholds, live_kpis.
  cbn [lock set setKPIs state heap lockedSnapshot with_lockedSnapshot with_kpis
       kpis snap_kpis snap_thresholds mbind option_bind] in *.
  split; [|split].
  - f_equal. unfold read_kpis. rewrite elems_at_ext by exact Ha.
    apply omap_kpi_at_ext, Hls.
  - apply thresholds_at_ext, Ht.
  - exact E6.
Qed.

End StoreFacts.

(* ===================================================================== *)
(** * The wizard: navigation and gates                                     *)
(* ===================================================================== *)

Section WizardFacts.

Import Store Wizard Fixtures.
Local Open Scope Z_scope.

Variable Number_toString : number -> string.

Abbreviation dispatch := (Wizard.dispatch Number_toString).
Abbreviation handleProgress := (Wizard.handleProgress Number_toString).
Abbreviation applyMappingClick := (Wizard.applyMappingClick Number_toString).

Lemma stepIndex_nextStep (st : Store) :
  stepIndex (state (nextStep st)) = Z.min 4 (stepIndex (state st) + 1).
Proof. reflexivity. Qed.

Lemma obj_set_not_nil {A} (o : list (string * A)) key v : obj_set o key v <> [].
Proof. destruct o as [|[k w] o]; simpl; [|destruct (String.eqb k key)]; discriminate. Qed.

(** The steps of [handleProgress] after [setMapping] keep the step index, the
    mappings and the error slot. *)
Lemma fold_addDetected (f : Row -> DetectedProduct) (rs : list Row) : forall st : Store,
  let st' := fold_left (fun acc r => addDetected [f r] acc) rs st in
  stepIndex (state st') = stepIndex (state st) /\
  mappings (state st') = mappings (state st) /\
  current_error (state st') = current_error (state st).
Proof.
  induction rs as [|r rs IH]; intros st; cbv zeta; [auto|].
  cbn [fold_left]. destruct (IH (addDetected [f r] st)) as (H1 & H2 & H3).
  rewrite H1, H2, H3. auto.
Qed.

Lemma handleProgress_sheet fn sh hri hs rs (st : Store) :
  let st' := handleProgress (EvSheet fn sh hri hs rs) st in
  stepIndex (state st')
  = (if stepIndex (state st) =? 0 then 1 else stepIndex (state st)) /\
  mappings (state st') <> [] /\
  current_error (state st') = current_error (state st).
Proof.
  cbv zeta. unfold handleProgress, Wizard.handleProgress. cbv zeta.
  match goal with
  | |- context [fold_left ?g rs ?s0] =>
      destruct (fold_addDetected
                  (detected_of Number_toString (fn ?? "Upload") sh) rs s0)
        as (H1 & H2 & H3);
      set (st3 := fold_left g rs s0) in *
  end.
  cbn [setSheet setMapping update assign set structuredClone state stepIndex
       with_sheets with_mappings with_lockedSnapshot with_kpis with_thresholds
       mappings current_error] in H1, H2, H3.
  rewrite H1. destruct (stepIndex (state st) =? 0) eqn:E.
  - apply Z.eqb_eq in E. rewrite stepIndex_nextStep, H1, E.
    split; [reflexivity|]. split.
    + change (mappings (state (nextStep st3))) with (mappings (state st3)).
      rewrite H2. apply obj_set_not_nil.
    + change (current_error (state (nextStep st3))) with (current_error (state st3)).
      exact H3.
  - split; [exact H1|]. split; [rewrite H2; apply obj_set_not_nil|exact H3].
Qed.

(** The outcomes of a delivered click on "Apply Mapping & Validate". *)
Lemma applyMappingClick_cases (st : Store) :
  applyMappingClick st = st \/
  exists records dq,
    let st1 := set (fun s => with_dataQuality (Some dq) (with_records records s)) st in
    (dq_status dq = red /\ applyMappingClick st = st1) \/
    (dq_status dq <> red /\ applyMappingClick st = nextStep st1).
Proof.
  unfold applyMappingClick, Wizard.applyMappingClick. cbv zeta.
  destruct (map fst (mappings (state st))) as [|bufferKey ?]; [left; reflexivity|].
  destruct (String.eqb bufferKey ""); [left; reflexivity|].
  destruct (obj_get (mappings (state st)) bufferKey) as [mapping|]; [|left; reflexivity].
  destruct (Mapper.applyMapping _ _ mapping) as [records missing].
  right. exists records, (Validator.validate records). cbv zeta.
  destruct (dq_status (Validator.validate records)) eqn:E.
  - left. auto.
  - right. split; [discriminate|reflexivity].
  - right. split; [discriminate|reflexivity].
Qed.

(** A delivered click on "Compute KPIs" with records leaves a live list that
    is not empty. *)
Lemma computeClick_cases (st : Store) :
  records (state st) <> [] ->
  computeClick st = st \/
  (stepIndex (state (computeClick st)) = Z.min 4 (stepIndex (state st) + 1) /\
   live_kpis (computeClick st) <> [] /\
   current_error (state (computeClick st)) = current_error (state st)).
Proof.
  intros Hrec. unfold computeClick. cbv zeta.
  destruct (thresholds_at (heap st) (thresholds (state st))) as [thr|];
    [|left; reflexivity].
  right.
  set (ks := Engine.computeKPIs _ _ _ thr).
  destruct (alloc_kpis_spec (heap st) ks) as (ext & E1 & E2 & E3 & E4 & E5 & E6).
  destruct (alloc_kpis (heap st) ks) as [h a]. cbn [fst snd] in *. subst h.
  split; [reflexivity|]. split; [|reflexivity].
  unfold live_kpis.
  cbn [nextStep update assign set setKPIs structuredClone state heap kpis
       with_stepIndex with_lockedSnapshot with_kpis with_thresholds].
  rewrite read_kpis_clone by assumption. rewrite E6.
  unfold ks, Engine.computeKPIs. destruct (records (state st)); [congruence|discriminate].
Qed.

(** C3. In every state of the wizard: a click on the navigation button of a
    step beyond the current one changes nothing; an event that raises the step
    index raises it by one, and the gate of the stage it leaves is met after
    it (a sheet captured, a data quality that is not red, KPIs computed, a
    snapshot locked); "Apply Mapping & Validate" with a red result keeps the
    step index; without records "Compute KPIs" changes nothing, and without
    KPIs "Lock Baseline" changes nothing; a click on the button of a step up
    to the current one sets the step index to it; and no event but an error
    message of the worker or a rejected parse writes the error slot. *)
Theorem navigation_is_gated (st : Store) :
  (forall idx : nat,
      stepIndex (state st) < Z.of_nat idx -> dispatch (NavClick idx) st = st) /\
  (forall e : Event,
      stepIndex (state st) < stepIndex (state (dispatch e st)) ->
      stepIndex (state (dispatch e st)) = stepIndex (state st) + 1 /\
      gate_met (stepIndex (state st)) (dispatch e st) = true) /\
  (forall dq : DataQualitySummary,
      dataQuality (state (dispatch ApplyMappingClick st)) = Some dq ->
      dq_status dq = red ->
      stepIndex (state (dispatch ApplyMappingClick st)) = stepIndex (state st)) /\
  (records (state st) = [] -> dispatch ComputeClick st = st) /\
  (forall now : string,
      elems_at (heap st) (kpis (state st)) = [] -> dispatch (LockClick now) st = st) /\
  (forall idx : nat,
      (idx < 5)%nat -> Z.of_nat idx <= stepIndex (state st) ->
      dispatch (NavClick idx) st = set (with_stepIndex (Z.of_nat idx)) st) /\
  (forall e : Event,
      reports_error e = false ->
      current_error (state (dispatch e st)) = current_error (state st)).
Proof.
  split; [|split; [|split; [|split; [|split; [|split]]]]].
  - intros idx H. unfold dispatch, Wizard.dispatch, navClick, canGo.
    destruct (idx <? length steps)%nat; [|reflexivity].
    destruct (Z.of_nat idx <=? stepIndex (state st)) eqn:E; [|reflexivity].
    apply Z.leb_le in E. lia.
  - intros e. destruct e as [idx|ev|gf|key idx value| | |now|b|msg];
      unfold dispatch, Wizard.dispatch; try (cbn; lia).
    + unfold navClick, canGo. destruct (idx <? length steps)%nat; [|lia].
      destruct (Z.of_nat idx <=? stepIndex (state st)) eqn:E; [|lia].
      apply Z.leb_le in E. cbn [set state with_stepIndex stepIndex]. lia.
    + destruct ev as [|fn sh hri hs rs|msg|]; try (cbn; lia).
      destruct (handleProgress_sheet fn sh hri hs rs st) as (H1 & H2 & _).
      fold handleProgress. rewrite H1.
      destruct (stepIndex (state st) =? 0) eqn:E; [|lia].
      apply Z.eqb_eq in E. rewrite E. intros _. split; [reflexivity|].
      cbn [gate_met]. destruct (mappings _); [congruence|reflexivity].
    + destruct (on_step 0 st); cbn; lia.
    + destruct (on_step 1 st); [|lia]. unfold selectChange.
      destruct (obj_get _ key) as [m|]; [|lia].
      destruct (suggestions m !! idx); [cbn; lia|lia].
    + destruct (on_step 1 st) eqn:S; [|cbn; lia].
      destruct (negb (mapBtn_disabled st)); [|cbn; lia]. cbn [andb].
      apply Z.eqb_eq in S. fold applyMappingClick.
      destruct (applyMappingClick_cases st) as [->|(rs & dq & [[R ->]|[R ->]])];
        [lia|cbn; lia|].
      rewrite stepIndex_nextStep. cbn [set state with_dataQuality with_records stepIndex].
      rewrite S. intros _. split; [reflexivity|].
      cbn. destruct (dq_status dq); [congruence|reflexivity|reflexivity].
    + destruct (on_step 2 st) eqn:S; [|cbn; lia].
      unfold computeBtn_disabled.
      destruct (records (state st)) as [|r rs] eqn:R; [cbn; lia|]. cbn [andb negb].
      apply Z.eqb_eq in S.
      destruct (computeClick_cases st) as [->|(H1 & H2 & _)]; [congruence|lia|].
      rewrite H1, S. intros _. split; [reflexivity|].
      cbn [gate_met]. destruct (live_kpis _); [congruence|reflexivity].
    + destruct (on_step 3 st) eqn:S; [|cbn; lia].
      destruct (negb (lockBtn_disabled st)); [|cbn; lia]. cbn [andb].
      apply Z.eqb_eq in S. unfold lockClick. rewrite stepIndex_nextStep.
      cbn [lock set state with_lockedSnapshot stepIndex]. rewrite S.
      intros _. split; reflexivity.
  - intros dq Hdq Hred. unfold dispatch, Wizard.dispatch in *.
    destruct (on_step 1 st && negb (mapBtn_disabled st)); [|reflexivity].
    fold applyMappingClick in *.
    destruct (applyMappingClick_cases st) as [->|(rs & dq' & [[R ->]|[R E]])];
      [reflexivity|reflexivity|].
    rewrite E in Hdq. cbn in Hdq. congruence.
  - intros H. unfold dispatch, Wizard.dispatch, computeBtn_disabled. rewrite H.
    rewrite andb_false_r. reflexivity.
  - intros now H. unfold dispatch, Wizard.dispatch, lockBtn_disabled. rewrite H.
    rewrite andb_false_r. reflexivity.
  - intros idx H1 H2. unfold dispatch, Wizard.dispatch, navClick, canGo.
    assert ((idx <? length steps)%nat = true) as -> by (apply Nat.ltb_lt; exact H1).
    assert ((Z.of_nat idx <=? stepIndex (state st)) = true) as ->
      by (apply Z.leb_le; exact H2).
    reflexivity.
  - intros e He. destruct e as [idx|ev|gf|key idx value| | |now|b|msg];
      unfold dispatch, Wizard.dispatch; try discriminate; try reflexivity.
    + unfold navClick. destruct (idx <? length steps)%nat; [|reflexivity].
      destruct (canGo (state st) idx); reflexivity.
    + destruct ev as [|fn sh hri hs rs|msg|]; try reflexivity.
      * apply (handleProgress_sheet fn sh hri hs rs st).
      * discriminate.
    + destruct (on_step 0 st); reflexivity.
    + destruct (on_step 1 st); [|reflexivity]. unfold selectChange.
      destruct (obj_get _ key) as [m|]; [|reflexivity].
      destruct (suggestions m !! idx); reflexivity.
    + destruct (on_step 1 st && negb (mapBtn_disabled st)); [|reflexivity].
      fold applyMappingClick.
      destruct (applyMappingClick_cases st) as [->|(rs & dq & [[R ->]|[R ->]])];
        reflexivity.
    + destruct (on_step 2 st && negb (computeBtn_disabled st)) eqn:S; [|reflexivity].
      apply andb_true_iff in S as [_ S]. unfold computeBtn_disabled in S.
      destruct (computeClick_cases st) as [->|(_ & _ & H)];
        [destruct (records (state st)); [discriminate|congruence]|reflexivity|exact H].
    + destruct (on_step 3 st && negb (lockBtn_disabled st)); reflexivity.
Qed.

(** The frontier is the current step: after a click back to an earlier step,
    a click on the button of the step just left changes nothing. *)
Lemma frontier_is_current_step (st : Store) (idx : nat) :
  (idx < 5)%nat ->
  Z.of_nat idx < stepIndex (state st) ->
  forall later : nat,
    Z.of_nat idx < Z.of_nat later ->
    dispatch (NavClick later) (dispatch (NavClick idx) st)
    = dispatch (NavClick idx) st.
Proof.
  intros H1 H2 later H3. unfold dispatch, Wizard.dispatch, navClick, canGo.
  assert ((idx <? length steps)%nat = true) as -> by (apply Nat.ltb_lt; exact H1).
  assert ((Z.of_nat idx <=? stepIndex (state st)) = true) as ->
    by (apply Z.leb_le; lia).
  cbn [set state with_stepIndex stepIndex].
  assert ((Z.of_nat later <=? Z.of_nat idx) = false) as ->
    by (apply Z.leb_gt; exact H3).
  destruct (later <? length steps)%nat; reflexivity.
Qed.

End WizardFacts.

(* ===================================================================== *)
(** * The wizard: the states of a session                                  *)
(* ===================================================================== *)

Section ReachableFacts.

Import Store Wizard Fixtures Aux.
Local Open Scope Z_scope.

Variable Number_toString : number -> string.

Lemma wf_structuredClone (st : Store) :
  wf_store st ->
  wf_store (structuredClone st) /\ live_kpis (structuredClone st) = live_kpis st.
Proof.
  intros [Ha Hls]. unfold wf_store, live_kpis.
  cbn [structuredClone state heap kpis with_lockedSnapshot with_kpis with_thresholds].
  rewrite elems_at_clone by exact Ha. unfold clone_all at 1 2.
  rewrite length_app, length_map. split; [split|].
  - apply Nat.add_lt_mono_l, Ha.
  - apply Forall_fmap. eapply Forall_impl; [exact Hls|]. intros l Hl. cbn. apply Nat.add_lt_mono_l, Hl.
  - apply read_kpis_clone; assumption.
Qed.

Lemma gate_met_same (k : Z) (st st' : Store) :
  (mappings (state st) <> [] -> mappings (state st') <> []) ->
  dataQuality (state st') = dataQuality (state st) ->
  live_kpis st' = live_kpis st ->
  (is_Some (lockedSnapshot (state st)) -> is_Some (lockedSnapshot (state st'))) ->
  gate_met k st = true -> gate_met k st' = true.
Proof.
  intros Hm Hd Hk Hl. unfold gate_met. rewrite Hd, Hk.
  destruct k as [|[[| |]|[| |]|]|]; try discriminate; try tauto.
  - destruct (mappings (state st)); [discriminate|]. intros _.
    destruct (mappings (state st')); [|reflexivity]. exfalso. apply Hm; [discriminate|reflexivity].
  - destruct (lockedSnapshot (state st)); [|discriminate]. intros _.
    destruct Hl as [x Hx]; [eauto|]. rewrite Hx. reflexivity.
Qed.

Lemma keeps_gates_set (f : WizardState -> WizardState) :
  harmless f -> keeps_gates (set f).
Proof.
  intros Hf st [Ha Hls]. destruct (Hf (state st)) as (Hk & Hl & Hd & Hm).
  split.
  - unfold wf_store. cbn [set state heap]. rewrite Hk. split; assumption.
  - intros k. apply gate_met_same.
    + exact Hm.
    + exact Hd.
    + unfold live_kpis. cbn [set state heap]. rewrite Hk. reflexivity.
    + exact Hl.
Qed.

Lemma keeps_gates_clone : keeps_gates structuredClone.
Proof.
  intros st Hwf. destruct (wf_structuredClone st Hwf) as [Hwf' Hk].
  split; [exact Hwf'|]. intros k. apply gate_met_same.
  - tauto.
  - reflexivity.
  - exact Hk.
  - cbn [structuredClone state with_lockedSnapshot lockedSnapshot].
    intros [x ->]. eexists. reflexivity.
Qed.

Lemma keeps_gates_compose (t u : Store -> Store) :
  keeps_gates t -> keeps_gates u -> keeps_gates (fun st => u (t st)).
Proof.
  intros Ht Hu st Hwf. destruct (Ht st Hwf) as [W1 G1].
  destruct (Hu (t st) W1) as [W2 G2]. split; [exact W2|]. intros k H. apply G2, G1, H.
Qed.

Lemma keeps_gates_update (f : WizardState -> WizardState) :
  harmless f -> keeps_gates (update (assign f)).
Proof.
  intros Hf. unfold update, assign.
  apply (keeps_gates_compose structuredClone (set f)).
  - apply keeps_gates_clone.
  - apply keeps_gates_set, Hf.
Qed.

Lemma keeps_gates_fold {A} (t : A -> Store -> Store) (l : list A) :
  (forall a, keeps_gates (t a)) ->
  keeps_gates (fun st => fold_left (fun acc a => t a acc) l st).
Proof.
  intros Ht. induction l as [|a l IH]; intros st Hwf.
  - split; [exact Hwf|tauto].
  - cbn [fold_left]. destruct (Ht a st Hwf) as [W1 G1].
    destruct (IH (t a st) W1) as [W2 G2]. split; [exact W2|].
    intros k H. apply G2, G1, H.
Qed.

Lemma harmless_stepIndex v : harmless (fun s => with_stepIndex (v s) s).
Proof. intros s. repeat split; auto. Qed.

Lemma harmless_detected v : harmless (fun s => with_detected (v s) s).
Proof. intros s. repeat split; auto. Qed.

Lemma harmless_sheets v : harmless (fun s => with_sheets (v s) s).
Proof. intros s. repeat split; auto. Qed.

Lemma harmless_mappings key m :
  harmless (fun s => with_mappings (obj_set (mappings s) key m) s).
Proof.
  intros s. repeat split; auto. intros _. cbn. apply obj_set_not_nil.
Qed.

Lemma harmless_error v : harmless (with_error v).
Proof. intros s. repeat split; auto. Qed.

Lemma harmless_gridFactor v : harmless (with_gridFactor v).
Proof. intros s. repeat split; auto. Qed.

Lemma harmless_busy v : harmless (with_busy v).
Proof. intros s. repeat split; auto. Qed.

Lemma keeps_gates_nextStep : keeps_gates nextStep.
Proof.
  apply (keeps_gates_update (fun s => with_stepIndex (Z.min 4 (stepIndex s + 1)) s)).
  apply harmless_stepIndex.
Qed.

Lemma gated_start : gated (start None).
Proof.
  split; [|split].
  - split; [cbn; lia|constructor].
  - cbn. lia.
  - cbn. intros k Hk. lia.
Qed.

Lemma harmless_lockedSnapshot snap : harmless (with_lockedSnapshot (Some snap)).
Proof. intros s. repeat split; auto. Qed.

Lemma handleProgress_keeps (ev : ProgressEvent) :
  keeps_gates (Wizard.handleProgress Number_toString ev).
Proof.
  intros st Hwf. destruct ev as [|fn sh hri hs rs|msg|].
  - split; [exact Hwf|tauto].
  - unfold Wizard.handleProgress. cbv zeta.
    set (key := (fn ?? "Upload") +:+ "::" +:+ sh).
    set (m := {| sheetName := sh; headerRowIndex := hri;
                 suggestions := Mapper.suggestMapping hs |}).
    destruct (keeps_gates_update _ (harmless_mappings key m) st Hwf) as [W1 G1].
    fold (setMapping key m st) in W1, G1.
    set (st1 := setMapping key m st) in *.
    set (data := {| headers := hs;
                    rows := match obj_get (sheets (state st1)) key with
                            | Some existing => rows existing ++ rs
                            | None => rs
                            end |}).
    destruct (keeps_gates_update _ (harmless_sheets
                (fun s => obj_set (sheets s) key data)) st1 W1) as [W2 G2].
    fold (setSheet key data st1) in W2, G2.
    set (st2 := setSheet key data st1) in *.
    destruct (keeps_gates_fold
                (fun r => addDetected
                            [detected_of Number_toString (fn ?? "Upload") sh r]) rs
                (fun r => keeps_gates_update _
                            (harmless_detected (fun s => detected s ++ _))) st2 W2)
      as [W3 G3].
    set (st3 := fold_left _ rs st2) in *.
    destruct (stepIndex (state st3) =? 0).
    + destruct (keeps_gates_nextStep st3 W3) as [W4 G4]. split; [exact W4|].
      intros k H. apply G4, G3, G2, G1, H.
    + split; [exact W3|]. intros k H. apply G3, G2, G1, H.
  - apply (keeps_gates_set _ (harmless_error (Some msg))). exact Hwf.
  - split; [exact Hwf|tauto].
Qed.

(** Every event keeps the invariant. *)
Lemma gated_dispatch (e : Event) (st : Store) :
  gated st -> gated (Wizard.dispatch Number_toString e st).
Proof.
  intros Hg. pose proof Hg as (Hwf & Hrange & Hgates).
  destruct e as [idx|ev|gf|key idx value| | |now|b|msg]; unfold Wizard.dispatch.
  - unfold navClick, canGo.
    destruct (idx <? length steps)%nat eqn:L; [|exact Hg].
    destruct (Z.of_nat idx <=? stepIndex (state st)) eqn:E; [|exact Hg].
    apply Z.leb_le in E. apply Nat.ltb_lt in L. cbn [length steps] in L.
    destruct (keeps_gates_set _ (harmless_stepIndex (fun _ => Z.of_nat idx)) st Hwf)
      as [W G].
    split; [exact W|]. split; [cbn; lia|].
    intros k Hk. apply G, Hgates. cbn in Hk. lia.
  - destruct (handleProgress_keeps ev st Hwf) as [W G].
    split; [exact W|].
    destruct ev as [|fn sh hri hs rs|msg|]; try (split; [exact Hrange|]; intros k Hk;
      apply G, Hgates; exact Hk).
    destruct (handleProgress_sheet Number_toString fn sh hri hs rs st) as (H1 & H2 & _).
    rewrite H1. destruct (stepIndex (state st) =? 0) eqn:E.
    + split; [lia|]. intros k Hk. assert (k = 0) as -> by lia.
      cbn [gate_met]. destruct (mappings _); [congruence|reflexivity].
    + split; [exact Hrange|]. intros k Hk. apply G, Hgates, Hk.
  - destruct (on_step 0 st); [|exact Hg].
    destruct (keeps_gates_set _ (harmless_gridFactor gf) st Hwf) as [W G].
    split; [exact W|]. split; [exact Hrange|]. intros k Hk. apply G, Hgates, Hk.
  - destruct (on_step 1 st); [|exact Hg].
    unfold selectChange.
    destruct (obj_get _ key) as [m|]; [|exact Hg].
    destruct (suggestions m !! idx) as [sug|]; [|exact Hg].
    match goal with
    | |- gated (setMapping key ?m' st) =>
        destruct (keeps_gates_update _ (harmless_mappings key m') st Hwf) as [W G]
    end.
    split; [exact W|]. split; [exact Hrange|]. intros k Hk. apply G, Hgates, Hk.
  - destruct (on_step 1 st) eqn:S; [|exact Hg].
    destruct (negb (mapBtn_disabled st)); [|exact Hg]. cbn [andb].
    apply Z.eqb_eq in S.
    destruct (applyMappingClick_cases Number_toString st)
      as [->|(rs & dq & [[R ->]|[R ->]])]; [exact Hg| |].
    + split; [exact Hwf|]. split; [exact Hrange|]. intros k Hk.
      cbn [set state with_dataQuality with_records stepIndex] in Hk.
      assert (k = 0) as -> by lia. apply (Hgates 0). lia.
    + set (st1 := set (fun s => with_dataQuality (Some dq) (with_records rs s)) st).
      assert (wf_store st1) as W1 by exact Hwf.
      destruct (keeps_gates_nextStep st1 W1) as [W G].
      split; [exact W|]. rewrite stepIndex_nextStep.
      cbn [st1 set state with_dataQuality with_records stepIndex]. rewrite S.
      split; [lia|]. intros k Hk.
      assert (k = 0 \/ k = 1) as [->| ->] by lia.
      * apply G. apply (Hgates 0). lia.
      * cbn. destruct (dq_status dq); [congruence|reflexivity|reflexivity].
  - destruct (on_step 2 st) eqn:S; [|exact Hg].
    unfold computeBtn_disabled.
    destruct (records (state st)) as [|r rs] eqn:R; [exact Hg|].
    cbn [andb negb]. apply Z.eqb_eq in S.
    destruct (computeClick_cases st) as [->|(H1 & H2 & _)];
      [congruence|exact Hg|].
    assert (wf_store (computeClick st) /\
            (forall k, k <> 2 -> gate_met k st = true ->
                       gate_met k (computeClick st) = true)) as [W G].
    { unfold computeClick in *. cbv zeta in *.
      destruct (thresholds_at (heap st) (thresholds (state st))) as [thr|];
        [|split; [exact Hwf|tauto]].
      set (ks := Engine.computeKPIs _ _ _ thr) in *.
      destruct (alloc_kpis_spec (heap st) ks) as (ext & E1 & E2 & E3 & E4 & E5 & E6).
      destruct (alloc_kpis (heap st) ks) as [h a]. cbn [fst snd] in *. subst h.
      set (st2 := setKPIs a {| heap := heap st ++ ext; state := state st |}) in *.
      assert (wf_store st2) as W2 by (split; assumption).
      destruct (keeps_gates_nextStep st2 W2) as [W G]. split; [exact W|].
      intros k Hk H. apply G.
      revert H. unfold gate_met.
      destruct k as [|[[| |]|[| |]|]|]; try discriminate; try congruence; tauto. }
    split; [exact W|]. rewrite H1, S. split; [lia|]. intros k Hk.
    assert (k = 2 \/ (k <> 2 /\ 0 <= k < 2)) as [->|[Hne Hlt]] by lia.
    + cbn [gate_met]. destruct (live_kpis _); [congruence|reflexivity].
    + apply G; [exact Hne|]. apply Hgates. lia.
  - destruct (on_step 3 st) eqn:S; [|exact Hg].
    destruct (negb (lockBtn_disabled st)); [|exact Hg]. cbn [andb].
    apply Z.eqb_eq in S. unfold lockClick.
    match goal with
    | |- gated (nextStep (lock now st)) =>
        destruct (keeps_gates_set _ (harmless_lockedSnapshot
           {| taken_at := now; snap_kpis := kpis (state st);
              totals := {| count := length (elems_at (heap st) (kpis (state st)));
                           totalCO2e := sum_total (read_kpis (heap st) (kpis (state st))) |};
              snap_thresholds := thresholds (state st) |}) st Hwf) as [W1 G1]
    end.
    fold (lock now st) in W1, G1.
    destruct (keeps_gates_nextStep (lock now st) W1) as [W G].
    split; [exact W|]. rewrite stepIndex_nextStep.
    cbn [lock set state with_lockedSnapshot stepIndex]. rewrite S.
    split; [lia|]. intros k Hk.
    assert (k = 3 \/ 0 <= k < 3) as [->|Hlt] by lia.
    + reflexivity.
    + apply G, G1, Hgates. lia.
  - destruct (keeps_gates_set _ (harmless_busy b) st Hwf) as [W G].
    split; [exact W|]. split; [exact Hrange|]. intros k Hk. apply G, Hgates, Hk.
  - destruct (keeps_gates_set _ (harmless_error (Some msg)) st Hwf) as [W G].
    split; [exact W|]. split; [exact Hrange|]. intros k Hk. apply G, Hgates, Hk.
Qed.

(** In a session that starts afresh, whatever happens, the step index stays
    in 0..4 and every stage before the current one has its gate met. *)
Lemma gated_run (es : list Event) :
  gated (Wizard.run Number_toString es (start None)).
Proof.
  unfold Wizard.run. generalize gated_start. generalize (start None).
  induction es as [|e es IH]; intros st H; [exact H|].
  cbn [fold_left]. apply IH, gated_dispatch, H.
Qed.

End ReachableFacts.

(* ===================================================================== *)
(** * The statements at concrete inputs                                    *)
(* ===================================================================== *)

Section Witnesses.

Import Store Wizard Fixtures.
Local Open Scope string_scope.
Local Open Scope list_scope.

(** C3 at the start of a session and after a sheet with a negative value was
    captured. *)
Lemma navigation_is_gated_witness :
  Wizard.dispatch no_text (NavClick 3) (start None) = start None /\
  (stepIndex (state captured_store) = (stepIndex (state (start None)) + 1)%Z /\
   gate_met (stepIndex (state (start None))) captured_store = true) /\
  stepIndex (state (Wizard.dispatch no_text ApplyMappingClick captured_store))
  = stepIndex (state captured_store) /\
  Wizard.dispatch no_text ComputeClick (start None) = start None /\
  Wizard.dispatch no_text (LockClick "t") (start None) = start None /\
  Wizard.dispatch no_text (NavClick 0) captured_store
  = set (with_stepIndex 0) captured_store /\
  current_error (state (Wizard.dispatch no_text (NavClick 0) captured_store))
  = current_error (state captured_store).
Proof.
  destruct (navigation_is_gated no_text (start None)) as (A & G & _ & C & L & _ & _).
  destruct (navigation_is_gated no_text captured_store) as (_ & _ & R & _ & _ & B & E).
  split; [apply (A 3%nat); reflexivity|].
  split; [apply (G (Progress negative_sheet)); reflexivity|].
  split; [eapply R; [vm_compute; reflexivity|reflexivity]|].
  split; [apply C; reflexivity|].
  split; [apply L; reflexivity|].
  split; [apply (B 0%nat); [lia|vm_compute; discriminate]|].
  apply E. reflexivity.
Defined.


(** C9 on the headers of the mapping test: no header names the water field. *)
Lemma suggestMapping_one_per_field_witness :
  Mapper.suggestMapping mapping_test_headers !! 6%nat
  = Some {| target := "Water_L"; fromHeader := None; confidence := Fin 0 |}.
Proof.
  destruct (suggestMapping_one_per_field mapping_test_headers) as (_ & _ & _ & H).
  apply (H 6%nat ("Water_L",
                  ["water"; "water_l"; "water (l)"; "liters"; "consumption water"])).
  - reflexivity.
  - intros h Hh. unfold mapping_test_headers in Hh.
    repeat (apply elem_of_cons in Hh as [->|Hh]; [vm_compute; reflexivity|]).
    inversion Hh.
Defined.

End Witnesses.

(* ===================================================================== *)
(** * The KPI engine: bounds                                            *)
(* ===================================================================== *)

Section EngineBounds.

Import Engine Fixtures Plausible.

Lemma default_nonneg (o : option number) (d : Q) :
  absent_or_nonneg o -> 0 <= d -> exists q, o ?? Fin d = Fin q /\ 0 <= q.
Proof.
  destruct o as [[| |q]|]; cbn; intros H Hd; try contradiction; eauto.
Qed.

Lemma cents_mono (x y : Q) :
  x <= y ->
  inject_Z (Qfloor (x * 100 + (1 # 2))) / 100
  <= inject_Z (Qfloor (y * 100 + (1 # 2))) / 100.
Proof.
  intros H.
  assert (Qfloor (x * 100 + (1 # 2)) <= Qfloor (y * 100 + (1 # 2)))%Z as L
    by (apply Qfloor_resp_le; lra).
  rewrite Zle_Qle in L.
  set (a := inject_Z (Qfloor (x * 100 + (1 # 2)))) in *.
  set (b := inject_Z (Qfloor (y * 100 + (1 # 2)))) in *.
  assert (a / 100 == a * (1 # 100)) as -> by field.
  assert (b / 100 == b * (1 # 100)) as -> by field.
  lra.
Qed.

(** The parts of a record with plausible inputs. *)
Lemma parts_plausible grid lifetimeYears r :
  plausible grid lifetimeYears r ->
  exists t m p u : Q,
    transport r = Fin t /\ materials r = Fin m /\ production r = Fin p /\
    use grid lifetimeYears r = Fin u /\
    total grid lifetimeYears r = Fin (t + m + p + u) /\
    0 <= t /\ 0 <= m /\ 0 <= p /\ 0 <= u.
Proof.
  intros (Ht & Hm & Hp & Hu & Hf & Hl).
  destruct (default_nonneg _ 0 Ht) as (t & Et & Pt); [lra|].
  destruct (default_nonneg _ 0 Hm) as (m & Em & Pm); [lra|].
  destruct (default_nonneg _ 0 Hp) as (p & Ep & Pp); [lra|].
  destruct (default_nonneg _ 0 Hu) as (u & Eu & Pu); [lra|].
  destruct (default_nonneg _ 0.25 Hf) as (f & Ef & Pf); [lra|].
  destruct (default_nonneg _ 10 Hl) as (l & El & Pl); [lra|].
  exists t, m, p, (u * f * l / 1000).
  unfold total, transport, materials, production, use, life.
  rewrite Et, Em, Ep, Eu, Ef, El. cbn [nmul nadd ndiv].
  change (Qzero 1000) with false. cbn iota.
  repeat split; try assumption.
  assert (0 <= u * f) by (apply Qmult_le_0_compat; assumption).
  assert (0 <= u * f * l) by (apply Qmult_le_0_compat; assumption).
  assert (u * f * l / 1000 == u * f * l * (1 # 1000)) as -> by field.
  lra.
Qed.

Lemma share_range (u tot : Q) :
  0 <= u -> u <= tot ->
  0 <= SpecWords.share_pct u tot <= 100.
Proof.
  intros Hu Hut. unfold SpecWords.share_pct.
  destruct (tot ?= 0) eqn:E; try lra.
  apply Qgt_alt in E.
  assert (0 <= u / tot) as A by (apply Qle_shift_div_l; [exact E|lra]).
  assert (u / tot <= 1) as B by (apply Qle_shift_div_r; [exact E|lra]).
  lra.
Qed.

Lemma cents_nonneg (q : Q) :
  0 <= q -> 0 <= inject_Z (Qfloor (q * 100 + (1 # 2))) / 100.
Proof.
  intros H. pose proof (cents_mono 0 q H) as L.
  eapply Qle_trans; [|exact L]. vm_compute. discriminate.
Qed.

Lemma kpi_bounds (grid : GridFactors) (lifetimeYears : Lifetimes)
    (thresholds : Thresholds) (r : MappedRecord) :
  plausible grid lifetimeYears r ->
  within_bounds (kpi grid lifetimeYears thresholds r).
Proof.
  intros H.
  destruct (parts_plausible _ _ _ H)
    as (t & m & p & u & Et & Em & Ep & Eu & Etot & Pt & Pm & Pp & Pu).
  assert (u <= t + m + p + u) as Hut by lra.
  pose proof (share_range u (t + m + p + u) Pu Hut) as [S0 S1].
  unfold within_bounds, kpi.
  cbn [stageBreakdown sb_Transport sb_Materials sb_Production sb_Use
       UsePhase_CO2e Total_CO2e UsePhase_Share_Pct].
  unfold share. rewrite Et, Em, Ep, Eu, Etot, share_Fin, !round_Fin.
  do 6 eexists. repeat (split; [reflexivity|]).
  repeat split; try (apply cents_nonneg; assumption); try (apply cents_mono; lra).
  eapply Qle_trans; [apply cents_mono; exact S1|]. vm_compute. discriminate.
Qed.



End EngineBounds.

(* ===================================================================== *)
(** * Validation: composition and status                                *)
(* ===================================================================== *)

Section ValidatorMore.

Import Validator SpecWords Aux Fixtures Quality.
Local Open Scope string_scope.
Local Open Scope list_scope.
Local Open Scope Q_scope.

Lemma issues_of_shift (d row : nat) (r : MappedRecord) :
  issues_of (d + row) r = map (shift_row d) (issues_of row r).
Proof.
  unfold issues_of, req. cbn [mbind list_bind app].
  destruct (verdict (get r FTransport)) as [[]|], (verdict (get r FMaterials)) as [[]|],
    (verdict (get r FProduction)) as [[]|], (verdict (get r FUse)) as [[]|]; reflexivity.
Qed.

Lemma is_error_shift d i : is_error (shift_row d i) = is_error i.
Proof. reflexivity. Qed.

Lemma existsb_shift d l : existsb is_error (map (shift_row d) l) = existsb is_error l.
Proof. induction l as [|i l IH]; [reflexivity|]. cbn. rewrite IH. reflexivity. Qed.

Lemma status_of_issues rs :
  dq_status (validate rs)
  = if existsb is_error (issues (validate rs)) then red
    else match issues (validate rs) with [] => green | _ => amber end.
Proof. reflexivity. Qed.

(** Validating two lists one after the other: the issues of the second list
    follow those of the first with their rows moved down by the length of the
    first, and the status is the worse of the two. *)
Theorem validate_app (a b : list MappedRecord) :
  issues (validate (a ++ b))
  = issues (validate a) ++ map (shift_row (length a)) (issues (validate b)) /\
  dq_status (validate (a ++ b))
  = worse (dq_status (validate a)) (dq_status (validate b)).
Proof.
  assert (issues (validate (a ++ b))
          = issues (validate a) ++ map (shift_row (length a)) (issues (validate b)))
    as E.
  { rewrite !issues_validate, imap_app, concat_app. f_equal.
    induction b as [|r b IH] using rev_ind; [reflexivity|].
    rewrite !imap_app, !concat_app, map_app, IH. f_equal.
    cbn [imap concat]. rewrite !app_nil_r, Nat.add_0_r.
    unfold compose. rewrite <- Nat.add_assoc. apply issues_of_shift. }
  split; [exact E|].
  rewrite !status_of_issues, E, existsb_app, existsb_shift.
  destruct (existsb is_error (issues (validate a))),
    (existsb is_error (issues (validate b))),
    (issues (validate a)), (issues (validate b)); reflexivity.
Qed.

Lemma verdict_none v : verdict v = None <-> acceptable v.
Proof.
  unfold verdict, acceptable. destruct v as [[|[]|q]|]; cbn.
  - split; [discriminate|]. intros (q & H & _); discriminate.
  - split; [discriminate|]. intros (q & H & _); discriminate.
  - split; [discriminate|]. intros (q & H & _); discriminate.
  - unfold nlt, ngt. cbn [ncompare].
    destruct (q ?= 0) eqn:E0.
    + apply Qeq_alt in E0. destruct (q ?= 10000000) eqn:E1.
      * split; [intros _|reflexivity]. exists q. split; [reflexivity|]. apply Qeq_alt in E1. lra.
      * split; [intros _|reflexivity]. exists q. split; [reflexivity|]. lra.
      * apply Qgt_alt in E1. lra.
    + apply Qlt_alt in E0. split; [discriminate|]. intros (q' & [= <-] & H). lra.
    + apply Qgt_alt in E0. destruct (q ?= 10000000) eqn:E1.
      * split; [intros _|reflexivity]. exists q. split; [reflexivity|]. apply Qeq_alt in E1. lra.
      * split; [intros _|reflexivity]. exists q. split; [reflexivity|]. apply Qlt_alt in E1. lra.
      * apply Qgt_alt in E1. split; [discriminate|]. intros (q' & [= <-] & H). lra.
  - split; [discriminate|]. intros (q & H & _); discriminate.
Qed.

Lemma verdict_error v : (exists msg, verdict v = Some (error, msg)) <-> unusable v.
Proof.
  unfold verdict, unusable. destruct v as [[|[]|q]|]; cbn.
  - split; eauto.
  - split; eauto.
  - split; [intros (m & H); discriminate|].
    intros [H|[H|[H|(q & H & _)]]]; discriminate.
  - unfold nlt, ngt. cbn [ncompare]. destruct (q ?= 0) eqn:E0.
    + apply Qeq_alt in E0. split.
      * intros (m & H). destruct (q ?= 10000000); discriminate.
      * intros [H|[H|[H|(q' & [= <-] & H)]]]; try discriminate. lra.
    + apply Qlt_alt in E0. split; eauto 10.
    + apply Qgt_alt in E0. split.
      * intros (m & H). destruct (q ?= 10000000); discriminate.
      * intros [H|[H|[H|(q' & [= <-] & H)]]]; try discriminate. lra.
  - split; eauto.
Qed.

Lemma issues_of_nil row r :
  issues_of row r = [] <-> forall f, verdict (get r f) = None.
Proof.
  unfold issues_of, req. cbn [mbind list_bind app]. split.
  - intros H f.
    destruct (verdict (get r FTransport)) as [[]|] eqn:A; [discriminate|].
    destruct (verdict (get r FMaterials)) as [[]|] eqn:B; [discriminate|].
    destruct (verdict (get r FProduction)) as [[]|] eqn:C; [discriminate|].
    destruct (verdict (get r FUse)) as [[]|] eqn:D; [discriminate|].
    destruct f; assumption.
  - intros H. rewrite !H. reflexivity.
Qed.

Lemma issues_nil_iff (records : list MappedRecord) :
  issues (validate records) = [] <->
  forall r f, r ∈ records -> acceptable (get r f).
Proof.
  split.
  - intros E r f Hr. apply verdict_none.
    destruct (verdict (get r f)) as [[sev msg]|] eqn:V; [|reflexivity].
    apply list_elem_of_lookup in Hr as [idx Hr].
    assert (issue (idx + 1) f sev msg ∈ issues (validate records)) as Hin
      by (apply issue_reported; eauto).
    rewrite E in Hin. inversion Hin.
  - intros H. destruct (issues (validate records)) as [|i l] eqn:E; [reflexivity|].
    assert (i ∈ issues (validate records)) as Hin by (rewrite E; constructor).
    apply elem_of_issues in Hin as (idx & r & f & sev & msg & Hr & V & _).
    apply list_elem_of_lookup_2 in Hr.
    apply H with (f := f), verdict_none in Hr. congruence.
Qed.

Lemma status_green_iff (records : list MappedRecord) :
  dq_status (validate records) = green <->
  forall r f, r ∈ records -> acceptable (get r f).
Proof.
  rewrite status_of_issues, <- issues_nil_iff.
  destruct (existsb is_error (issues (validate records))) eqn:E.
  - split; [discriminate|]. intros H. rewrite H in E. discriminate.
  - destruct (issues (validate records)); split; congruence.
Qed.

Lemma status_red_iff (records : list MappedRecord) :
  dq_status (validate records) = red <->
  exists r f, r ∈ records /\ unusable (get r f).
Proof.
  rewrite status_of_issues.
  destruct (existsb is_error (issues (validate records))) eqn:E.
  - split; [intros _|reflexivity].
    apply has_error_Exists, Exists_exists in E as (i & Hin & Hs).
    apply elem_of_issues in Hin as (idx & r & f & sev & msg & Hr & V & ->).
    cbn in Hs. subst sev. exists r, f. split.
    + eapply list_elem_of_lookup_2, Hr.
    + apply verdict_error. eauto.
  - split; [destruct (issues (validate records)); discriminate|].
    intros (r & f & Hr & U). apply verdict_error in U as [msg V].
    apply list_elem_of_lookup in Hr as [idx Hr].
    assert (issue (idx + 1) f error msg ∈ issues (validate records)) as Hin
      by (apply issue_reported; eauto).
    apply no_error_Forall in E. rewrite Forall_forall in E.
    apply E in Hin. cbn in Hin. congruence.
Qed.

(** The status in terms of the data: green exactly when every required value
    of every record is a finite number from 0 to 1e7 (so for no record at
    all), red exactly when some required value is null, NaN or below 0. *)
Theorem status_from_data (records : list MappedRecord) :
  (dq_status (validate records) = green <->
     forall r f, r ∈ records -> acceptable (get r f)) /\
  (dq_status (validate records) = red <->
     exists r f, r ∈ records /\ unusable (get r f)) /\
  dq_status (validate []) = green.
Proof.
  split; [apply status_green_iff|]. split; [apply status_red_iff|reflexivity].
Qed.

End ValidatorMore.

(* ===================================================================== *)
(** * Mapping: the suggested header                                     *)
(* ===================================================================== *)

Section MapperMore.

Import Mapper Aux Fixtures.
Local Open Scope string_scope.
Local Open Scope list_scope.
Local Open Scope Q_scope.

Lemma startsWith_refl (s : string) : startsWith s s = true.
Proof.
  induction s as [|c s IH]; [reflexivity|]. cbn. rewrite Ascii.eqb_refl. exact IH.
Qed.

Lemma includes_refl (s : string) : includes s s = true.
Proof. destruct s; cbn; [reflexivity|]. rewrite Ascii.eqb_refl, startsWith_refl. reflexivity. Qed.

Lemma exact_includes (syns : list string) (n : string) :
  existsb (fun s => String.eqb s n) syns = true ->
  existsb (fun s => includes n s) syns = true.
Proof.
  induction syns as [|s syns IH]; [discriminate|]. cbn [existsb].
  intros H. apply orb_true_iff in H as [H|H]; apply orb_true_iff.
  - apply String.eqb_eq in H. subst s. left. apply includes_refl.
  - right. apply IH, H.
Qed.

(** A header scores 0, 1 or 1.5: an exact match is also a partial one. *)
Lemma header_score_three (syns : list string) (n : string) :
  header_score syns n = Fin 0 \/
  (exists q, header_score syns n = Fin q /\ 1 <= q /\
             Math_min (Fin 1) (Fin q) = Fin 1).
Proof.
  unfold header_score.
  destruct (existsb (fun s => String.eqb s n) syns) eqn:E.
  - rewrite (exact_includes _ _ E). right. eexists. split; [reflexivity|].
    split; [|reflexivity]. vm_compute. discriminate.
  - destruct (existsb (fun s => includes n s) syns).
    + right. eexists. split; [reflexivity|]. split; [|reflexivity].
      vm_compute. discriminate.
    + left. reflexivity.
Qed.

Lemma header_score_Fin syns n : exists q, header_score syns n = Fin q /\ 0 <= q.
Proof.
  destruct (header_score_three syns n) as [->|(q & -> & H & _)].
  - exists 0. split; [reflexivity|]. lra.
  - exists q. split; [reflexivity|]. lra.
Qed.

(** The running best after the loop: the starting one if no header scored
    above it, or else the first header with the highest score. *)
Lemma fold_consider_first (syns : list string) (norm : list (string * string)) :
  forall (best : Best) (q : Q),
    score best = Fin q -> 0 <= q ->
    let b := fold_left (consider syns) norm best in
    (b = best /\
     forall h, h ∈ norm -> nle (header_score syns (snd h)) (Fin q) = true) \/
    (exists j h,
        norm !! j = Some h /\
        b = {| from := Some (fst h); score := header_score syns (snd h) |} /\
        nlt (Fin q) (header_score syns (snd h)) = true /\
        forall j' h',
          norm !! j' = Some h' ->
          nle (header_score syns (snd h')) (header_score syns (snd h)) = true /\
          ((j' < j)%nat ->
           nlt (header_score syns (snd h')) (header_score syns (snd h)) = true)).
Proof.
  induction norm as [|h norm IH] using rev_ind; intros best q Hs Hq; cbv zeta.
  - left. split; [reflexivity|]. intros h Hh. inversion Hh.
  - rewrite fold_left_app. cbn [fold_left].
    destruct (header_score_Fin syns (snd h)) as (x & Ex & Px).
    destruct (IH best q Hs Hq) as [[-> A]|(j & h0 & Hj & -> & G & A)].
    + destruct (consider_cases syns best h) as [[C ->]|[C ->]].
      * right. exists (length norm), h.
        rewrite Hs, Ex in C. apply ngt_Fin in C.
        split; [apply list_lookup_middle; reflexivity|].
        split; [reflexivity|]. split; [rewrite Ex; apply nlt_Fin; exact C|].
        intros j' h' Hj'.
        destruct (decide (j' < length norm)%nat) as [L|L].
        -- rewrite lookup_app_l in Hj' by exact L.
           apply list_elem_of_lookup_2, A in Hj'.
           destruct (header_score_Fin syns (snd h')) as (y & Ey & Py).
           rewrite Ey, Ex in *. apply nle_Fin in Hj'.
           split; [apply nle_Fin; lra|]. intros _. apply nlt_Fin. lra.
        -- rewrite lookup_app_r in Hj' by lia.
           destruct (j' - length norm)%nat eqn:D; [|destruct n; discriminate].
           injection Hj' as <-. split; [rewrite Ex; apply nle_Fin; lra|]. lia.
      * left. split; [reflexivity|]. intros h' Hh'.
        apply elem_of_app in Hh' as [Hh'|Hh']; [apply A, Hh'|].
        apply list_elem_of_singleton in Hh'. subst h'.
        rewrite Hs, Ex in C. rewrite Ex. apply nle_Fin.
        destruct (Qlt_le_dec q x) as [L|L]; [|exact L].
        apply ngt_Fin in L. congruence.
    + destruct (header_score_Fin syns (snd h0)) as (y & Ey & Py).
      right.
      destruct (consider_cases syns
                  {| from := Some (fst h0); score := header_score syns (snd h0) |} h)
        as [[C ->]|[C ->]]; cbn [score] in C.
      * exists (length norm), h.
        rewrite Ey, Ex in C. apply ngt_Fin in C.
        rewrite Ey in G. apply nlt_Fin in G.
        split; [apply list_lookup_middle; reflexivity|].
        split; [reflexivity|]. split; [rewrite Ex; apply nlt_Fin; lra|].
        intros j' h' Hj'.
        destruct (decide (j' < length norm)%nat) as [L|L].
        -- rewrite lookup_app_l in Hj' by exact L.
           apply A in Hj' as [Hj' _].
           destruct (header_score_Fin syns (snd h')) as (z & Ez & Pz).
           rewrite Ez, Ey, Ex in *. apply nle_Fin in Hj'.
           split; [apply nle_Fin; lra|]. intros _. apply nlt_Fin. lra.
        -- rewrite lookup_app_r in Hj' by lia.
           destruct (j' - length norm)%nat eqn:D; [|destruct n; discriminate].
           injection Hj' as <-. split; [rewrite Ex; apply nle_Fin; lra|]. lia.
      * exists j, h0.
        split; [rewrite lookup_app_l; [exact Hj|eapply lookup_lt_Some, Hj]|].
        split; [reflexivity|]. split; [exact G|].
        intros j' h' Hj'.
        destruct (decide (j' < length norm)%nat) as [L|L].
        -- rewrite lookup_app_l in Hj' by exact L. apply A, Hj'.
        -- rewrite lookup_app_r in Hj' by lia.
           destruct (j' - length norm)%nat eqn:D; [|destruct n; discriminate].
           injection Hj' as <-.
           rewrite Ey, Ex in *.
           assert (x <= y) as Le.
           { destruct (Qlt_le_dec y x) as [L'|L']; [|exact L'].
             apply ngt_Fin in L'. congruence. }
           split; [apply nle_Fin; exact Le|].
           intros L'. apply lookup_lt_Some in Hj. lia.
Qed.

(** The suggestion for a field is the first header with the highest score,
    with confidence 1, or no header, with confidence 0, when every header
    scores 0; an exact match outranks an earlier partial one. *)
Theorem suggestMapping_first_best (headers : list string) (i : nat)
    (entry : string * list string) :
  synonymTable !! i = Some entry ->
  let score_of h := header_score (synonyms_of entry) (normalizeHeader h) in
  exists s,
    suggestMapping headers !! i = Some s /\ target s = fst entry /\
    ((fromHeader s = None /\ confidence s = Fin 0 /\
      forall h, h ∈ headers -> score_of h = Fin 0) \/
     (exists j h,
         headers !! j = Some h /\ fromHeader s = Some h /\ confidence s = Fin 1 /\
         nlt (Fin 0) (score_of h) = true /\
         forall j' h',
           headers !! j' = Some h' ->
           nle (score_of h') (score_of h) = true /\
           ((j' < j)%nat -> nlt (score_of h') (score_of h) = true))).
Proof.
  intros Hi. cbv zeta. rewrite suggestMapping_map, list_lookup_fmap, Hi.
  cbn [fmap option_fmap option_map]. eexists. split; [reflexivity|].
  split; [reflexivity|].
  unfold suggestion_of. cbv zeta. cbn [fromHeader confidence].
  set (norm := map (fun h => (h, normalizeHeader h)) headers).
  destruct (fold_consider_first (synonyms_of entry) norm
              {| from := None; score := Fin 0 |} 0 eq_refl (Qle_refl 0))
    as [[-> A]|(j & h & Hj & -> & G & A)].
  - left. split; [reflexivity|]. split; [reflexivity|]. intros h Hh.
    assert ((h, normalizeHeader h) ∈ norm) as Hn.
    { unfold norm. apply list_elem_of_fmap. exists h. auto. }
    apply A in Hn. cbn [snd] in Hn.
    destruct (header_score_three (synonyms_of entry) (normalizeHeader h))
      as [E|(q & E & P & _)]; [exact E|].
    rewrite E in Hn. apply nle_Fin in Hn. lra.
  - right. unfold norm in Hj. rewrite list_lookup_fmap in Hj.
    destruct (headers !! j) as [h0|] eqn:Hh; [|discriminate].
    cbn in Hj. injection Hj as <-. cbn [fst snd score from] in *.
    exists j, h0. split; [exact Hh|]. split; [reflexivity|].
    split.
    { destruct (header_score_three (synonyms_of entry) (normalizeHeader h0))
        as [E|(q & E & P & M)].
      - rewrite E in G. apply nlt_Fin in G. lra.
      - rewrite E. exact M. }
    split; [exact G|].
    intros j' h' Hj'. apply (A j' (h', normalizeHeader h')).
    unfold norm. rewrite list_lookup_fmap, Hj'. reflexivity.
Qed.

End MapperMore.

(* ===================================================================== *)
(** * Mapping: applying a mapping                                       *)
(* ===================================================================== *)

Section MapperApply.

Import Mapper Validator Aux Fixtures MapNotions Quality.
Local Open Scope string_scope.
Local Open Scope list_scope.
Local Open Scope Q_scope.

Variable Number_toString : number -> string.

Lemma fieldFrom_of_ext (m m' : MappingForSheet) :
  suggestions m = suggestions m' -> fieldFrom_of m = fieldFrom_of m'.
Proof. unfold fieldFrom_of. intros ->. reflexivity. Qed.

Lemma fieldFrom_of_snoc (m m' : MappingForSheet) (s : MapSuggestion) (t : string) :
  suggestions m = suggestions m' ++ [s] ->
  fieldFrom_of m !! t
  = if decide (target s = t) then header_of s else fieldFrom_of m' !! t.
Proof.
  unfold fieldFrom_of, header_of. intros ->. rewrite fold_left_app. cbn [fold_left].
  destruct (fromHeader s) as [h|].
  - destruct (String.eqb h ""); destruct (decide (target s = t)) as [->|N].
    + apply lookup_delete_eq.
    + apply lookup_delete_ne, N.
    + apply lookup_insert_eq.
    + apply lookup_insert_ne, N.
  - destruct (decide (target s = t)) as [->|N].
    + apply lookup_delete_eq.
    + apply lookup_delete_ne, N.
Qed.


(** A target no suggestion names is not in [fieldFrom]. *)
Lemma fieldFrom_of_none (t : string) (l : list MapSuggestion) :
  forall m, suggestions m = l ->
  Forall (fun s => target s <> t) l -> fieldFrom_of m !! t = None.
Proof.
  induction l as [|s l IH] using rev_ind; intros m E H.
  - unfold fieldFrom_of. rewrite E. reflexivity.
  - apply Forall_app in H as [H1 H2]. rewrite Forall_singleton in H2.
    rewrite (fieldFrom_of_snoc m (with_suggestions m l) s t E).
    destruct (decide (target s = t)) as [e|_]; [exfalso; exact (H2 e)|].
    apply IH; [reflexivity|exact H1].
Qed.

(** The last suggestion for a target decides its entry. *)
Lemma fieldFrom_of_last (s : MapSuggestion) (pre post : list MapSuggestion) :
  forall m, suggestions m = pre ++ s :: post ->
  Forall (fun s' => target s' <> target s) post ->
  fieldFrom_of m !! target s = header_of s.
Proof.
  induction post as [|s' post IH] using rev_ind; intros m E H.
  - rewrite (fieldFrom_of_snoc m (with_suggestions m pre) s (target s) E).
    destruct (decide (target s = target s)); [reflexivity|contradiction].
  - apply Forall_app in H as [H1 H2]. rewrite Forall_singleton in H2.
    rewrite (fieldFrom_of_snoc m (with_suggestions m (pre ++ s :: post)) s' (target s)).
    + destruct (decide (target s' = target s)) as [e|_]; [exfalso; exact (H2 e)|].
      apply IH; [reflexivity|exact H1].
    + rewrite E. unfold with_suggestions. cbn [suggestions].
      rewrite <- app_assoc. reflexivity.
Qed.

Lemma last_occurrence {A} (P : A -> Prop) `{!forall x, Decision (P x)} (l : list A) :
  Forall (fun x => ~ P x) l \/
  exists pre x post, l = pre ++ x :: post /\ P x /\ Forall (fun y => ~ P y) post.
Proof.
  induction l as [|x l IH] using rev_ind; [left; constructor|].
  destruct (decide (P x)) as [Hx|Hx].
  - right. exists l, x, []. auto.
  - destruct IH as [IH|(pre & y & post & -> & Hy & Hp)].
    + left. apply Forall_app. split; [exact IH|]. constructor; [exact Hx|constructor].
    + right. exists pre, y, (post ++ [x]). split; [rewrite <- app_assoc; reflexivity|].
      split; [exact Hy|]. apply Forall_app. split; [exact Hp|].
      constructor; [exact Hx|constructor].
Qed.

(** [missing] holds exactly the required targets whose last suggestion has no
    header or an empty one, and those without a suggestion; an earlier
    suggestion for the same target does not count. *)
Theorem applyMapping_missing (rows : list Row) (m : MappingForSheet) (t : string) :
  t ∈ snd (applyMapping Number_toString rows m) <->
  t ∈ requiredTargets /\
  forall pre s post,
    suggestions m = pre ++ s :: post -> target s = t ->
    Forall (fun s' => target s' <> t) post ->
    fromHeader s = None \/ fromHeader s = Some "".
Proof.
  unfold applyMapping. cbv zeta. cbn [snd]. rewrite list_elem_of_filter.
  split; intros [H1 H2].
  - split; [exact H2|]. intros pre s post E <- Hp.
    rewrite (fieldFrom_of_last s pre post m E Hp) in H1.
    unfold header_of in H1. destruct (fromHeader s) as [h|]; [|auto].
    destruct (String.eqb h "") eqn:Eh; [|discriminate].
    apply String.eqb_eq in Eh. subst h. auto.
  - split; [|exact H1].
    destruct (last_occurrence (fun s => target s = t) (suggestions m))
      as [N|(pre & s & post & E & <- & Hp)].
    + apply (fieldFrom_of_none t (suggestions m) m eq_refl N).
    + rewrite (fieldFrom_of_last s pre post m E Hp).
      destruct (H2 pre s post E eq_refl Hp) as [F|F]; unfold header_of; rewrite F;
        reflexivity.
Qed.

Lemma get_record_of (fieldFrom : gmap string string) (r : Row) (f : ReqField) :
  get (record_of Number_toString fieldFrom r) f
  = toNum Number_toString (mapped_cell fieldFrom r (field_name f)).
Proof. destruct f; reflexivity. Qed.

Lemma field_name_required (f : ReqField) : field_name f ∈ requiredTargets.
Proof. destruct f; unfold requiredTargets; set_solver. Qed.

(** A required numeric field that is reported missing makes every record
    lack it, so that validation is red when there is any row: unless the rows
    have a column named "undefined", which is then read instead. *)
Theorem missing_required_field_is_red (rows : list Row) (m : MappingForSheet)
    (f : ReqField) :
  rows <> [] ->
  (forall r, r ∈ rows -> r !! "undefined" = None) ->
  field_name f ∈ snd (applyMapping Number_toString rows m) ->
  let records := fst (applyMapping Number_toString rows m) in
  length records = length rows /\
  (forall rec, rec ∈ records -> get rec f = None) /\
  dq_status (validate records) = red.
Proof.
  intros Hne Hu Hm. cbv zeta.
  unfold applyMapping in *. cbv zeta in *. cbn [fst snd] in *.
  apply list_elem_of_filter in Hm as [Hm _].
  assert (forall rec, rec ∈ map (record_of Number_toString (fieldFrom_of m)) rows ->
                      get rec f = None) as A.
  { intros rec Hrec. apply list_elem_of_fmap in Hrec as (r & -> & Hr).
    rewrite get_record_of. unfold mapped_cell, prop. rewrite Hm. cbn [default].
    rewrite (Hu r Hr). reflexivity. }
  split; [apply length_map|]. split; [exact A|].
  apply status_red_iff.
  destruct rows as [|r rows]; [contradiction|].
  exists (record_of Number_toString (fieldFrom_of m) r), f. split; [constructor|].
  left. apply A. constructor.
Qed.


End MapperApply.

(* ===================================================================== *)
(** * Numeric coercion: separators                                      *)
(* ===================================================================== *)

Section CoercionMore.

Import Mapper NumNotions.
Local Open Scope string_scope.
Local Open Scope list_scope.

Variable Number_toString : number -> string.


Lemma dots_strip (s : string) :
  dots (strip_non_numeric (commas_to_dots s)) = separators s.
Proof.
  induction s as [|c s IH]; [reflexivity|].
  cbn [commas_to_dots strip_non_numeric separators].
  destruct (Ascii.eqb c ",") eqn:E1.
  - change (is_numeric_char ".") with true. cbn iota. cbn [dots orb Ascii.eqb].
    rewrite IH. reflexivity.
  - destruct (Ascii.eqb c ".") eqn:E2.
    + apply Ascii.eqb_eq in E2. subst c. change (is_numeric_char ".") with true.
      cbn iota. cbn [dots orb Ascii.eqb]. rewrite IH. reflexivity.
    + cbn [orb]. destruct (is_numeric_char c) eqn:N.
      * cbn [dots]. rewrite E2, IH. reflexivity.
      * exact IH.
Qed.

Lemma digits_value_dot (s : string) : forall acc,
  (1 <= dots s)%nat -> digits_value acc s = None.
Proof.
  induction s as [|c s IH]; intros acc H; [cbn in H; lia|].
  cbn [digits_value dots] in *.
  destruct (Ascii.eqb c ".") eqn:E.
  - apply Ascii.eqb_eq in E. subst c. reflexivity.
  - destruct (is_digit c); [|reflexivity]. apply IH. cbn in H. exact H.
Qed.

Lemma split_dot_dots (s : string) :
  (2 <= dots s)%nat ->
  exists ip c fp, split_dot s = (ip, Some (String c fp)) /\ (1 <= dots (String c fp))%nat.
Proof.
  induction s as [|c s IH]; intros H; [cbn in H; lia|].
  cbn [split_dot dots] in *. destruct (Ascii.eqb c ".") eqn:E.
  - destruct s as [|d s]; [cbn in H; lia|]. exists "", d, s. split; [reflexivity|].
    cbn [dots] in *. lia.
  - destruct (IH H) as (ip & d & fp & -> & G). exists (String c ip), d, fp. auto.
Qed.

Lemma unsigned_decimal_dots (s : string) :
  (2 <= dots s)%nat -> unsigned_decimal s = None.
Proof.
  intros H. unfold unsigned_decimal.
  destruct (split_dot_dots s H) as (ip & c & fp & -> & G).
  rewrite (digits_value_dot _ 0%Z G).
  destruct ip; destruct (digits_value 0 _); reflexivity.
Qed.

Lemma Number_dots (s : string) : (2 <= dots s)%nat -> Number_ s = NaN.
Proof.
  intros H. destruct s as [|c s]; [cbn in H; lia|]. unfold Number_.
  destruct (Ascii.eqb c "-") eqn:E.
  - apply Ascii.eqb_eq in E. subst c. cbn [dots] in H.
    rewrite unsigned_decimal_dots; [reflexivity|exact H].
  - rewrite unsigned_decimal_dots; [reflexivity|exact H].
Qed.

(** A text with two or more commas or dots, such as a number written with
    thousands separators, is coerced to null. *)
Theorem toNum_two_separators (s : string) :
  (2 <= separators s)%nat -> toNum Number_toString (VStr s) = None.
Proof.
  intros H. destruct s as [|c s]; [cbn in H; lia|].
  rewrite toNum_string. cbv zeta.
  rewrite Number_dots; [reflexivity|]. rewrite dots_strip. exact H.
Qed.

End CoercionMore.

(* ===================================================================== *)
(** * The ingestion worker                                              *)
(* ===================================================================== *)

Section IngestionFacts.

Import Ingestion IngNotions.
Local Open Scope string_scope.
Local Open Scope list_scope.
Local Open Scope nat_scope.

Variable Number_toString : number -> string.

Lemma chunkSize_pos : 0 < chunkSize.
Proof. unfold chunkSize. lia. Qed.

Lemma chunk_loop_spec {A} (rows : list A) : forall fuel i,
  length rows - i <= fuel ->
  concat (chunk_loop fuel i rows) = drop i rows /\
  Forall (fun c => c <> [] /\ length c <= chunkSize) (chunk_loop fuel i rows) /\
  length (chunk_loop fuel i rows)
  = (length rows - i + (chunkSize - 1)) / chunkSize.
Proof.
  pose proof chunkSize_pos as P.
  induction fuel as [|fuel IH]; intros i Hf.
  - cbn [chunk_loop concat]. rewrite drop_ge by lia.
    split; [reflexivity|]. split; [constructor|].
    replace (length rows - i) with 0 by lia. cbn [Nat.add length].
    symmetry. apply Nat.div_small. lia.
  - cbn [chunk_loop]. destruct (i <? length rows) eqn:E.
    + apply Nat.ltb_lt in E.
      destruct (IH (i + chunkSize)) as (I1 & I2 & I3); [lia|].
      cbn [concat length]. rewrite I1, I3. split; [|split].
      * rewrite <- (drop_drop rows chunkSize i) || rewrite <- drop_drop.
        apply take_drop.
      * constructor; [|exact I2]. split.
        -- intros N. apply (f_equal length) in N.
           rewrite length_take, length_drop in N. cbn [length] in N. lia.
        -- rewrite length_take. lia.
      * destruct (le_lt_dec chunkSize (length rows - i)) as [L|L].
        -- replace (length rows - i + (chunkSize - 1))
             with (length rows - (i + chunkSize) + (chunkSize - 1) + 1 * chunkSize)
             by lia.
           rewrite Nat.div_add by lia. lia.
        -- replace (length rows - (i + chunkSize)) with 0 by lia.
           cbn [Nat.add]. rewrite (Nat.div_small (chunkSize - 1)) by lia.
           apply Nat.div_unique with (r := length rows - i - 1); lia.
    + apply Nat.ltb_ge in E. cbn [concat length]. rewrite drop_ge by lia.
      split; [reflexivity|]. split; [constructor|].
      replace (length rows - i) with 0 by lia. cbn [Nat.add].
      symmetry. apply Nat.div_small. lia.
Qed.

(** The loop cuts the rows into consecutive chunks: put together they are the
    rows, each has between 1 and 1000 rows, and there are
    ceil(length / 1000) of them, so none for no rows. *)
Theorem chunks_partition {A} (rows : list A) :
  concat (chunks rows) = rows /\
  Forall (fun c => c <> [] /\ length c <= chunkSize) (chunks rows) /\
  length (chunks rows) = (length rows + (chunkSize - 1)) / chunkSize /\
  (forall k c, chunks rows !! k = Some c ->
               c = take chunkSize (drop (k * chunkSize) rows)).
Proof.
  unfold chunks.
  destruct (chunk_loop_spec rows (length rows) 0) as (H1 & H2 & H3); [lia|].
  rewrite Nat.sub_0_r in H3. split; [exact H1|]. split; [exact H2|].
  split; [exact H3|].
  assert (forall fuel i k c,
            chunk_loop fuel i rows !! k = Some c ->
            c = take chunkSize (drop (i + k * chunkSize) rows)) as G.
  { induction fuel as [|fuel IH]; intros i k c; cbn [chunk_loop]; [discriminate|].
    destruct (i <? length rows); [|discriminate].
    destruct k as [|k]; cbn [lookup list_lookup].
    - intros [= <-]. rewrite Nat.add_0_r. reflexivity.
    - intros Hk. apply IH in Hk. rewrite Hk. do 2 f_equal. lia. }
  intros k c Hk. apply (G _ 0 k c Hk).
Qed.


(** ** Rows as objects *)

Lemma fromEntries_snoc (entries : list (string * JsValue)) (e : string * JsValue) :
  fromEntries (entries ++ [e]) = <[e.1 := e.2]> (fromEntries entries).
Proof. unfold fromEntries. rewrite fold_left_app. reflexivity. Qed.

Lemma row_object_snoc (headers : list string) (h : string) (r : list JsValue) :
  row_object (headers ++ [h]) r
  = <[h := cell_at r (length headers)]> (row_object headers r).
Proof.
  unfold row_object. rewrite imap_app. cbn [imap]. rewrite fromEntries_snoc.
  cbn [fst snd]. rewrite Nat.add_0_r. reflexivity.
Qed.

(** The object of a row has a property for every header: that of the header
    at index [j] holds the cell at index [j], or [undefined] when the row is
    shorter; when a header text occurs twice, the later column wins; cells
    beyond the headers are dropped. *)
Theorem row_object_lookup (headers : list string) (r : list JsValue) :
  (forall j h,
      headers !! j = Some h ->
      (forall j', j < j' -> headers !! j' <> Some h) ->
      row_object headers r !! h = Some (cell_at r j)) /\
  (forall h, h ∉ headers -> row_object headers r !! h = None) /\
  (forall j, cell_at r j = match r !! j with Some v => v | None => VUndefined end) /\
  dom (row_object headers r) = list_to_set headers.
Proof.
  split; [|split; [|split]].
  - induction headers as [|h0 headers IH] using rev_ind; intros j h Hj Hlast;
      [discriminate|].
    rewrite row_object_snoc.
    destruct (decide (j < length headers)) as [L|L].
    + rewrite lookup_app_l in Hj by exact L.
      assert (h0 <> h) as N.
      { intros ->. apply (Hlast (length headers) L).
        rewrite lookup_app_r by lia. rewrite Nat.sub_diag. reflexivity. }
      rewrite lookup_insert_ne by exact N. apply IH; [exact Hj|].
      intros j' Hj' E. apply (Hlast j' Hj').
      rewrite lookup_app_l; [exact E|eapply lookup_lt_Some, E].
    + rewrite lookup_app_r in Hj by lia.
      destruct (j - length headers) as [|n] eqn:D; [|destruct n; discriminate].
      injection Hj as ->. rewrite lookup_insert_eq. do 2 f_equal. lia.
  - induction headers as [|h0 headers IH] using rev_ind; intros h Hn;
      [reflexivity|].
    rewrite row_object_snoc. apply not_elem_of_app in Hn as [Hn1 Hn2].
    apply not_elem_of_cons in Hn2 as [Hn2 _].
    rewrite lookup_insert_ne by congruence. apply IH, Hn1.
  - intros j. unfold cell_at. destruct (r !! j); reflexivity.
  - induction headers as [|h0 headers IH] using rev_ind.
    + unfold row_object, fromEntries. cbn. apply dom_empty_L.
    + rewrite row_object_snoc, dom_insert_L, IH, list_to_set_app_L.
      cbn [list_to_set]. rewrite union_empty_r_L. apply union_comm_L.
Qed.

(** ** The messages of one sheet *)

Lemma concat_map_map {A B} (f : A -> B) (ls : list (list A)) :
  concat (map (map f) ls) = map f (concat ls).
Proof.
  induction ls as [|l ls IH]; [reflexivity|]. cbn. rewrite IH, map_app. reflexivity.
Qed.

Lemma chunks_nil_iff {A} (rows : list A) : chunks rows = [] <-> rows = [].
Proof.
  destruct (chunk_loop_spec rows (length rows) 0) as (H1 & _ & _); [lia|].
  fold (chunks rows) in H1. split.
  - intros E. rewrite E in H1. cbn in H1. symmetry. exact H1.
  - intros ->. reflexivity.
Qed.

Lemma sheet_messages_spec (fileName s : string) (aoa : list (list JsValue)) :
  let hri := Worker.autoDetectHeaderRow Number_toString aoa in
  let headers := map (fun h => String_ Number_toString (nullish h (VStr "")))
                     (aoa !! hri ?? []) in
  sheet_messages Number_toString fileName s aoa
  = map (fun rs => MsgSheet (Some fileName) s hri headers rs)
        (map (map (row_object headers)) (chunks (drop (hri + 1) aoa))).
Proof. cbv zeta. unfold sheet_messages. cbv zeta. rewrite map_map. reflexivity. Qed.

(** The messages of a sheet carry, in order and in chunks of 1 to 1000, the
    objects of all the rows below the detected header row, each with the same
    header row index and headers; a sheet without a row below its header row
    gives no message. *)
Theorem sheet_messages_carry_all_rows (fileName s : string)
    (aoa : list (list JsValue)) :
  let hri := Worker.autoDetectHeaderRow Number_toString aoa in
  let headers := map (fun h => String_ Number_toString (nullish h (VStr "")))
                     (aoa !! hri ?? []) in
  let msgs := sheet_messages Number_toString fileName s aoa in
  concat (map rows_of msgs) = map (row_object headers) (drop (hri + 1) aoa) /\
  Forall (fun m => exists rs,
              m = MsgSheet (Some fileName) s hri headers rs /\
              rs <> [] /\ length rs <= chunkSize) msgs /\
  length msgs = (length aoa - (hri + 1) + (chunkSize - 1)) / chunkSize /\
  (msgs = [] <-> length aoa <= hri + 1).
Proof.
  cbv zeta. rewrite sheet_messages_spec. cbv zeta.
  set (hri := Worker.autoDetectHeaderRow Number_toString aoa).
  set (headers := map _ (aoa !! hri ?? [])).
  set (rows := drop (hri + 1) aoa).
  destruct (chunk_loop_spec rows (length rows) 0) as (H1 & H2 & H3); [lia|].
  fold (chunks rows) in H1, H2, H3. rewrite drop_0 in H1.
  split; [|split; [|split]].
  - rewrite map_map. cbn [rows_of]. rewrite <- H1 at 2.
    rewrite <- concat_map_map. f_equal. rewrite map_map. reflexivity.
  - apply Forall_fmap, Forall_fmap. eapply Forall_impl; [exact H2|].
    intros c [Hc1 Hc2]. cbn. eexists. split; [reflexivity|].
    split; [|rewrite length_map; exact Hc2].
    destruct c; [contradiction|discriminate].
  - rewrite !length_map, H3. unfold rows. rewrite length_drop, Nat.sub_0_r.
    reflexivity.
  - split.
    + intros E. apply fmap_nil_inv, fmap_nil_inv in E.
      apply (proj1 (chunks_nil_iff _)) in E.
      assert (length (drop (hri + 1) aoa) = 0) as E0
        by (fold rows; rewrite E; reflexivity).
      rewrite length_drop in E0. lia.
    + intros L. assert (rows = []) as -> by (unfold rows; apply drop_ge; lia).
      reflexivity.
Qed.

(** ** The protocol of a parse *)

Lemma sheet_messages_chunks (fileName s : string) (aoa : list (list JsValue))
    (names : list string) :
  s ∈ names ->
  Forall (is_chunk fileName names) (sheet_messages Number_toString fileName s aoa).
Proof.
  intros Hs. rewrite sheet_messages_spec. cbv zeta.
  set (rows := drop _ aoa).
  destruct (chunk_loop_spec rows (length rows) 0) as (_ & H2 & _); [lia|].
  fold (chunks rows) in H2.
  apply Forall_fmap, Forall_fmap. eapply Forall_impl; [exact H2|].
  intros c [Hc1 Hc2]. cbn. split; [reflexivity|]. split; [exact Hs|].
  split; [destruct c; [contradiction|discriminate]|].
  rewrite length_map. exact Hc2.
Qed.

Lemma parse_sheets_shape (fileName : string) (wb : Workbook) (all : list string) :
  forall names : list string,
    (forall s, s ∈ names -> s ∈ all) ->
    exists body last,
      parse_sheets Number_toString fileName wb names = body ++ [last] /\
      Forall (is_chunk fileName all) body /\
      is_terminal last /\
      (last = MsgDone <->
       Forall (fun s => exists aoa, sheet_rows wb s = inr aoa) names).
Proof.
  induction names as [|s names IH]; intros Hsub; cbn [parse_sheets].
  - exists [], MsgDone. split; [reflexivity|]. split; [constructor|].
    split; [left; reflexivity|]. split; [constructor|reflexivity].
  - destruct (sheet_rows wb s) as [e|aoa] eqn:E.
    + exists [], (MsgError e). split; [reflexivity|]. split; [constructor|].
      split; [right; eauto|]. split; [discriminate|].
      intros F. apply Forall_cons in F as [[aoa Ha] _]. congruence.
    + destruct IH as (body & last & E1 & E2 & E3 & E4).
      { intros s' Hs'. apply Hsub. right. exact Hs'. }
      exists (sheet_messages Number_toString fileName s aoa ++ body), last.
      rewrite E1, app_assoc. split; [reflexivity|]. split.
      * apply Forall_app. split; [|exact E2].
        apply sheet_messages_chunks, Hsub. left.
      * split; [exact E3|]. rewrite E4, Forall_cons. split; [|tauto].
        intros F. split; [eauto|exact F].
Qed.

Lemma settle_settled (up : bool) (msgs : list OutMsg) (p : Settled) :
  p <> Pending -> fold_left (settle_step up) msgs p = p.
Proof.
  revert p. induction msgs as [|m msgs IH]; intros p Hp; [reflexivity|].
  cbn [fold_left]. destruct p as [|meta|e]; [contradiction| |]; apply IH; discriminate.
Qed.

(** What a parse posts: when the file cannot be read, the error message
    alone, and the promise of [parseFile] is rejected; otherwise the meta
    message with the names of the sheets, then chunks of sheets of the file,
    then one last message, [done] exactly when every sheet could be
    converted and an error otherwise, and the promise is resolved, with the
    file name and the sheet names, even when a sheet then fails. *)
Theorem handleParse_protocol (read : string + Workbook) (fileName : string)
    (from_upload : bool) :
  let msgs := handleParse Number_toString read fileName in
  match read with
  | inl e => msgs = [MsgError e] /\ settle from_upload msgs = Rejected e
  | inr wb =>
      (exists body last,
          msgs = MsgMeta fileName (SheetNames wb) :: body ++ [last] /\
          Forall (is_chunk fileName (SheetNames wb)) body /\
          is_terminal last /\
          (last = MsgDone <->
           Forall (fun s => exists aoa, sheet_rows wb s = inr aoa) (SheetNames wb))) /\
      settle from_upload msgs
      = Resolved {| file_name := fileName; from_upload := from_upload;
                    sheetNames := SheetNames wb |}
  end.
Proof.
  cbv zeta. destruct read as [e|wb]; cbn [handleParse].
  - split; reflexivity.
  - split.
    + destruct (parse_sheets_shape fileName wb (SheetNames wb) (SheetNames wb))
        as (body & last & E1 & E2 & E3 & E4); [auto|].
      exists body, last. rewrite E1. auto.
    + unfold settle. cbn [fold_left settle_step]. apply settle_settled. discriminate.
Qed.

End IngestionFacts.

(* ===================================================================== *)
(** * The store: what the references read                               *)
(* ===================================================================== *)

Section ReadingFacts.

Import Store StoreMore Reading Fixtures.
Local Open Scope list_scope.

Lemma kpi_at_lt (h : Heap) (l : loc) : is_Some (kpi_at h l) -> (l < length h)%nat.
Proof.
  unfold kpi_at. intros [k H]. destruct (h !! l) eqn:E; [|discriminate].
  eapply lookup_lt_Some, E.
Qed.

Lemma thresholds_ok_lt (h : Heap) (t : loc) : thresholds_ok h t -> (t < length h)%nat.
Proof.
  unfold thresholds_ok, thresholds_at. intros [k H].
  destruct (h !! t) eqn:E; [|discriminate]. eapply lookup_lt_Some, E.
Qed.

Lemma array_ok_lt (h : Heap) (a : loc) :
  array_ok h a ->
  (a < length h)%nat /\ Forall (fun l => (l < length h)%nat) (elems_at h a).
Proof.
  intros (ls & E & F). split; [eapply lookup_lt_Some, E|].
  unfold elems_at. rewrite E. eapply Forall_impl; [exact F|].
  intros l. apply kpi_at_lt.
Qed.

Lemma array_ok_ext (h ext : Heap) (a : loc) :
  array_ok h a ->
  array_ok (h ++ ext) a /\ read_kpis (h ++ ext) a = read_kpis h a.
Proof.
  intros Ha. destruct (array_ok_lt _ _ Ha) as [L F].
  destruct Ha as (ls & E & K). split.
  - exists ls. split; [rewrite lookup_app_l by exact L; exact E|].
    eapply Forall_impl; [exact K|]. intros l Hl. cbv beta.
    rewrite kpi_at_ext; [exact Hl|apply kpi_at_lt, Hl].
  - unfold read_kpis. rewrite elems_at_ext by exact L. apply omap_kpi_at_ext, F.
Qed.

Lemma thresholds_ok_ext (h ext : Heap) (t : loc) :
  thresholds_ok h t ->
  thresholds_ok (h ++ ext) t /\ thresholds_at (h ++ ext) t = thresholds_at h t.
Proof.
  intros Ht. pose proof (thresholds_ok_lt _ _ Ht) as L.
  unfold thresholds_ok. rewrite thresholds_at_ext by exact L. auto.
Qed.

Lemma array_ok_clone (h : Heap) (a : loc) :
  array_ok h a ->
  array_ok (clone_all h) (length h + a) /\
  read_kpis (clone_all h) (length h + a) = read_kpis h a.
Proof.
  intros Ha. destruct (array_ok_lt _ _ Ha) as [L F].
  split; [|apply read_kpis_clone; assumption].
  destruct Ha as (ls & E & K).
  exists (map (Nat.add (length h)) ls). split.
  - rewrite lookup_clone_all by exact L. rewrite E. reflexivity.
  - apply Forall_fmap. eapply Forall_impl; [exact K|]. intros l Hl. cbn.
    rewrite kpi_at_clone; [exact Hl|apply kpi_at_lt, Hl].
Qed.

Lemma thresholds_ok_clone (h : Heap) (t : loc) :
  thresholds_ok h t ->
  thresholds_ok (clone_all h) (length h + t) /\
  thresholds_at (clone_all h) (length h + t) = thresholds_at h t.
Proof.
  intros Ht. pose proof (thresholds_ok_lt _ _ Ht) as L.
  unfold thresholds_ok. rewrite thresholds_at_clone by exact L. auto.
Qed.

(** The heap may grow: a typed state reads the same in a longer heap. *)
Lemma typed_ext (h ext : Heap) (s : WizardState) :
  typed h s -> typed (h ++ ext) s /\ read_state (h ++ ext) s = read_state h s.
Proof.
  intros (Hk & Ht & Hs). unfold typed, read_state.
  destruct (array_ok_ext h ext _ Hk) as [K1 K2].
  destruct (thresholds_ok_ext h ext _ Ht) as [T1 T2].
  rewrite K2, T2. destruct (lockedSnapshot s) as [snap|]; [|auto].
  destruct Hs as [Sk St].
  destruct (array_ok_ext h ext _ Sk) as [A1 A2].
  destruct (thresholds_ok_ext h ext _ St) as [B1 B2].
  split; [auto|]. cbn [fmap option_fmap option_map]. unfold read_snapshot.
  rewrite A2, B2. reflexivity.
Qed.

(** [structuredClone]: the copy reads as the original, through other
    references. *)
Lemma refs_ok_structuredClone (st : Store) :
  refs_ok st ->
  refs_ok (structuredClone st) /\ reading (structuredClone st) = reading st.
Proof.
  intros (Hk & Ht & Hs). unfold refs_ok, typed, reading, read_state.
  cbn [structuredClone state heap kpis thresholds lockedSnapshot
       with_lockedSnapshot with_kpis with_thresholds].
  destruct (array_ok_clone _ _ Hk) as [K1 K2].
  destruct (thresholds_ok_clone _ _ Ht) as [T1 T2].
  rewrite K2, T2. destruct (lockedSnapshot (state st)) as [snap|]; [|auto].
  destruct Hs as [Sk St].
  destruct (array_ok_clone _ _ Sk) as [A1 A2].
  destruct (thresholds_ok_clone _ _ St) as [B1 B2].
  cbn [fmap option_fmap option_map shift_snapshot snap_kpis snap_thresholds].
  split; [auto|]. unfold read_snapshot, shift_snapshot.
  cbn [snap_kpis snap_thresholds taken_at totals]. rewrite A2, B2. reflexivity.
Qed.

Lemma typed_keeps_refs (f : WizardState -> WizardState) (h : Heap) (s : WizardState) :
  keeps_refs f -> typed h s -> typed h (f s) /\ read_state h (f s) = read_state h s.
Proof.
  intros K H. destruct (K s) as (E1 & E2 & E3). unfold typed, read_state in *.
  rewrite E1, E2, E3. auto.
Qed.

Lemma refs_ok_set (f : WizardState -> WizardState) (st : Store) :
  keeps_refs f -> refs_ok st ->
  refs_ok (set f st) /\ reading (set f st) = reading st.
Proof. intros K H. apply (typed_keeps_refs f (heap st) (state st) K H). Qed.

Lemma refs_ok_update (f : WizardState -> WizardState) (st : Store) :
  keeps_refs f -> refs_ok st ->
  refs_ok (update (assign f) st) /\ reading (update (assign f) st) = reading st.
Proof.
  intros K H. destruct (refs_ok_structuredClone st H) as [H1 H2].
  destruct (refs_ok_set f _ K H1) as [H3 H4]. unfold update, assign.
  split; [exact H3|]. rewrite H4. exact H2.
Qed.

Lemma heap_update_assign (f : WizardState -> WizardState) (st : Store) :
  heap (update (assign f) st) = clone_all (heap st).
Proof. reflexivity. Qed.


Lemma keeps_stepIndex v : keeps_refs (fun s => with_stepIndex (v s) s).
Proof. keeps. Qed.
Lemma keeps_files v : keeps_refs (fun s => with_files (v s) s).
Proof. keeps. Qed.
Lemma keeps_detected v : keeps_refs (fun s => with_detected (v s) s).
Proof. keeps. Qed.
Lemma keeps_mappings v : keeps_refs (fun s => with_mappings (v s) s).
Proof. keeps. Qed.
Lemma keeps_sheets v : keeps_refs (fun s => with_sheets (v s) s).
Proof. keeps. Qed.
Lemma keeps_lifetimeYears v : keeps_refs (fun s => with_lifetimeYears (v s) s).
Proof. keeps. Qed.
Lemma keeps_records v : keeps_refs (fun s => with_records (v s) s).
Proof. keeps. Qed.
Lemma keeps_dataQuality v : keeps_refs (fun s => with_dataQuality (v s) s).
Proof. keeps. Qed.
Lemma keeps_gridFactor v : keeps_refs (with_gridFactor v).
Proof. keeps. Qed.
Lemma keeps_busy v : keeps_refs (with_busy v).
Proof. keeps. Qed.
Lemma keeps_error v : keeps_refs (with_error v).
Proof. keeps. Qed.

(** The operations of the store that go through [update] work on a copy of
    the state: every reference of the state changes, and the live list, the
    thresholds and the snapshot read as before.  The operations that go
    through [set] with a plain value keep the references themselves. *)
Theorem store_operations_keep_reading (st : Store) :
  refs_ok st ->
  (forall op : Store -> Store,
      op ∈ [nextStep; prevStep] \/
      (exists meta, op = addFile meta) \/ (exists dp, op = addDetected dp) \/
      (exists key m, op = setMapping key m) \/
      (exists key data, op = setSheet key data) \/
      (exists cat years, op = setLifetime cat years) ->
      refs_ok (op st) /\ reading (op st) = reading st /\
      heap (op st) = clone_all (heap st) /\
      kpis (state (op st)) = (length (heap st) + kpis (state st))%nat /\
      thresholds (state (op st)) = (length (heap st) + thresholds (state st))%nat) /\
  (forall op : Store -> Store,
      op = resetError \/ (exists b, op = setBusy b) \/
      (exists rs, op = setRecords rs) \/ (exists gf, op = setGridFactor gf) ->
      refs_ok (op st) /\ reading (op st) = reading st /\
      heap (op st) = heap st /\
      kpis (state (op st)) = kpis (state st) /\
      thresholds (state (op st)) = thresholds (state st) /\
      lockedSnapshot (state (op st)) = lockedSnapshot (state st)).
Proof.
  intros H. split.
  - intros op Hop.
    assert (exists f, keeps_refs f /\ op = update (assign f)) as (f & K & ->).
    { destruct Hop as [Hop|[(meta & ->)|[(dp & ->)|[(key & m & ->)|[(key & d & ->)|(cat & y & ->)]]]]].
      - apply elem_of_cons in Hop as [->|Hop];
          [|apply list_elem_of_singleton in Hop; subst op];
          eexists; (split; [|reflexivity]); apply keeps_stepIndex.
      - eexists; split; [|reflexivity]. apply keeps_files.
      - eexists; split; [|reflexivity]. apply keeps_detected.
      - eexists; split; [|reflexivity]. apply keeps_mappings.
      - eexists; split; [|reflexivity]. apply keeps_sheets.
      - eexists; split; [|reflexivity]. apply keeps_lifetimeYears. }
    destruct (refs_ok_update f st K H) as [R1 R2].
    split; [exact R1|]. split; [exact R2|]. split; [reflexivity|].
    cbn [update assign set structuredClone state].
    destruct (K (with_lockedSnapshot
                   (shift_snapshot (length (heap st)) <$> lockedSnapshot (state st))
                   (with_kpis (length (heap st) + kpis (state st))
                      (with_thresholds (length (heap st) + thresholds (state st))
                         (state st))))) as (E1 & E2 & _).
    rewrite E1, E2. split; reflexivity.
  - intros op Hop.
    assert (exists f, keeps_refs f /\ op = set f) as (f & K & ->).
    { destruct Hop as [->|[(b & ->)|[(rs & ->)|(gf & ->)]]].
      - eexists; split; [|reflexivity]. apply keeps_error.
      - eexists; split; [|reflexivity]. apply keeps_busy.
      - eexists; split; [|reflexivity]. apply (keeps_records (fun _ => rs)).
      - eexists; split; [|reflexivity]. apply keeps_gridFactor. }
    destruct (refs_ok_set f st K H) as [R1 R2].
    split; [exact R1|]. split; [exact R2|]. split; [reflexivity|].
    destruct (K (state st)) as (E1 & E2 & E3). cbn [set state]. auto.
Qed.

End ReadingFacts.

(* ===================================================================== *)
(** * The store: copies, reloads, listeners                             *)
(* ===================================================================== *)

Section UpdateFacts.

Import Store StoreMore Reading Fixtures Effects.
Local Open Scope list_scope.

Lemma omap_lookup_total {A B} (g : A -> option B) (ls : list A) (i : nat) (l : A) :
  Forall (fun x => is_Some (g x)) ls -> ls !! i = Some l -> omap g ls !! i = g l.
Proof.
  intros F. revert i. induction F as [|x ls [y Hx] _ IH]; intros i Hi; [discriminate|].
  cbn [omap list_omap]. rewrite Hx. destruct i as [|i]; cbn in *.
  - injection Hi as <-. symmetry. exact Hx.
  - apply IH, Hi.
Qed.

Lemma omap_length_total {A B} (g : A -> option B) (ls : list A) :
  Forall (fun x => is_Some (g x)) ls -> length (omap g ls) = length ls.
Proof.
  induction 1 as [|x ls [y Hx] _ IH]; [reflexivity|].
  cbn [omap list_omap]. rewrite Hx. cbn. rewrite IH. reflexivity.
Qed.

(** A mutator of [update] that writes an entry of the live list in place
    writes the copy: whoever holds the previous state reads in it what was
    there before, and the new live list has the entry changed. *)
Theorem update_writes_the_copy (st : Store) (i : nat) (f : KPIResult -> KPIResult) :
  refs_ok st ->
  (i < length (live_kpis st))%nat ->
  let st' := update (edit_entry i f) st in
  read_state (heap st') (state st) = reading st /\
  live_kpis st' !! i = f <$> live_kpis st !! i /\
  length (live_kpis st') = length (live_kpis st).
Proof.
  intros H Hi. cbv zeta.
  pose proof H as (Hk & _ & _). destruct Hk as (ls & Ea & K).
  assert (live_kpis st = omap (kpi_at (heap st)) ls) as EL.
  { unfold live_kpis, read_kpis, elems_at. rewrite Ea. reflexivity. }
  rewrite EL in Hi |- *. rewrite omap_length_total in Hi by exact K.
  destruct (lookup_lt_is_Some_2 ls i Hi) as [l Hl].
  assert (is_Some (kpi_at (heap st) l)) as [k Hkl].
  { rewrite Forall_forall in K. apply K. eapply list_elem_of_lookup_2, Hl. }
  pose proof (kpi_at_lt _ _ (mk_is_Some _ _ Hkl)) as Ll.
  pose proof (lookup_lt_Some _ _ _ Ea) as La.
  set (d := length (heap st)).
  assert (elems_at (clone_all (heap st)) (d + kpis (state st))
          = map (Nat.add d) ls) as EC.
  { unfold d. rewrite elems_at_clone by exact La. unfold elems_at. rewrite Ea. reflexivity. }
  assert (update (edit_entry i f) st
          = {| heap := <[(d + l)%nat := KpiObj (f k)]> (clone_all (heap st));
               state := state (structuredClone st) |}) as ->.
  { unfold update, edit_entry.
    cbn [structuredClone state heap kpis with_lockedSnapshot with_kpis with_thresholds].
    fold d. rewrite EC, list_lookup_fmap, Hl. cbn [fmap option_fmap option_map].
    unfold d. rewrite kpi_at_clone by exact Ll. rewrite Hkl. reflexivity. }
  cbn [heap state].
  assert (<[(d + l)%nat := KpiObj (f k)]> (clone_all (heap st))
          = heap st ++ <[l := KpiObj (f k)]> (map (shift_obj d) (heap st))) as EH.
  { unfold clone_all. fold d. rewrite insert_app_r_alt by (unfold d; lia).
    f_equal. f_equal. unfold d. lia. }
  split; [rewrite EH; apply typed_ext, H|].
  assert (elems_at (<[(d + l)%nat := KpiObj (f k)]> (clone_all (heap st)))
                   (d + kpis (state st)) = map (Nat.add d) ls) as EC'.
  { rewrite <- EC. unfold elems_at.
    rewrite list_lookup_insert_ne; [reflexivity|].
    intros E. assert (l = kpis (state st)) as -> by lia.
    unfold kpi_at in Hkl. rewrite Ea in Hkl. discriminate. }
  unfold live_kpis, read_kpis.
  cbn [structuredClone state heap kpis with_lockedSnapshot with_kpis with_thresholds].
  fold d. rewrite EC'.
  assert (forall x, x ∈ ls ->
            is_Some (kpi_at (<[(d + l)%nat := KpiObj (f k)]> (clone_all (heap st)))
                            (d + x))) as KS.
  { intros x Hx. rewrite Forall_forall in K. specialize (K x Hx).
    pose proof (kpi_at_lt _ _ K) as Lx.
    destruct (decide (x = l)) as [->|N].
    - exists (f k). unfold kpi_at. rewrite list_lookup_insert_eq; [reflexivity|].
      unfold clone_all. rewrite length_app, length_map. fold d. lia.
    - unfold kpi_at at 1. rewrite list_lookup_insert_ne by lia.
      fold (kpi_at (clone_all (heap st)) (d + x)). unfold d.
      rewrite kpi_at_clone by exact Lx. exact K. }
  split.
  - rewrite (omap_lookup_total _ _ i (d + l)%nat).
    + rewrite (omap_lookup_total _ _ i l K Hl), Hkl. cbn.
      unfold kpi_at. rewrite list_lookup_insert_eq; [reflexivity|].
      unfold clone_all. rewrite length_app, length_map. fold d. lia.
    + apply Forall_fmap, Forall_forall. intros x Hx. apply KS, Hx.
    + rewrite list_lookup_fmap, Hl. reflexivity.
  - rewrite !omap_length_total; [apply length_map|exact K|].
    apply Forall_fmap, Forall_forall. intros x Hx. apply KS, Hx.
Qed.

(** ** The session storage *)


(** After a reload the wizard is at the step it was at, with the grid
    factor, the lifetimes and the thresholds it had (their numbers being
    finite, which is what the JSON text keeps), and with none of its data: no
    file, sheet, mapping, record, KPI or snapshot; so at whatever step it is,
    the three primary buttons and the exports are disabled.  Persisting the
    reloaded state gives the same part again. *)
Theorem reload_keeps_settings_only (st : Store) (p : Persisted) :
  persist st = Some p ->
  storable p = true ->
  let st' := start (Some p) in
  (stepIndex (state st') = stepIndex (state st) /\
   gridFactor (state st') = gridFactor (state st) /\
   lifetimeYears (state st') = lifetimeYears (state st) /\
   thresholds_at (heap st') (thresholds (state st'))
   = thresholds_at (heap st) (thresholds (state st))) /\
  (files (state st') = [] /\ detected (state st') = [] /\ mappings (state st') = [] /\
   sheets (state st') = [] /\ records (state st') = [] /\
   dataQuality (state st') = None /\ live_kpis st' = [] /\
   lockedSnapshot (state st') = None) /\
  (Wizard.mapBtn_disabled st' = true /\ Wizard.computeBtn_disabled st' = true /\
   Wizard.lockBtn_disabled st' = true /\ Csv.exportBtn_disabled st' = true) /\
  refs_ok st' /\
  persist st' = Some p.
Proof.
  intros Hp _. cbv zeta. unfold persist in Hp.
  destruct (thresholds_at (heap st) (thresholds (state st))) as [t|] eqn:Et;
    [|discriminate].
  cbn in Hp. injection Hp as <-.
  split; [repeat split|]. split; [repeat split|]. split; [repeat split|].
  split; [|reflexivity].
  split; [|split; [|exact I]].
  - exists []. split; [reflexivity|constructor].
  - eexists. reflexivity.
Qed.

(** ** Listeners *)

Lemma indexOf_lookup (fn : Listener) (ls : list Listener) (i : nat) :
  indexOf fn ls = Some i ->
  ls !! i = Some fn /\ forall j, (j < i)%nat -> ls !! j <> Some fn.
Proof.
  revert i. induction ls as [|l ls IH]; intros i; [discriminate|].
  cbn [indexOf]. destruct (Nat.eqb l fn) eqn:E.
  - intros [= <-]. apply Nat.eqb_eq in E. subst l. split; [reflexivity|]. intros j Hj. lia.
  - destruct (indexOf fn ls) as [i'|]; [|discriminate]. cbn. intros [= <-].
    destruct (IH i' eq_refl) as [H1 H2]. split; [exact H1|].
    intros [|j] Hj; cbn.
    + intros [= ->]. rewrite Nat.eqb_refl in E. discriminate.
    + apply H2. lia.
Qed.

Lemma indexOf_None (fn : Listener) (ls : list Listener) :
  indexOf fn ls = None <-> fn ∉ ls.
Proof.
  induction ls as [|l ls IH]; cbn [indexOf].
  - split; [intros _ H; inversion H|reflexivity].
  - destruct (Nat.eqb l fn) eqn:E.
    + apply Nat.eqb_eq in E. subst l. split; [discriminate|].
      intros H. exfalso. apply H. constructor.
    + apply Nat.eqb_neq in E. rewrite not_elem_of_cons, <- IH.
      destruct (indexOf fn ls); cbn; split; try discriminate.
      * intros [_ ?]; discriminate.
      * intros _. split; [congruence|reflexivity].
      * reflexivity.
Qed.

Lemma indexOf_app_new (fn : Listener) (ls : list Listener) :
  fn ∉ ls -> indexOf fn (ls ++ [fn]) = Some (length ls).
Proof.
  induction ls as [|l ls IH]; intros H; cbn [app indexOf length].
  - rewrite Nat.eqb_refl. reflexivity.
  - apply not_elem_of_cons in H as [H1 H2].
    assert (Nat.eqb l fn = false) as -> by (apply Nat.eqb_neq; congruence).
    rewrite (IH H2). reflexivity.
Qed.

(** Unsubscribing takes out one registration of the listener, the earliest,
    and no other listener; without a registration it does nothing.  For a
    listener subscribed once it undoes the subscription; after a second
    subscription of the same listener it leaves the later registration. *)
Theorem unsubscribe_removes_one (fn : Listener) (ls : list Listener) :
  (fn ∉ ls -> unsubscribe fn ls = ls) /\
  (fn ∉ ls -> unsubscribe fn (subscribe fn ls) = ls) /\
  (fn ∈ ls ->
   exists pre post,
     ls = pre ++ fn :: post /\ (fn ∉ pre) /\ unsubscribe fn ls = pre ++ post) /\
  (forall g, g <> fn -> (g ∈ unsubscribe fn ls <-> g ∈ ls)).
Proof.
  assert (fn ∈ ls ->
          exists pre post,
            ls = pre ++ fn :: post /\ (fn ∉ pre) /\ unsubscribe fn ls = pre ++ post) as A.
  { intros Hin. unfold unsubscribe.
    destruct (indexOf fn ls) as [i|] eqn:E; [|apply indexOf_None in E; contradiction].
    destruct (indexOf_lookup _ _ _ E) as [H1 H2].
    exists (take i ls), (drop (S i) ls). split; [|split].
    - symmetry. apply take_drop_middle, H1.
    - intros Hp. apply list_elem_of_lookup in Hp as [j Hj].
      pose proof (lookup_lt_Some _ _ _ Hj) as Lj. rewrite length_take in Lj.
      rewrite lookup_take_lt in Hj by lia. apply (H2 j); [lia|exact Hj].
    - apply delete_take_drop. }
  split; [|split; [|split; [exact A|]]].
  - intros Hn. unfold unsubscribe. apply indexOf_None in Hn. rewrite Hn. reflexivity.
  - intros Hn. unfold unsubscribe, subscribe. rewrite (indexOf_app_new _ _ Hn).
    rewrite delete_take_drop, take_app_length.
    rewrite drop_ge by (rewrite length_app; cbn; lia). apply app_nil_r.
  - intros g Hg. destruct (decide (fn ∈ ls)) as [Hin|Hn].
    + destruct (A Hin) as (pre & post & E & _ & ->). rewrite E.
      rewrite !elem_of_app, elem_of_cons. split; [tauto|].
      intros [?|[?|?]]; [tauto|congruence|tauto].
    + unfold unsubscribe. apply indexOf_None in Hn. rewrite Hn. reflexivity.
Qed.

End UpdateFacts.

(* ===================================================================== *)
(** * The wizard: handlers and the snapshot                             *)
(* ===================================================================== *)

Section WizardMore.

Import Store StoreMore Reading Wizard Fixtures Effects.
Local Open Scope string_scope.
Local Open Scope list_scope.
Local Open Scope Z_scope.

Variable Number_toString : number -> string.

Lemma values_fields (s s' : WizardState) :
  values s = values s' ->
  stepIndex s = stepIndex s' /\ files s = files s' /\ detected s = detected s' /\
  mappings s = mappings s' /\ sheets s = sheets s' /\ records s = records s' /\
  dataQuality s = dataQuality s' /\ gridFactor s = gridFactor s' /\
  lifetimeYears s = lifetimeYears s' /\ busy s = busy s' /\
  current_error s = current_error s'.
Proof.
  intros H.
  repeat split;
    [ change (stepIndex (values s) = stepIndex (values s'))
    | change (files (values s) = files (values s'))
    | change (detected (values s) = detected (values s'))
    | change (mappings (values s) = mappings (values s'))
    | change (sheets (values s) = sheets (values s'))
    | change (records (values s) = records (values s'))
    | change (dataQuality (values s) = dataQuality (values s'))
    | change (gridFactor (values s) = gridFactor (values s'))
    | change (lifetimeYears (values s) = lifetimeYears (values s'))
    | change (busy (values s) = busy (values s'))
    | change (current_error (values s) = current_error (values s')) ];
    rewrite H; reflexivity.
Qed.


Lemma values_update (f : WizardState -> WizardState) (st : Store) :
  plain f -> values (state (update (assign f) st)) = values (f (state st)).
Proof. intros [_ P]. apply P. reflexivity. Qed.

Lemma values_set (f : WizardState -> WizardState) (st : Store) :
  values (state (set f st)) = values (f (state st)).
Proof. reflexivity. Qed.

Lemma values_intro (s s' : WizardState) :
  stepIndex s = stepIndex s' -> files s = files s' -> detected s = detected s' ->
  mappings s = mappings s' -> sheets s = sheets s' -> records s = records s' ->
  dataQuality s = dataQuality s' -> gridFactor s = gridFactor s' ->
  lifetimeYears s = lifetimeYears s' -> busy s = busy s' ->
  current_error s = current_error s' ->
  values s = values s'.
Proof.
  destruct s, s'. cbn. intros. subst. reflexivity.
Qed.


Lemma plain_detected dp : plain (fun s => with_detected (detected s ++ dp) s).
Proof. plain_tac values_fields values_intro. Qed.

Lemma plain_mappings key m :
  plain (fun s => with_mappings (obj_set (mappings s) key m) s).
Proof. plain_tac values_fields values_intro. Qed.

Lemma plain_sheets key d : plain (fun s => with_sheets (obj_set (sheets s) key d) s).
Proof. plain_tac values_fields values_intro. Qed.

Lemma plain_next : plain (fun s => with_stepIndex (Z.min 4 (stepIndex s + 1)) s).
Proof. plain_tac values_fields values_intro. Qed.

Lemma plain_prev : plain (fun s => with_stepIndex (Z.max 0 (stepIndex s - 1)) s).
Proof. plain_tac values_fields values_intro. Qed.

Lemma plain_compose f g : plain f -> plain g -> plain (fun s => g (f s)).
Proof.
  intros [K1 P1] [K2 P2]. split.
  - intros s. destruct (K1 s) as (A1 & A2 & A3), (K2 (f s)) as (B1 & B2 & B3).
    repeat split; congruence.
  - intros s s' H. apply P2, P1, H.
Qed.


Lemma acts_update f : plain f -> acts_as (update (assign f)) f.
Proof.
  intros P st H. destruct (refs_ok_update f st (proj1 P) H) as [R1 R2].
  split; [exact R1|]. split; [exact R2|]. apply values_update, P.
Qed.

Lemma acts_set f : keeps_refs f -> acts_as (set f) f.
Proof.
  intros K st H. destruct (refs_ok_set f st K H) as [R1 R2].
  split; [exact R1|]. split; [exact R2|]. reflexivity.
Qed.

Lemma acts_compose t u f g :
  acts_as t f -> acts_as u g -> plain g -> acts_as (fun st => u (t st)) (fun s => g (f s)).
Proof.
  intros A B [_ P] st H. destruct (A st H) as (A1 & A2 & A3).
  destruct (B (t st) A1) as (B1 & B2 & B3).
  split; [exact B1|]. split; [congruence|]. rewrite B3. apply P, A3.
Qed.

Lemma acts_id : acts_as (fun st => st) (fun s => s).
Proof. intros st H. auto. Qed.

Lemma acts_ext t f g :
  acts_as t f -> (forall s, values (f s) = values (g s)) -> acts_as t g.
Proof.
  intros A E st H. destruct (A st H) as (A1 & A2 & A3).
  split; [exact A1|]. split; [exact A2|]. rewrite A3. apply E.
Qed.

Lemma fold_addDetected_acts (g : Row -> DetectedProduct) (rs : list Row) :
  acts_as (fun st => fold_left (fun acc r => addDetected [g r] acc) rs st)
          (fun s => with_detected (detected s ++ map g rs) s).
Proof.
  induction rs as [|r rs IH].
  - intros st H. split; [exact H|]. split; [reflexivity|]. cbn [fold_left map].
    rewrite app_nil_r. reflexivity.
  - intros st H. cbn [fold_left].
    destruct (acts_update _ (plain_detected [g r]) st H) as (A1 & A2 & A3).
    fold (addDetected [g r] st) in A1, A2, A3.
    destruct (IH _ A1) as (B1 & B2 & B3).
    split; [exact B1|]. split; [congruence|]. rewrite B3.
    destruct (values_fields _ _ A3)
      as (H1 & H2 & H3 & H4 & H5 & H6 & H7 & H8 & H9 & H10 & H11).
    apply values_intro; fields; try congruence.
    cbn [map]. rewrite H3, <- app_assoc. reflexivity.
Qed.

Lemma acts_setMapping key m :
  acts_as (setMapping key m) (fun s => with_mappings (obj_set (mappings s) key m) s).
Proof. apply acts_update, plain_mappings. Qed.

Lemma acts_setSheet key d :
  acts_as (setSheet key d) (fun s => with_sheets (obj_set (sheets s) key d) s).
Proof. apply acts_update, plain_sheets. Qed.

Lemma acts_nextStep :
  acts_as nextStep (fun s => with_stepIndex (Z.min 4 (stepIndex s + 1)) s).
Proof. apply acts_update, plain_next. Qed.

Lemma handleProgress_sheet_acts fn sh hri hs rs :
  acts_as (handleProgress Number_toString (EvSheet fn sh hri hs rs))
          (captured Number_toString fn sh hri hs rs).
Proof.
  intros st H. unfold handleProgress, captured. cbv zeta. fold (sheet_key fn sh).
  generalize (sheet_key fn sh). intros key.
  generalize ({| sheetName := sh; headerRowIndex := hri;
                 suggestions := Mapper.suggestMapping hs |}). intros m.
  destruct (acts_setMapping key m st H) as (A1 & A2 & A3).
  destruct (values_fields _ _ A3)
    as (G1 & G2 & G3 & G4 & G5 & G6 & G7 & G8 & G9 & G10 & G11).
  fields. revert A1 A2 G1 G2 G3 G4 G5 G6 G7 G8 G9 G10 G11. clear A3.
  generalize (setMapping key m st).
  intros st1 A1 A2 G1 G2 G3 G4 G5 G6 G7 G8 G9 G10 G11.
  rewrite G5.
  generalize (match obj_get (sheets (state st)) key with
              | Some existing => rows existing ++ rs
              | None => rs
              end). intros combined.
  destruct (acts_setSheet key {| headers := hs; rows := combined |} st1 A1)
    as (B1 & B2 & B3).
  destruct (values_fields _ _ B3)
    as (H1 & H2 & H3 & H4 & H5 & H6 & H7 & H8 & H9 & H10 & H11).
  fields. revert B1 B2 H1 H2 H3 H4 H5 H6 H7 H8 H9 H10 H11. clear B3.
  generalize (setSheet key {| headers := hs; rows := combined |} st1).
  intros st2 B1 B2 H1 H2 H3 H4 H5 H6 H7 H8 H9 H10 H11.
  destruct (fold_addDetected_acts
              (detected_of Number_toString (fn ?? "Upload") sh) rs st2 B1)
    as (C1 & C2 & C3).
  destruct (values_fields _ _ C3)
    as (K1 & K2 & K3 & K4 & K5 & K6 & K7 & K8 & K9 & K10 & K11).
  fields. revert C1 C2 K1 K2 K3 K4 K5 K6 K7 K8 K9 K10 K11. clear C3.
  generalize (fold_left
                (fun acc r =>
                   addDetected [detected_of Number_toString (fn ?? "Upload") sh r] acc)
                rs st2).
  intros st3 C1 C2 K1 K2 K3 K4 K5 K6 K7 K8 K9 K10 K11.
  assert (stepIndex (state st3) = stepIndex (state st)) as ES by congruence.
  rewrite ES. destruct (stepIndex (state st) =? 0) eqn:E.
  - destruct (acts_nextStep st3 C1) as (D1 & D2 & D3).
    split; [exact D1|]. split; [congruence|]. rewrite D3.
    apply Z.eqb_eq in E.
    apply values_intro; fields; try congruence.
    rewrite ES, E. reflexivity.
  - split; [exact C1|]. split; [congruence|].
    apply values_intro; fields; congruence.
Qed.

(** ** The three primary buttons *)

Lemma omap_length_le {A B} (g : A -> option B) (ls : list A) :
  (length (omap g ls) <= length ls)%nat.
Proof.
  induction ls as [|x ls IH]; [reflexivity|]. cbn [omap list_omap].
  destruct (g x); cbn [length]; lia.
Qed.

Lemma omap_total {A B} (g : A -> option B) (ls : list A) :
  length (omap g ls) = length ls -> Forall (fun x => is_Some (g x)) ls.
Proof.
  induction ls as [|x ls IH]; [constructor|]. cbn [omap list_omap].
  destruct (g x) as [y|] eqn:E; cbn [length]; intros H.
  - constructor; [eauto|]. apply IH. lia.
  - pose proof (omap_length_le g ls). lia.
Qed.

Lemma alloc_kpis_array (h : Heap) (ks : list KPIResult) :
  exists ext,
    (alloc_kpis h ks).1 = h ++ ext /\
    array_ok (h ++ ext) (alloc_kpis h ks).2 /\
    read_kpis (h ++ ext) (alloc_kpis h ks).2 = ks.
Proof.
  unfold alloc_kpis.
  destruct (alloc_entries_spec ks h) as (ext & E1 & E2 & E3 & E4).
  destruct (alloc_entries h ks) as [h1 ls]. cbn [fst snd] in *. subst h1.
  unfold alloc. cbn [fst snd]. exists (ext ++ [ArrObj ls]). rewrite app_assoc.
  split; [reflexivity|].
  assert (Forall (fun l => is_Some (kpi_at (h ++ ext) l)) ls) as K.
  { apply omap_total. rewrite E4. symmetry. exact E2. }
  split.
  - exists ls. split; [apply lookup_snoc_new with (ext := [])|].
    eapply Forall_impl; [exact K|]. intros l Hl. cbv beta.
    rewrite kpi_at_ext; [exact Hl|apply kpi_at_lt, Hl].
  - unfold read_kpis, elems_at. rewrite (lookup_snoc_new _ _ []).
    rewrite omap_kpi_at_ext by exact E3. exact E4.
Qed.

(** A delivered click on "Compute KPIs": the live list is replaced by the
    result for the records, the thresholds and the snapshot read as
    before. *)
Lemma computeClick_reads (st : Store) :
  refs_ok st ->
  exists thr,
    thresholds_at (heap st) (thresholds (state st)) = Some thr /\
    let st' := computeClick st in
    refs_ok st' /\
    reading st'
    = (Engine.computeKPIs (records (state st)) (gridFactor (state st))
         (lifetimeYears (state st)) thr,
       Some thr, snapshot_reading st) /\
    values (state st')
    = values (with_stepIndex (Z.min 4 (stepIndex (state st) + 1)) (state st)).
Proof.
  intros H. pose proof H as (Hk & [thr Ht] & Hs). exists thr. split; [exact Ht|].
  cbv zeta. unfold computeClick. cbv zeta. rewrite Ht.
  set (ks := Engine.computeKPIs _ _ _ thr).
  destruct (alloc_kpis_array (heap st) ks) as (ext & E1 & E2 & E3).
  destruct (alloc_kpis (heap st) ks) as [h a]. cbn [fst snd] in *. subst h.
  destruct (typed_ext (heap st) ext (state st) H) as [T1 T2].
  set (st1 := setKPIs a {| heap := heap st ++ ext; state := state st |}).
  assert (refs_ok st1) as R1.
  { destruct T1 as (_ & T1b & T1c). split; [exact E2|]. split; [exact T1b|exact T1c]. }
  assert (reading st1 = (ks, Some thr, snapshot_reading st)) as R2.
  { unfold reading, read_state in *. cbn [st1 setKPIs set heap state with_kpis kpis
      thresholds lockedSnapshot] in *. rewrite E3.
    injection T2 as _ T2b T2c. rewrite T2b, T2c, Ht. reflexivity. }
  destruct (acts_update _ plain_next st1 R1) as (D1 & D2 & D3).
  fold (nextStep st1) in D1, D2, D3.
  split; [exact D1|]. split; [congruence|]. rewrite D3. reflexivity.
Qed.

Lemma length_live_kpis (st : Store) :
  refs_ok st -> length (elems_at (heap st) (kpis (state st))) = length (live_kpis st).
Proof.
  intros ((ls & E & K) & _). unfold live_kpis, read_kpis, elems_at. rewrite E.
  symmetry. apply omap_length_total, K.
Qed.

(** [lock]: the snapshot reads what the live list and the thresholds read. *)
Lemma lock_reads (now : string) (st : Store) :
  refs_ok st ->
  refs_ok (lock now st) /\
  reading (lock now st)
  = (live_kpis st, thresholds_at (heap st) (thresholds (state st)),
     Some {| read_at := now;
             read_kpi_list := live_kpis st;
             read_totals := {| count := length (live_kpis st);
                               totalCO2e := sum_total (live_kpis st) |};
             read_thresholds := thresholds_at (heap st) (thresholds (state st)) |}) /\
  values (state (lock now st)) = values (state st).
Proof.
  intros H. pose proof H as (Hk & Ht & Hs). split; [|split; [|reflexivity]].
  - split; [exact Hk|]. split; [exact Ht|]. split; [exact Hk|exact Ht].
  - unfold reading, read_state, lock. cbv zeta.
    cbn [set state heap with_lockedSnapshot kpis thresholds lockedSnapshot
         fmap option_fmap option_map].
    unfold read_snapshot. cbn [taken_at snap_kpis totals snap_thresholds].
    rewrite (length_live_kpis st H). reflexivity.
Qed.

Lemma lockClick_reads (now : string) (st : Store) :
  refs_ok st ->
  refs_ok (lockClick now st) /\
  reading (lockClick now st)
  = (live_kpis st, thresholds_at (heap st) (thresholds (state st)),
     Some {| read_at := now;
             read_kpi_list := live_kpis st;
             read_totals := {| count := length (live_kpis st);
                               totalCO2e := sum_total (live_kpis st) |};
             read_thresholds := thresholds_at (heap st) (thresholds (state st)) |}) /\
  values (state (lockClick now st))
  = values (with_stepIndex (Z.min 4 (stepIndex (state st) + 1)) (state st)).
Proof.
  intros H. destruct (lock_reads now st H) as (L1 & L2 & L3).
  destruct (acts_update _ plain_next (lock now st) L1) as (D1 & D2 & D3).
  unfold lockClick. fold (nextStep (lock now st)) in D1, D2, D3.
  split; [exact D1|]. split; [congruence|]. rewrite D3.
  destruct plain_next as [_ P]. apply P, L3.
Qed.

Lemma keeps_applied records dq :
  keeps_refs (fun s => with_dataQuality (Some dq) (with_records records s)).
Proof. intros s. repeat split. Qed.

Lemma applyMappingClick_reads (st : Store) :
  refs_ok st ->
  refs_ok (applyMappingClick Number_toString st) /\
  reading (applyMappingClick Number_toString st) = reading st.
Proof.
  intros H.
  destruct (applyMappingClick_cases Number_toString st)
    as [->|(rs & dq & [[_ ->]|[_ ->]])]; [auto| |].
  - apply refs_ok_set; [apply keeps_applied|exact H].
  - destruct (refs_ok_set _ st (keeps_applied rs dq) H) as [R1 R2].
    destruct (acts_update _ plain_next _ R1) as (D1 & D2 & _).
    split; [exact D1|]. rewrite <- R2. exact D2.
Qed.

Lemma selectChange_reads key idx value (st : Store) :
  refs_ok st ->
  refs_ok (selectChange key idx value st) /\
  reading (selectChange key idx value st) = reading st.
Proof.
  intros H. unfold selectChange.
  destruct (obj_get (mappings (state st)) key) as [m|]; [|auto].
  destruct (suggestions m !! idx) as [sug|]; [|auto].
  apply refs_ok_update; [apply keeps_mappings|exact H].
Qed.

Lemma handleProgress_reads (ev : ProgressEvent) (st : Store) :
  refs_ok st ->
  refs_ok (handleProgress Number_toString ev st) /\
  reading (handleProgress Number_toString ev st) = reading st.
Proof.
  intros H. destruct ev as [|fn sh hri hs rs|msg|].
  - auto.
  - destruct (handleProgress_sheet_acts fn sh hri hs rs st H) as (A & B & _). auto.
  - apply refs_ok_set; [apply keeps_error|exact H].
  - auto.
Qed.

Lemma reading_parts (st : Store) a b c :
  reading st = (a, b, c) ->
  live_kpis st = a /\ thresholds_at (heap st) (thresholds (state st)) = b /\
  snapshot_reading st = c.
Proof.
  intros H. split; [exact (f_equal (fun x => x.1.1) H)|].
  split; [exact (f_equal (fun x => x.1.2) H)|exact (f_equal snd H)].
Qed.

Lemma snapshot_of_reading (st st' : Store) :
  reading st' = reading st -> snapshot_reading st' = snapshot_reading st.
Proof. intros H. exact (f_equal snd H). Qed.

(** Every event keeps the references typed; every event but a click on
    "Lock Baseline" keeps what the snapshot reads. *)
Lemma dispatch_reads (e : Event) (st : Store) :
  refs_ok st ->
  refs_ok (dispatch Number_toString e st) /\
  (is_lock e = false ->
   snapshot_reading (dispatch Number_toString e st) = snapshot_reading st).
Proof.
  intros H. destruct e as [idx|ev|gf|key idx value| | |now|b|msg]; cbn [dispatch is_lock].
  - destruct (idx <? length steps)%nat; [|auto]. unfold navClick.
    destruct (canGo (state st) idx); [|auto].
    destruct (refs_ok_set _ st (keeps_stepIndex (fun _ => Z.of_nat idx)) H) as [R1 R2].
    split; [exact R1|]. intros _. apply snapshot_of_reading, R2.
  - destruct (handleProgress_reads ev st H) as [R1 R2].
    split; [exact R1|]. intros _. apply snapshot_of_reading, R2.
  - destruct (on_step 0 st); [|auto].
    destruct (refs_ok_set _ st (keeps_gridFactor gf) H) as [R1 R2].
    split; [exact R1|]. intros _. apply snapshot_of_reading, R2.
  - destruct (on_step 1 st); [|auto].
    destruct (selectChange_reads key idx value st H) as [R1 R2].
    split; [exact R1|]. intros _. apply snapshot_of_reading, R2.
  - destruct (on_step 1 st && negb (mapBtn_disabled st)); [|auto].
    destruct (applyMappingClick_reads st H) as [R1 R2].
    split; [exact R1|]. intros _. apply snapshot_of_reading, R2.
  - destruct (on_step 2 st && negb (computeBtn_disabled st)); [|auto].
    destruct (computeClick_reads st H) as (thr & _ & R1 & R2 & _).
    split; [exact R1|]. intros _. apply (reading_parts _ _ _ _ R2).
  - destruct (on_step 3 st && negb (lockBtn_disabled st)); [|split; [exact H|discriminate]].
    split; [apply lockClick_reads, H|discriminate].
  - destruct (refs_ok_set _ st (keeps_busy b) H) as [R1 R2].
    split; [exact R1|]. intros _. apply snapshot_of_reading, R2.
  - destruct (refs_ok_set _ st (keeps_error (Some msg)) H) as [R1 R2].
    split; [exact R1|]. intros _. apply snapshot_of_reading, R2.
Qed.

Lemma refs_ok_start (persisted : option Persisted) : refs_ok (start persisted).
Proof.
  destruct persisted as [p|]; (split; [|split; [|exact I]]).
  - exists []. split; [reflexivity|constructor].
  - eexists. reflexivity.
  - exists []. split; [reflexivity|constructor].
  - eexists. reflexivity.
Qed.

Lemma run_reads (es : list Event) : forall st : Store,
  refs_ok st ->
  refs_ok (run Number_toString es st) /\
  (forallb (fun e => negb (is_lock e)) es = true ->
   snapshot_reading (run Number_toString es st) = snapshot_reading st).
Proof.
  unfold run. induction es as [|e es IH]; intros st H; [auto|].
  cbn [fold_left forallb]. destruct (dispatch_reads e st H) as [R1 R2].
  destruct (IH _ R1) as [I1 I2]. split; [exact I1|].
  intros F. apply andb_true_iff in F as [F1 F2]. apply negb_true_iff in F1.
  rewrite (I2 F2). apply R2, F1.
Qed.

(** In a session, fresh or reloaded, the snapshot is frozen but for a new
    lock: what it reads (the time, the KPI list, the totals, the thresholds)
    is the same after any further events among which there is no click on
    "Lock Baseline"; a delivered click on it makes the snapshot read the live
    list and the thresholds of that moment. *)
Theorem snapshot_changes_only_by_lock (persisted : option Persisted)
    (before after : list Event) :
  let st := run Number_toString before (start persisted) in
  (forallb (fun e => negb (is_lock e)) after = true ->
   snapshot_reading (run Number_toString after st) = snapshot_reading st) /\
  (forall now,
      on_step 3 st && negb (lockBtn_disabled st) = true ->
      snapshot_reading (dispatch Number_toString (LockClick now) st)
      = Some {| read_at := now;
                read_kpi_list := live_kpis st;
                read_totals := {| count := length (live_kpis st);
                                  totalCO2e := sum_total (live_kpis st) |};
                read_thresholds := thresholds_at (heap st) (thresholds (state st)) |}).
Proof.
  cbv zeta.
  destruct (run_reads before (start persisted) (refs_ok_start persisted)) as [R _].
  split.
  - apply run_reads, R.
  - intros now D. cbn [dispatch]. rewrite D.
    destruct (lockClick_reads now _ R) as (_ & L & _).
    apply (reading_parts _ _ _ _ L).
Qed.

End WizardMore.

(* ===================================================================== *)
(** * The wizard: from the upload to the export                         *)
(* ===================================================================== *)

Section Journey.

Import Store StoreMore Reading Wizard Fixtures Effects.
Local Open Scope string_scope.
Local Open Scope list_scope.
Local Open Scope Z_scope.

Variable Number_toString : number -> string.

Lemma sheet_key_not_empty fn sh : String.eqb (sheet_key fn sh) "" = false.
Proof.
  unfold sheet_key. destruct (fn ?? "Upload") as [|c s]; reflexivity.
Qed.

Lemma obj_get_obj_set {A} (o : list (string * A)) (key : string) (v : A) :
  obj_get (obj_set o key v) key = Some v.
Proof.
  induction o as [|[k w] o IH]; cbn [obj_set obj_get].
  - rewrite String.eqb_refl. reflexivity.
  - destruct (String.eqb k key) eqn:E; cbn [obj_get].
    + rewrite String.eqb_refl. reflexivity.
    + rewrite E. exact IH.
Qed.

Lemma obj_get_obj_set_ne {A} (o : list (string * A)) (key key' : string) (v : A) :
  key <> key' -> obj_get (obj_set o key v) key' = obj_get o key'.
Proof.
  intros N. induction o as [|[k w] o IH]; cbn [obj_set obj_get].
  - assert (String.eqb key key' = false) as -> by (apply String.eqb_neq, N). reflexivity.
  - destruct (String.eqb k key) eqn:E; cbn [obj_get].
    + apply String.eqb_eq in E. subst k.
      assert (String.eqb key key' = false) as -> by (apply String.eqb_neq, N). reflexivity.
    + rewrite IH. reflexivity.
Qed.

(** The first key of an object stays the first when a key is set. *)
Lemma obj_set_first {A} (o : list (string * A)) (key : string) (v : A) :
  head (map fst (obj_set o key v)) = Some (head (map fst o) ?? key).
Proof.
  destruct o as [|[k w] o]; cbn [obj_set]; [reflexivity|].
  destruct (String.eqb k key) eqn:E; [|reflexivity].
  apply String.eqb_eq in E. subst k. reflexivity.
Qed.

(** A delivered click on "Apply Mapping & Validate" works on the sheet of the
    first key of the mappings, whatever other sheets there are. *)
Lemma applyMappingClick_first (st : Store) (key : string) (m : MappingForSheet)
    (rest : list (string * MappingForSheet)) :
  mappings (state st) = (key, m) :: rest ->
  String.eqb key "" = false ->
  let rows := match obj_get (sheets (state st)) key with
              | Some sheet => rows sheet
              | None => []
              end in
  let records := fst (Mapper.applyMapping Number_toString rows m) in
  let dq := Validator.validate records in
  let st1 := set (fun s => with_dataQuality (Some dq) (with_records records s)) st in
  applyMappingClick Number_toString st
  = match dq_status dq with red => st1 | _ => nextStep st1 end.
Proof.
  intros Hm Hk. cbv zeta. unfold applyMappingClick. cbv zeta. rewrite Hm.
  cbn [map fst obj_get]. rewrite Hk, String.eqb_refl.
  destruct (Mapper.applyMapping Number_toString _ m) as [records missing].
  reflexivity.
Qed.

Lemma snapshot_kpis_reading (st : Store) :
  snapshot_kpis st = read_kpi_list <$> snapshot_reading st.
Proof.
  unfold snapshot_kpis, snapshot_reading.
  destruct (lockedSnapshot (state st)); reflexivity.
Qed.

(** From the upload to the export.  In a fresh session a sheet with at least
    one row arrives, and then "Apply Mapping & Validate", "Compute KPIs" and
    "Lock Baseline" are clicked.  If the validation of the mapped rows is not
    red, the wizard is at the last step, the snapshot holds the KPIs of the
    mapped rows under the initial grid factor, lifetimes and thresholds, and
    the CSV export is that of these KPIs.  If it is red, the wizard stays at
    the second step, without KPIs and without a snapshot, and nothing can be
    exported. *)
Theorem upload_to_export (fn : option string) (sh : string) (hri : nat)
    (hs : list string) (rs : list Row) (now : string) :
  rs <> [] ->
  let mapping := {| sheetName := sh; headerRowIndex := hri;
                    suggestions := Mapper.suggestMapping hs |} in
  let mapped := fst (Mapper.applyMapping Number_toString rs mapping) in
  let ks := Engine.computeKPIs mapped (gridFactor init) (lifetimeYears init)
              defaultThresholds in
  let st := run Number_toString
              [Progress (EvSheet fn sh hri hs rs); ApplyMappingClick; ComputeClick;
               LockClick now] (start None) in
  (dq_status (Validator.validate mapped) <> red ->
   stepIndex (state st) = 4 /\ records (state st) = mapped /\ live_kpis st = ks /\
   snapshot_reading st
   = Some {| read_at := now;
             read_kpi_list := ks;
             read_totals := {| count := length rs; totalCO2e := sum_total ks |};
             read_thresholds := Some defaultThresholds |} /\
   Csv.exportBtn_disabled st = false /\
   Csv.csvClick Number_toString st = Some (Csv.csv_of_kpis Number_toString ks)) /\
  (dq_status (Validator.validate mapped) = red ->
   stepIndex (state st) = 1 /\ records (state st) = mapped /\ live_kpis st = [] /\
   lockedSnapshot (state st) = None /\
   Csv.exportBtn_disabled st = true /\
   Csv.csvClick Number_toString st = None).
Proof.
  intros Hrs. cbv zeta. unfold run. cbn [fold_left].
  change (dispatch Number_toString (Progress (EvSheet fn sh hri hs rs)) (start None))
    with (handleProgress Number_toString (EvSheet fn sh hri hs rs) (start None)).
  destruct (handleProgress_sheet_acts Number_toString fn sh hri hs rs (start None)
              (refs_ok_start None)) as (R1 & D1 & V1).
  destruct (values_fields _ _ V1)
    as (S1 & _ & _ & M1 & Sh1 & Rc1 & _ & G1 & L1 & _ & _).
  clear V1. unfold captured in S1, M1, Sh1, Rc1, G1, L1.
  cbv zeta in S1, M1, Sh1, Rc1, G1, L1. fields.
  change (state (start None)) with init in S1, M1, Sh1, Rc1, G1, L1.
  change (sheets init) with (@nil (string * SheetData)) in Sh1.
  change (mappings init) with (@nil (string * MappingForSheet)) in M1.
  change (stepIndex init) with 0 in S1. change (records init) with (@nil MappedRecord) in Rc1.
  cbn [obj_get obj_set Z.eqb] in S1, M1, Sh1.
  pose proof (sheet_key_not_empty fn sh) as Hk.
  assert (reading (start None) = ([], Some defaultThresholds, None)) as D0
    by reflexivity.
  rewrite D0 in D1. clear D0.
  revert R1 D1 S1 M1 Sh1 Rc1 G1 L1 Hk.
  generalize (handleProgress Number_toString (EvSheet fn sh hri hs rs) (start None)).
  generalize (sheet_key fn sh). generalize (Mapper.suggestMapping hs).
  intros sug key st1 R1 D1 S1 M1 Sh1 Rc1 G1 L1 Hk.
  set (m := {| sheetName := sh; headerRowIndex := hri; suggestions := sug |}) in *.
  set (mapped := fst (Mapper.applyMapping Number_toString rs m)).
  assert (length mapped = length rs) as Lm.
  { unfold mapped, Mapper.applyMapping. cbv zeta. cbn [fst]. apply length_map. }
  assert (mapped <> []) as Nm.
  { intros E. rewrite E in Lm. destruct rs; [contradiction|discriminate]. }
  (* apply mapping *)
  assert (dispatch Number_toString ApplyMappingClick st1
          = match dq_status (Validator.validate mapped) with
            | red => set (fun s => with_dataQuality (Some (Validator.validate mapped))
                                     (with_records mapped s)) st1
            | _ => nextStep
                     (set (fun s => with_dataQuality (Some (Validator.validate mapped))
                                      (with_records mapped s)) st1)
            end) as ->.
  { cbn [dispatch].
    assert (on_step 1 st1 && negb (mapBtn_disabled st1) = true) as ->.
    { unfold on_step, mapBtn_disabled. rewrite S1, M1. reflexivity. }
    pose proof (applyMappingClick_first st1 _ _ _ M1 Hk) as A.
    cbv zeta in A. rewrite Sh1 in A. cbn [obj_get] in A.
    rewrite String.eqb_refl in A. cbn [rows] in A. exact A. }
  clearbody mapped.
  destruct (refs_ok_set _ st1 (keeps_applied mapped (Validator.validate mapped)) R1)
    as [R1' D1'].
  assert (stepIndex (state (set (fun s => with_dataQuality (Some (Validator.validate mapped))
                                            (with_records mapped s)) st1)) = 1
          /\ records (state (set (fun s => with_dataQuality (Some (Validator.validate mapped))
                                            (with_records mapped s)) st1)) = mapped
          /\ gridFactor (state (set (fun s => with_dataQuality (Some (Validator.validate mapped))
                                            (with_records mapped s)) st1)) = gridFactor init
          /\ lifetimeYears (state (set (fun s => with_dataQuality (Some (Validator.validate mapped))
                                            (with_records mapped s)) st1))
             = lifetimeYears init) as (S1' & Rc1' & G1' & L1').
  { cbn [set state]. fields. auto. }
  rewrite D1 in D1'.
  revert R1' D1' S1' Rc1' G1' L1'.
  generalize (set (fun s => with_dataQuality (Some (Validator.validate mapped))
                              (with_records mapped s)) st1).
  clear st1 R1 D1 S1 M1 Sh1 Rc1 G1 L1.
  intros st1 R1 D1 S1 Rc1 G1 L1.
  split.
  - intros Hnr.
    assert (match dq_status (Validator.validate mapped) with
            | red => st1
            | _ => nextStep st1
            end = nextStep st1) as ->.
    { destruct (dq_status (Validator.validate mapped));
        [contradiction|reflexivity|reflexivity]. }
    destruct (acts_nextStep st1 R1) as (R2 & D2 & V2).
    destruct (values_fields _ _ V2)
      as (S2 & _ & _ & _ & _ & Rc2 & _ & G2 & L2 & _ & _).
    clear V2. fields. rewrite S1 in S2. rewrite Rc1 in Rc2. rewrite G1 in G2.
    rewrite L1 in L2. rewrite D1 in D2. change (Z.min 4 (1 + 1)) with 2 in S2.
    revert R2 D2 S2 Rc2 G2 L2. generalize (nextStep st1).
    clear st1 R1 D1 S1 Rc1 G1 L1. intros st2 R2 D2 S2 Rc2 G2 L2.
    (* compute *)
    assert (dispatch Number_toString ComputeClick st2 = computeClick st2) as ->.
    { cbn [dispatch].
      assert (on_step 2 st2 && negb (computeBtn_disabled st2) = true) as ->;
        [|reflexivity].
      unfold on_step, computeBtn_disabled. rewrite S2, Rc2.
      destruct mapped; [contradiction|reflexivity]. }
    destruct (computeClick_reads st2 R2) as (thr & T2 & R3 & D3 & V3).
    cbv zeta in R3, D3, V3.
    destruct (reading_parts _ _ _ _ D2) as (_ & Th2 & Sn2).
    assert (thr = defaultThresholds) as -> by congruence.
    rewrite Rc2, G2, L2, Sn2 in D3.
    destruct (values_fields _ _ V3) as (S3 & _). clear V3. fields.
    rewrite S2 in S3. change (Z.min 4 (2 + 1)) with 3 in S3.
    assert (records (state (computeClick st2)) = mapped) as Rc3.
    { rewrite <- Rc2. unfold computeClick. cbv zeta. rewrite T2.
      destruct (alloc_kpis _ _). reflexivity. }
    revert R3 D3 S3 Rc3. generalize (computeClick st2).
    clear st2 R2 D2 S2 Rc2 G2 L2 T2 Th2 Sn2. intros st3 R3 D3 S3 Rc3.
    set (ks := Engine.computeKPIs mapped (gridFactor init) (lifetimeYears init)
                 defaultThresholds) in *.
    assert (length ks = length rs) as Lk.
    { unfold ks, Engine.computeKPIs. rewrite length_map. exact Lm. }
    clearbody ks.
    destruct (reading_parts _ _ _ _ D3) as (Lv3 & Th3 & _).
    (* lock *)
    assert (dispatch Number_toString (LockClick now) st3 = lockClick now st3) as ->.
    { cbn [dispatch].
      assert (on_step 3 st3 && negb (lockBtn_disabled st3) = true) as ->;
        [|reflexivity].
      unfold on_step, lockBtn_disabled. rewrite S3.
      pose proof (length_live_kpis st3 R3) as Le. rewrite Lv3, Lk in Le.
      destruct (elems_at (heap st3) (kpis (state st3)));
        [destruct rs; [contradiction|discriminate]|reflexivity]. }
    destruct (lockClick_reads now st3 R3) as (R4 & D4 & V4).
    rewrite Lv3, Th3, Lk in D4.
    destruct (values_fields _ _ V4) as (S4 & _ & _ & _ & _ & Rc4 & _). clear V4.
    fields. rewrite S3 in S4. change (Z.min 4 (3 + 1)) with 4 in S4.
    destruct (reading_parts _ _ _ _ D4) as (D4a & _ & D4c).
    split; [exact S4|]. split; [congruence|]. split; [exact D4a|].
    split; [exact D4c|]. split.
    + unfold Csv.exportBtn_disabled. unfold snapshot_reading in D4c.
      destruct (lockedSnapshot (state (lockClick now st3)));
        [reflexivity|discriminate].
    + unfold Csv.csvClick. rewrite snapshot_kpis_reading, D4c. reflexivity.
  - intros Hr. rewrite Hr.
    assert (dispatch Number_toString ComputeClick st1 = st1) as ->.
    { cbn [dispatch]. unfold on_step. rewrite S1. reflexivity. }
    assert (dispatch Number_toString (LockClick now) st1 = st1) as ->.
    { cbn [dispatch]. unfold on_step. rewrite S1. reflexivity. }
    destruct (reading_parts _ _ _ _ D1) as (Lv & _ & Sn).
    assert (lockedSnapshot (state st1) = None) as N.
    { unfold snapshot_reading in Sn.
      destruct (lockedSnapshot (state st1)); [discriminate|reflexivity]. }
    split; [exact S1|]. split; [exact Rc1|]. split; [exact Lv|].
    split; [exact N|]. split.
    + unfold Csv.exportBtn_disabled. rewrite N. reflexivity.
    + unfold Csv.csvClick, snapshot_kpis. rewrite N. reflexivity.
Qed.

End Journey.

(* ===================================================================== *)
(** * The wizard: sheets in chunks                                      *)
(* ===================================================================== *)

Section Delivery.

Import Store StoreMore Reading Wizard Fixtures Effects Ingestion IngNotions.
Local Open Scope string_scope.
Local Open Scope list_scope.
Local Open Scope Z_scope.

Variable Number_toString : number -> string.

Lemma obj_set_obj_set {A} (o : list (string * A)) (key : string) (v w : A) :
  obj_set (obj_set o key v) key w = obj_set o key w.
Proof.
  induction o as [|[k x] o IH]; cbn [obj_set].
  - rewrite String.eqb_refl. reflexivity.
  - destruct (String.eqb k key) eqn:E; cbn [obj_set].
    + rewrite String.eqb_refl. reflexivity.
    + rewrite E, IH. reflexivity.
Qed.

Lemma plain_captured fn sh hri hs rs : plain (captured Number_toString fn sh hri hs rs).
Proof.
  split.
  - intros s. repeat split.
  - intros s s' H.
    destruct (values_fields _ _ H)
      as (H1 & H2 & H3 & H4 & H5 & H6 & H7 & H8 & H9 & H10 & H11).
    unfold captured. cbv zeta.
    apply values_intro; fields; rewrite ?H1, ?H3, ?H4, ?H5; congruence.
Qed.

(** Two chunks of a sheet, one after the other, leave what one chunk with the
    rows of both leaves. *)
Lemma captured_app fn sh hri hs rs1 rs2 (s : WizardState) :
  values (captured Number_toString fn sh hri hs rs2
            (captured Number_toString fn sh hri hs rs1 s))
  = values (captured Number_toString fn sh hri hs (rs1 ++ rs2) s).
Proof.
  unfold captured. cbv zeta. generalize (sheet_key fn sh). intros key.
  apply values_intro; fields; try reflexivity.
  - destruct (stepIndex s =? 0) eqn:E; [reflexivity|]. rewrite E. reflexivity.
  - rewrite map_app, app_assoc. reflexivity.
  - apply obj_set_obj_set.
  - rewrite obj_get_obj_set, obj_set_obj_set. cbn [rows].
    destruct (obj_get (sheets s) key); [rewrite app_assoc|]; reflexivity.
Qed.

Lemma deliver_chunks_acts fn sh hri hs (c : list Row) (cs : list (list Row)) :
  acts_as (deliver Number_toString
             (map (fun rs => MsgSheet fn sh hri hs rs) (c :: cs)))
          (captured Number_toString fn sh hri hs (concat (c :: cs))).
Proof.
  revert c. induction cs as [|c' cs IH]; intros c st H.
  - cbn [map concat deliver fold_left progress_of]. rewrite app_nil_r.
    apply handleProgress_sheet_acts, H.
  - change (deliver Number_toString
              (map (fun rs => MsgSheet fn sh hri hs rs) (c :: c' :: cs)) st)
      with (deliver Number_toString
              (map (fun rs => MsgSheet fn sh hri hs rs) (c' :: cs))
              (handleProgress Number_toString (EvSheet fn sh hri hs c) st)).
    destruct (handleProgress_sheet_acts Number_toString fn sh hri hs c st H)
      as (A1 & A2 & A3).
    destruct (IH c' _ A1) as (B1 & B2 & B3).
    split; [exact B1|]. split; [congruence|]. rewrite B3.
    destruct (plain_captured fn sh hri hs (concat (c' :: cs))) as [_ P].
    rewrite (P _ _ A3). change (concat (c :: c' :: cs)) with (c ++ concat (c' :: cs)).
    apply captured_app.
Qed.

(** Chunking does not show in the store.  After the messages of a sheet have
    been handled, the sheet is kept under the key of the file and the sheet
    with its headers and all the rows below the header row, in order, after
    the rows the key had before; its mapping is the one suggested for the
    headers; one product is detected per row; a wizard at the first step has
    moved to the second; what the live list, the thresholds and the snapshot
    read is as before.  For a sheet without a row below the header row the
    store is as it was. *)
Theorem sheet_arrives_whole (fileName s : string) (aoa : list (list JsValue))
    (st : Store) :
  refs_ok st ->
  let hri := Worker.autoDetectHeaderRow Number_toString aoa in
  let headers := map (fun h => String_ Number_toString (nullish h (VStr "")))
                     (aoa !! hri ?? []) in
  let all_rows := map (row_object headers) (drop (hri + 1) aoa) in
  let key := (fileName ++ "::" ++ s)%string in
  let st' := deliver Number_toString
               (sheet_messages Number_toString fileName s aoa) st in
  (all_rows = [] -> st' = st) /\
  (all_rows <> [] ->
   obj_get (sheets (state st')) key
   = Some {| headers := headers;
             rows := match obj_get (sheets (state st)) key with
                     | Some existing => rows existing ++ all_rows
                     | None => all_rows
                     end |} /\
   obj_get (mappings (state st')) key
   = Some {| sheetName := s; headerRowIndex := hri;
             suggestions := Mapper.suggestMapping headers |} /\
   detected (state st')
   = detected (state st) ++ map (detected_of Number_toString fileName s) all_rows /\
   stepIndex (state st')
   = (if stepIndex (state st) =? 0 then 1 else stepIndex (state st)) /\
   reading st' = reading st /\ refs_ok st').
Proof.
  intros H. cbv zeta. rewrite sheet_messages_spec. cbv zeta.
  set (hri := Worker.autoDetectHeaderRow Number_toString aoa).
  set (headers := map _ (aoa !! hri ?? [])).
  destruct (chunk_loop_spec (drop (hri + 1) aoa) (length (drop (hri + 1) aoa)) 0)
    as (H1 & H2 & _); [lia|].
  fold (chunks (drop (hri + 1) aoa)) in H1, H2. rewrite drop_0 in H1.
  assert (Forall (fun c => c <> [])
                 (map (map (row_object headers)) (chunks (drop (hri + 1) aoa))))
    as NE.
  { apply Forall_fmap. eapply Forall_impl; [exact H2|]. intros c [Hc _]. cbn.
    destruct c; [contradiction|discriminate]. }
  clear H2.
  assert (map (row_object headers) (drop (hri + 1) aoa)
          = concat (map (map (row_object headers)) (chunks (drop (hri + 1) aoa))))
    as EA.
  { rewrite concat_map_map, H1. reflexivity. }
  rewrite EA. clear EA H1. revert NE.
  generalize (map (map (row_object headers)) (chunks (drop (hri + 1) aoa))).
  intros cs NE. split.
  - intros E. destruct cs as [|c cs]; [reflexivity|].
    apply Forall_cons in NE as [NE _]. cbn [concat] in E.
    destruct c; [contradiction|discriminate].
  - intros N. destruct cs as [|c cs]; [contradiction|].
    destruct (deliver_chunks_acts (Some fileName) s hri headers c cs st H)
      as (A1 & A2 & A3).
    destruct (values_fields _ _ A3) as (S & _ & D & M & Sh & _).
    clear A3. unfold captured in S, D, M, Sh. cbv zeta in S, D, M, Sh. fields.
    unfold sheet_key in M, Sh.
    change (Some fileName ?? "Upload") with fileName in D, M, Sh.
    rewrite Sh, M, D, S, !obj_get_obj_set.
    do 4 (split; [reflexivity|]). split; [exact A2|exact A1].
Qed.



(** Every sheet message sets the mapping of its sheet anew: whatever happened
    in the session before, in particular whatever header was chosen in the
    mapping table of this sheet, after the message the mapping of the sheet
    is the one suggested for the headers of the message. *)
Theorem chunk_resets_mapping (persisted : option Persisted) (before : list Event)
    (fn : option string) (sh : string) (hri : nat) (hs : list string) (rs : list Row) :
  let st := dispatch Number_toString (Progress (EvSheet fn sh hri hs rs))
              (run Number_toString before (start persisted)) in
  obj_get (mappings (state st)) (sheet_key fn sh)
  = Some {| sheetName := sh; headerRowIndex := hri;
            suggestions := Mapper.suggestMapping hs |}.
Proof.
  cbv zeta. cbn [dispatch].
  destruct (run_reads Number_toString before (start persisted)
              (refs_ok_start persisted)) as [R _].
  destruct (handleProgress_sheet_acts Number_toString fn sh hri hs rs _ R)
    as (_ & _ & V).
  destruct (values_fields _ _ V) as (_ & _ & _ & M & _). clear V.
  rewrite M. unfold captured. cbv zeta. fields. apply obj_get_obj_set.
Qed.

(** With two sheets captured, "Apply Mapping & Validate" maps and validates
    the rows of the sheet that arrived first; the other sheet is not
    looked at. *)
Theorem first_sheet_is_mapped (fnA fnB : option string) (shA shB : string)
    (hriA hriB : nat) (hsA hsB : list string) (rsA rsB : list Row) :
  sheet_key fnA shA <> sheet_key fnB shB ->
  let st := run Number_toString
              [Progress (EvSheet fnA shA hriA hsA rsA);
               Progress (EvSheet fnB shB hriB hsB rsB);
               ApplyMappingClick] (start None) in
  let mapped :=
    fst (Mapper.applyMapping Number_toString rsA
           {| sheetName := shA; headerRowIndex := hriA;
              suggestions := Mapper.suggestMapping hsA |}) in
  records (state st) = mapped /\
  dataQuality (state st) = Some (Validator.validate mapped) /\
  map fst (sheets (state st)) = [sheet_key fnA shA; sheet_key fnB shB].
Proof.
  intros N. cbv zeta. unfold run. cbn [fold_left].
  change (dispatch Number_toString (Progress (EvSheet fnA shA hriA hsA rsA))
            (start None))
    with (handleProgress Number_toString (EvSheet fnA shA hriA hsA rsA) (start None)).
  destruct (handleProgress_sheet_acts Number_toString fnA shA hriA hsA rsA
              (start None) (refs_ok_start None)) as (R1 & _ & V1).
  destruct (values_fields _ _ V1) as (S1 & _ & _ & M1 & Sh1 & _). clear V1.
  unfold captured in S1, M1, Sh1. cbv zeta in S1, M1, Sh1. fields.
  change (state (start None)) with init in S1, M1, Sh1.
  change (sheets init) with (@nil (string * SheetData)) in Sh1.
  change (mappings init) with (@nil (string * MappingForSheet)) in M1.
  change (stepIndex init) with 0 in S1. cbn [obj_get obj_set Z.eqb] in S1, M1, Sh1.
  revert R1 S1 M1 Sh1.
  generalize (handleProgress Number_toString (EvSheet fnA shA hriA hsA rsA)
                (start None)).
  intros st1 R1 S1 M1 Sh1.
  change (dispatch Number_toString (Progress (EvSheet fnB shB hriB hsB rsB)) st1)
    with (handleProgress Number_toString (EvSheet fnB shB hriB hsB rsB) st1).
  destruct (handleProgress_sheet_acts Number_toString fnB shB hriB hsB rsB st1 R1)
    as (R2 & _ & V2).
  destruct (values_fields _ _ V2) as (S2 & _ & _ & M2 & Sh2 & _). clear V2.
  unfold captured in S2, M2, Sh2. cbv zeta in S2, M2, Sh2. fields.
  rewrite S1 in S2. rewrite M1 in M2. rewrite Sh1 in Sh2.
  pose proof (sheet_key_not_empty fnA shA) as Hk.
  revert N M2 Sh2 Hk. generalize (sheet_key fnA shA) (sheet_key fnB shB).
  intros kA kB N M2 Sh2 Hk.
  assert (String.eqb kA kB = false) as EN by (apply String.eqb_neq, N).
  cbn [obj_get obj_set Z.eqb] in S2, M2, Sh2. rewrite EN in M2, Sh2.
  cbn [obj_set] in M2, Sh2.
  revert R2 S2 M2 Sh2.
  generalize (handleProgress Number_toString (EvSheet fnB shB hriB hsB rsB) st1).
  clear st1 R1 S1 M1 Sh1. intros st2 R2 S2 M2 Sh2.
  cbn [dispatch].
  assert (on_step 1 st2 && negb (mapBtn_disabled st2) = true) as ->.
  { unfold on_step, mapBtn_disabled. rewrite S2, M2. reflexivity. }
  pose proof (applyMappingClick_first Number_toString st2 _ _ _ M2 Hk) as A.
  cbv zeta in A. rewrite Sh2 in A. cbn [obj_get] in A.
  rewrite String.eqb_refl in A. cbn [rows] in A. rewrite A.
  destruct (dq_status _); (split; [reflexivity|]); (split; [reflexivity|]);
    cbn [nextStep update assign set structuredClone state]; fields;
    rewrite Sh2; reflexivity.
Qed.

End Delivery.

(* ===================================================================== *)
(** * The wizard: what a session never does                             *)
(* ===================================================================== *)

Section Never.

Import Store StoreMore Reading Wizard Fixtures Effects.
Local Open Scope string_scope.
Local Open Scope list_scope.
Local Open Scope Z_scope.

Variable Number_toString : number -> string.


Lemma settled_refl st : settled st st.
Proof. repeat split; auto. Qed.

Lemma settled_trans a b c : settled a b -> settled b c -> settled a c.
Proof.
  intros (A1 & A2 & A3 & A4) (B1 & B2 & B3 & B4).
  repeat split; [congruence|congruence|congruence|auto].
Qed.

Lemma settled_of (st st' : Store) (f : WizardState -> WizardState) :
  reading st' = reading st ->
  values (state st') = values (f (state st)) ->
  files (f (state st)) = files (state st) ->
  lifetimeYears (f (state st)) = lifetimeYears (state st) ->
  (is_Some (current_error (state st)) -> is_Some (current_error (f (state st)))) ->
  settled st st'.
Proof.
  intros R V F L E.
  destruct (values_fields _ _ V) as (_ & V2 & _ & _ & _ & _ & _ & _ & V9 & _ & V11).
  split; [congruence|]. split; [congruence|]. split.
  - exact (f_equal (fun x => x.1.2) R).
  - rewrite V11. exact E.
Qed.

Lemma dispatch_settled (e : Event) (st : Store) :
  refs_ok st -> settled st (dispatch Number_toString e st).
Proof.
  intros H.
  assert (forall f, keeps_refs f ->
            files (f (state st)) = files (state st) ->
            lifetimeYears (f (state st)) = lifetimeYears (state st) ->
            (is_Some (current_error (state st)) ->
             is_Some (current_error (f (state st)))) ->
            settled st (set f st)) as viaSet.
  { intros f K F L E. destruct (refs_ok_set f st K H) as [_ R].
    apply (settled_of st (set f st) f R eq_refl F L E). }
  destruct e as [idx|ev|gf|key idx value| | |now|b|msg]; cbn [dispatch].
  - destruct (idx <? length steps)%nat; [|apply settled_refl]. unfold navClick.
    destruct (canGo (state st) idx); [|apply settled_refl].
    apply (viaSet _ (keeps_stepIndex (fun _ => Z.of_nat idx))); auto.
  - destruct ev as [|fn sh hri hs rs|msg|]; cbn [handleProgress];
      [apply settled_refl| | |apply settled_refl].
    + destruct (handleProgress_sheet_acts Number_toString fn sh hri hs rs st H)
        as (_ & R & V).
      apply (settled_of _ _ _ R V); auto.
    + apply (viaSet _ (keeps_error (Some msg))); [reflexivity|reflexivity|].
      intros _. eexists. reflexivity.
  - destruct (on_step 0 st); [|apply settled_refl].
    apply (viaSet _ (keeps_gridFactor gf)); auto.
  - destruct (on_step 1 st); [|apply settled_refl]. unfold selectChange.
    destruct (obj_get (mappings (state st)) key) as [m|]; [|apply settled_refl].
    destruct (suggestions m !! idx) as [sug|]; [|apply settled_refl].
    match goal with
    | |- settled st (setMapping ?k ?v st) =>
        destruct (acts_setMapping k v st H) as (_ & R & V);
        apply (settled_of _ _ _ R V); auto
    end.
  - destruct (on_step 1 st && negb (mapBtn_disabled st)); [|apply settled_refl].
    destruct (applyMappingClick_cases Number_toString st)
      as [->|(rs & dq & [[_ ->]|[_ ->]])]; [apply settled_refl| |].
    + apply (viaSet _ (keeps_applied rs dq)); auto.
    + eapply settled_trans; [apply (viaSet _ (keeps_applied rs dq)); auto|].
      destruct (refs_ok_set _ st (keeps_applied rs dq) H) as [R1 _].
      destruct (acts_nextStep _ R1) as (_ & R & V).
      apply (settled_of _ _ _ R V); auto.
  - destruct (on_step 2 st && negb (computeBtn_disabled st)); [|apply settled_refl].
    destruct (computeClick_reads st H) as (thr & T & _ & R & V). cbv zeta in R, V.
    destruct (values_fields _ _ V) as (_ & V2 & _ & _ & _ & _ & _ & _ & V9 & _ & V11).
    fields. split; [exact V2|]. split; [exact V9|]. split.
    + rewrite T. exact (f_equal (fun x => x.1.2) R).
    + rewrite V11. auto.
  - destruct (on_step 3 st && negb (lockBtn_disabled st)); [|apply settled_refl].
    destruct (lockClick_reads now st H) as (_ & R & V).
    destruct (values_fields _ _ V) as (_ & V2 & _ & _ & _ & _ & _ & _ & V9 & _ & V11).
    fields. split; [exact V2|]. split; [exact V9|]. split.
    + exact (f_equal (fun x => x.1.2) R).
    + rewrite V11. auto.
  - apply (viaSet _ (keeps_busy b)); auto.
  - apply (viaSet _ (keeps_error (Some msg))); [reflexivity|reflexivity|].
    intros _. eexists. reflexivity.
Qed.

(** What a session never does.  Whatever happens, the list of files stays
    empty (the meta data of a parsed file is dropped), the lifetimes and the
    thresholds stay those the session started with, so that every KPI of the
    session is computed with them, and an error that has been reported is
    never taken back: from then on the error slot is filled. *)
Theorem session_never (persisted : option Persisted) (before after : list Event) :
  let st0 := start persisted in
  let st1 := run Number_toString before st0 in
  let st2 := run Number_toString after st1 in
  files (state st2) = [] /\
  lifetimeYears (state st2) = lifetimeYears (state st0) /\
  thresholds_at (heap st2) (thresholds (state st2))
  = thresholds_at (heap st0) (thresholds (state st0)) /\
  (is_Some (current_error (state st1)) -> is_Some (current_error (state st2))).
Proof.
  cbv zeta.
  assert (forall es st, refs_ok st -> settled st (run Number_toString es st)) as G.
  { unfold run. induction es as [|e es IH]; intros st H; [apply settled_refl|].
    cbn [fold_left]. eapply settled_trans; [apply dispatch_settled, H|].
    apply IH, dispatch_reads, H. }
  pose proof (refs_ok_start persisted) as R0.
  destruct (run_reads Number_toString before _ R0) as [R1 _].
  destruct (G before _ R0) as (A1 & A2 & A3 & _).
  destruct (G after _ R1) as (B1 & B2 & B3 & B4).
  split; [rewrite B1, A1; destruct persisted; reflexivity|].
  split; [congruence|]. split; [congruence|exact B4].
Qed.

End Never.

(* ===================================================================== *)
(** * CSV export                                                        *)
(* ===================================================================== *)

Section CsvFacts.

Import Csv CsvReader.
Local Open Scope list_scope.
Local Open Scope string_scope.

Variable Number_toString : number -> string.

Abbreviation esc_text := (CsvReader.esc_text Number_toString).
Abbreviation written := (CsvReader.written Number_toString).

Lemma app_nil_s (s : string) : "" ++ s = s.
Proof. reflexivity. Qed.

Lemma app_cons_s (c : ascii) (s t : string) : String c s ++ t = String c (s ++ t).
Proof. reflexivity. Qed.


Lemma follows_scan (m : Mode) (t : string) :
  follows t -> m <> Quoted -> scan m t = scan Start t.
Proof.
  intros [->|[[t' ->]|[t' ->]]] Hm; destruct m; try contradiction; reflexivity.
Qed.

Lemma follows_head (t : string) (c : ascii) (t' : string) :
  follows t -> t = String c t' -> Ascii.eqb c LF = false /\ Ascii.eqb c dquote = false.
Proof.
  intros [->|[[t1 ->]|[t1 ->]]]; [discriminate| |]; intros [= <- _]; split; reflexivity.
Qed.


Lemma scan_shape (m : Mode) (s : string) :
  exists x fs rs, scan m s = (x :: fs) :: rs.
Proof.
  revert m. induction s as [|c s IH]; intros m; [cbn; eauto|].
  assert (forall t : list (list string),
             (exists x fs rs, t = (x :: fs) :: rs) ->
             (exists x fs rs, push c t = (x :: fs) :: rs) /\
             (exists x fs rs, new_field t = (x :: fs) :: rs) /\
             (exists x fs rs, new_row t = (x :: fs) :: rs)) as P.
  { intros t (x & fs & rs & ->). cbn. split; [|split]; eexists _, _, _; reflexivity. }
  cbn [scan]. destruct m.
  - destruct (Ascii.eqb c dquote); [apply IH|].
    destruct (Ascii.eqb c ","); [apply P, IH|].
    destruct (Ascii.eqb c CR); [|apply P, IH].
    destruct s as [|d s']; [apply P, IH|].
    destruct (Ascii.eqb d LF); [|apply P, IH].
    unfold new_row. eexists _, _, _. reflexivity.
  - destruct (Ascii.eqb c dquote); [apply P, IH|].
    destruct (Ascii.eqb c ","); [apply P, IH|].
    destruct (Ascii.eqb c CR); [|apply P, IH].
    destruct s as [|d s']; [apply P, IH|].
    destruct (Ascii.eqb d LF); [|apply P, IH].
    unfold new_row. eexists _, _, _. reflexivity.
  - destruct (Ascii.eqb c dquote); [apply IH|apply P, IH].
  - destruct (Ascii.eqb c dquote); [apply P, IH|].
    destruct (Ascii.eqb c ","); [apply P, IH|].
    destruct (Ascii.eqb c CR); [|apply P, IH].
    destruct s as [|d s']; [apply P, IH|].
    destruct (Ascii.eqb d LF); [|apply P, IH].
    unfold new_row. eexists _, _, _. reflexivity.
Qed.

Lemma push_put (c : ascii) (f : string) (m : Mode) (s : string) :
  push c (put f (scan m s)) = put (String c f) (scan m s).
Proof. destruct (scan_shape m s) as (x & fs & rs & ->). reflexivity. Qed.

Lemma put_empty (m : Mode) (s : string) : put "" (scan m s) = scan m s.
Proof. destruct (scan_shape m s) as (x & fs & rs & ->). reflexivity. Qed.

Lemma is_special_false (c : ascii) :
  is_special c = false ->
  Ascii.eqb c dquote = false /\ Ascii.eqb c "," = false /\ Ascii.eqb c LF = false.
Proof.
  unfold is_special. intros H. apply orb_false_iff in H as [H H3].
  apply orb_false_iff in H as [H1 H2]. auto.
Qed.

(** A field without special characters is read as it is. *)
Lemma scan_plain (f : string) (t : string) (m : Mode) :
  has_special f = false -> follows t -> m <> Quoted ->
  scan m (f ++ t) = put f (scan Start t).
Proof.
  revert m. induction f as [|c f IH]; intros m Hf Ht Hm.
  - rewrite app_nil_s, put_empty. apply follows_scan; assumption.
  - cbn [has_special] in Hf. apply orb_false_iff in Hf as [Hc Hf].
    destruct (is_special_false c Hc) as (C1 & C2 & C3).
    assert (scan m (String c (f ++ t)) = push c (scan Plain (f ++ t))) as E.
    { cbn [scan]. rewrite C1, C2.
      destruct (Ascii.eqb c CR) eqn:C4; [|destruct m; try contradiction; reflexivity].
      destruct (f ++ t) as [|d s'] eqn:Efs; [destruct m; try contradiction; reflexivity|].
      assert (Ascii.eqb d LF = false) as ->;
        [|destruct m; try contradiction; reflexivity].
      destruct f as [|c' f'].
      - rewrite app_nil_s in Efs. apply (follows_head t d s' Ht Efs).
      - rewrite app_cons_s in Efs. injection Efs as <- _.
        cbn [has_special] in Hf. apply orb_false_iff in Hf as [Hc' _].
        apply (is_special_false c' Hc'). }
    rewrite app_cons_s, E, IH by (assumption || discriminate).
    apply push_put.
Qed.

(** A quoted field is read back without its quotes, its doubled quotes
    halved. *)
Lemma scan_quoted (f : string) (t : string) :
  follows t ->
  scan Quoted (double_quotes f ++ String dquote t) = put f (scan Start t).
Proof.
  intros Ht. induction f as [|c f IH].
  - cbn [double_quotes]. rewrite app_nil_s. cbn [scan].
    rewrite Ascii.eqb_refl, put_empty.
    apply follows_scan; [exact Ht|discriminate].
  - cbn [double_quotes]. destruct (Ascii.eqb c dquote) eqn:C.
    + apply Ascii.eqb_eq in C. subst c. rewrite !app_cons_s. cbn [scan].
      rewrite !Ascii.eqb_refl, IH. apply push_put.
    + rewrite app_cons_s. cbn [scan]. rewrite C, IH. apply push_put.
Qed.


Lemma scan_esc (f : string) (t : string) :
  follows t -> scan Start (esc_text f ++ t) = put f (scan Start t).
Proof.
  intros Ht. unfold esc_text, esc. cbn [String_].
  destruct (has_special f) eqn:S.
  - rewrite app_cons_s. cbn [scan]. rewrite Ascii.eqb_refl.
    replace ((double_quotes f ++ String dquote "") ++ t)
      with (double_quotes f ++ String dquote t).
    + apply scan_quoted, Ht.
    + induction (double_quotes f) as [|c x IHx]; [reflexivity|].
      rewrite !app_cons_s, IHx. reflexivity.
  - apply scan_plain; [exact S|exact Ht|discriminate].
Qed.



Lemma esc_written (v : JsValue) : esc Number_toString v = esc_text (written v).
Proof. destruct v; reflexivity. Qed.

Lemma app_nil_r_s (s : string) : s ++ "" = s.
Proof. induction s as [|c s IH]; [reflexivity|]. rewrite app_cons_s, IH. reflexivity. Qed.

Lemma app_assoc_s (a b c : string) : (a ++ b) ++ c = a ++ (b ++ c).
Proof.
  induction a as [|x a IH]; [reflexivity|]. rewrite !app_cons_s, IH. reflexivity.
Qed.

Lemma scan_comma (s : string) : scan Start (String "," s) = new_field (scan Start s).
Proof. reflexivity. Qed.

Lemma scan_crlf (s : string) : scan Start (CRLF ++ s) = new_row (scan Start s).
Proof. reflexivity. Qed.

Lemma join_cons (sep p : string) (q : string) (rest : list string) :
  join sep (p :: q :: rest) = p ++ sep ++ join sep (q :: rest).
Proof. reflexivity. Qed.

(** One row, followed by the end of the text or by CR LF. *)
Lemma scan_row (fs : list string) : forall (f : string) (t : string) r T,
  t = "" \/ (exists t', t = CRLF ++ t') ->
  scan Start t = ("" :: r) :: T ->
  scan Start (join "," (map esc_text (f :: fs)) ++ t) = ((f :: fs) ++ r)%list :: T.
Proof.
  induction fs as [|g gs IH]; intros f t r T Ht E.
  - cbn [map join]. rewrite scan_esc; [|destruct Ht as [->|[t' ->]]; [left|right; right]; eauto].
    rewrite E. cbn [put]. rewrite app_nil_r_s. reflexivity.
  - cbn [map]. rewrite join_cons, !app_assoc_s.
    rewrite scan_esc by (right; left; eexists; reflexivity).
    change ("," ++ join "," (esc_text g :: map esc_text gs) ++ t)
      with (String "," (join "," (map esc_text (g :: gs)) ++ t)).
    rewrite scan_comma, (IH g t r T Ht E). cbn [new_field put app].
    rewrite app_nil_r_s. reflexivity.
Qed.

Lemma scan_table (rows : list (list string)) :
  rows <> [] -> Forall (fun r => r <> []) rows ->
  scan Start (join CRLF (map (fun r => join "," (map esc_text r)) rows)) = rows.
Proof.
  intros Hne Hall. induction Hall as [|r rows Hr Hall IH]; [contradiction|].
  destruct r as [|f fs]; [contradiction|].
  destruct rows as [|r' rows].
  - pose proof (scan_row fs f "" [] [] (or_introl eq_refl) eq_refl) as E.
    rewrite app_nil_r_s, app_nil_r in E. exact E.
  - cbn [map]. rewrite join_cons.
    rewrite (scan_row fs f _ [] (r' :: rows)).
    + rewrite app_nil_r. reflexivity.
    + right. eexists. reflexivity.
    + rewrite scan_crlf. cbn [map] in IH. rewrite IH by discriminate. reflexivity.
Qed.

Lemma toCSV_texts (rows : list (list JsValue)) :
  toCSV Number_toString rows
  = join CRLF (map (fun r => join "," (map esc_text r)) (map (map written) rows)).
Proof.
  unfold toCSV. rewrite map_map.
  assert (forall r : list JsValue,
             join "," (map (esc Number_toString) r)
             = join "," (map esc_text (map written r))) as E.
  { intros r. rewrite map_map. reflexivity. }
  f_equal. apply map_ext. exact E.
Qed.


End CsvFacts.

(* ===================================================================== *)
(** * The further statements at concrete inputs                            *)
(* ===================================================================== *)

Section FurtherWitnesses.

Import Store StoreMore Reading Wizard Fixtures Effects Plausible Quality.
Local Open Scope string_scope.
Local Open Scope list_scope.
Local Open Scope Q_scope.




(** The suggestion for the transport field among the headers of the mapping
    test. *)
Lemma suggestMapping_first_best_witness :
  exists s,
    Mapper.suggestMapping mapping_test_headers !! 2%nat = Some s /\
    target s = "Transport_kgCO2e".
Proof.
  destruct (suggestMapping_first_best mapping_test_headers 2
              ("Transport_kgCO2e",
               ["transport co2"; "transport kgco2e"; "co2e transport";
                "logistics co2"; "shipping co2"]) eq_refl)
    as (s & E & T & _).
  exists s. split; [exact E|exact T].
Defined.

(** A row mapped with no suggestion at all lacks its transport value. *)
Lemma missing_required_field_is_red_witness :
  dq_status
    (Validator.validate
       (fst (Mapper.applyMapping no_text [mapping_test_row]
               {| sheetName := "S"; headerRowIndex := 0; suggestions := [] |})))
  = red.
Proof.
  apply (missing_required_field_is_red no_text [mapping_test_row]
           {| sheetName := "S"; headerRowIndex := 0; suggestions := [] |}
           Validator.FTransport).
  - discriminate.
  - intros r Hr. apply list_elem_of_singleton in Hr. subst r. reflexivity.
  - vm_compute. do 2 apply list_elem_of_further. apply list_elem_of_here.
Defined.

(** A number written with thousands separators. *)
Lemma toNum_two_separators_witness :
  Mapper.toNum no_text (VStr "1,234,567") = None.
Proof. apply toNum_two_separators. vm_compute. lia. Defined.

(** The next step on the store of the KPI test. *)
Lemma store_operations_keep_reading_witness :
  reading (nextStep computed_store) = reading computed_store.
Proof.
  assert (refs_ok computed_store) as H.
  { split; [|split; [|exact I]].
    - eexists. split; [reflexivity|]. repeat constructor; eexists; reflexivity.
    - eexists. reflexivity. }
  destruct (store_operations_keep_reading computed_store H) as [A _].
  apply (A nextStep). left. constructor.
Defined.

(** A write in a mutator of [update] on the store of the KPI test. *)
Lemma update_writes_the_copy_witness :
  read_state
    (heap (update (edit_entry 0 (set_Total_CO2e (Fin 999))) computed_store))
    (state computed_store)
  = reading computed_store.
Proof.
  assert (refs_ok computed_store) as H.
  { split; [|split; [|exact I]].
    - eexists. split; [reflexivity|]. repeat constructor; eexists; reflexivity.
    - eexists. reflexivity. }
  apply (update_writes_the_copy computed_store 0 (set_Total_CO2e (Fin 999)) H).
  vm_compute. lia.
Defined.

(** The reload of the store that captured a sheet. *)
Lemma reload_keeps_settings_only_witness :
  exists p,
    persist captured_store = Some p /\
    stepIndex (state (start (Some p))) = 1%Z /\
    Wizard.mapBtn_disabled (start (Some p)) = true.
Proof.
  eexists. split; [reflexivity|].
  match goal with
  | |- stepIndex (state (start (Some ?p))) = _ /\ _ =>
      destruct (reload_keeps_settings_only captured_store p eq_refl eq_refl)
        as ((S & _) & _ & (B & _) & _)
  end.
  split; [exact S|exact B].
Defined.

(** The sheet of the dummy data, from its arrival to the lock: the mapped
    rows are valid and the wizard arrives at the last step. *)
Lemma upload_to_export_witness :
  stepIndex
    (state
       (run no_text
          [Progress
             (EvSheet None "Data" 0 Ingestion.dummy_headers
                (map (Ingestion.row_object Ingestion.dummy_headers)
                     Ingestion.dummy_data));
           ApplyMappingClick; ComputeClick; LockClick "t"] (start None)))
  = 4%Z.
Proof.
  destruct (upload_to_export no_text None "Data" 0 Ingestion.dummy_headers
              (map (Ingestion.row_object Ingestion.dummy_headers)
                   Ingestion.dummy_data) "t") as [A _]; [discriminate|].
  apply A. vm_compute. discriminate.
Defined.

(** The rows of the example with one row of data arrive in a fresh store. *)
Lemma sheet_arrives_whole_witness :
  stepIndex
    (state
       (Ingestion.deliver no_text
          (Ingestion.sheet_messages no_text "f.xlsx" "S"
             (header_rows_example ++ [[VStr "A"; VStr "5"]]))
          (start None)))
  = 1%Z.
Proof.
  destruct (sheet_arrives_whole no_text "f.xlsx" "S"
              (header_rows_example ++ [[VStr "A"; VStr "5"]])
              (start None)) as [_ A].
  - split; [|split; [|exact I]].
    + exists []. split; [reflexivity|constructor].
    + eexists. reflexivity.
  - destruct A as (_ & _ & _ & S & _); [vm_compute; discriminate|]. exact S.
Defined.

(** Two sheets of one file. *)
Lemma first_sheet_is_mapped_witness :
  records
    (state
       (run no_text
          [Progress (EvSheet None "A" 0 mapping_test_headers [mapping_test_row]);
           Progress (EvSheet None "B" 0 ["x"] [∅; ∅]);
           ApplyMappingClick] (start None)))
  = fst (Mapper.applyMapping no_text [mapping_test_row]
           {| sheetName := "A"; headerRowIndex := 0;
              suggestions := Mapper.suggestMapping mapping_test_headers |}).
Proof.
  apply (first_sheet_is_mapped no_text None None "A" "B" 0 0 mapping_test_headers
           ["x"] [mapping_test_row] [∅; ∅]).
  vm_compute. discriminate.
Defined.

(** Back from the second step to the first: the second is out of reach. *)
Lemma frontier_is_current_step_witness :
  Wizard.dispatch no_text (NavClick 1)
    (Wizard.dispatch no_text (NavClick 0) captured_store)
  = Wizard.dispatch no_text (NavClick 0) captured_store.
Proof.
  apply (frontier_is_current_step no_text captured_store 0);
    [lia|vm_compute; reflexivity|lia].
Defined.

(** A new list after the lock of the store of the KPI test. *)
Lemma replacing_keeps_snapshot_witness :
  live_kpis
    (setKPIs (alloc_kpis (heap (lock "t" computed_store)) []).2
       {| heap := (alloc_kpis (heap (lock "t" computed_store)) []).1;
          state := state (lock "t" computed_store) |})
  = [].
Proof.
  apply (replacing_keeps_snapshot computed_store "t" []).
  - vm_compute. lia.
  - vm_compute. repeat constructor.
  - vm_compute. lia.
Defined.

End FurtherWitnesses.
